(** * home-soc: network monitor and threat aggregator

    A shallow embedding of [src/network-monitor.js] and
    [src/threat-aggregator.js], and the properties of their anomaly rules,
    state store, alert dispatcher and aggregation summary.

    JavaScript values are modelled as the code uses them: a string as
    the bytes of its UTF-8 encoding ([string]), array lengths as [nat],
    Numbers that go through division, [Math.round] or [parseInt] as
    IEEE 754 binary64 values ([spec_float] at precision 53), [Set] as
    [gset], exceptions and rejected promises as a [Completion]. *)

From Stdlib Require Import ZArith List String Ascii Bool Lia.
From Stdlib Require Import Floats.SpecFloat Numbers.DecimalString.
From stdpp Require Import base option list gmap sets strings.

Local Open Scope string_scope.
Local Open Scope list_scope.
Local Open Scope nat_scope.

(** ** The JavaScript fragment the two modules rely on *)

Module JS.

(** An [Error] object: only [name] and [message] are ever read. *)
Record Error := mkError { name : string; message : string }.

(** Outcome of an evaluation that may throw (or of a settled promise:
    [Normal] is resolved, [Throw] is rejected). *)
Inductive Completion (A : Type) :=
| Normal (a : A)
| Throw (e : Error).
Arguments Normal {A} a.
Arguments Throw {A} e.

Definition is_normal {A} (c : Completion A) : bool :=
  match c with Normal _ => true | Throw _ => false end.

(** Sequencing: an exception ends the evaluation. *)
Definition and_then {A B} (c : Completion A) (k : A -> Completion B)
  : Completion B :=
  match c with
  | Normal a => k a
  | Throw e => Throw e
  end.

(** *** Strings

    A string stands for a JavaScript string through UTF-8: it is the
    text a command prints, a file holds or a request carries, byte for
    byte. A byte below 128 is a character of its own wherever it occurs,
    so splitting at an ASCII character, searching an ASCII text and
    reading digits go byte by byte. Blanks and [length] are where the
    characters beyond ASCII matter. *)

Definition bytes (l : list nat) : string :=
  List.fold_right (fun n s => String (ascii_of_nat n) s) EmptyString l.

(** The code points of the ECMAScript WhiteSpace and LineTerminator
    classes, each in UTF-8: TAB, LF, VT, FF, CR, SP, U+00A0, U+1680,
    U+2000 to U+200A, U+2028, U+2029, U+202F, U+205F, U+3000 and U+FEFF.
    These are the blanks of [trim], of the class [\s] of a regular
    expression and of [parseInt]. *)
Definition blanks : list string :=
  [ bytes [9]; bytes [10]; bytes [11]; bytes [12]; bytes [13]; bytes [32];
    bytes [194; 160];
    bytes [225; 154; 128] ]
  ++ List.map (fun n => bytes [226; 128; n]) (List.seq 128 11)
  ++ [ bytes [226; 128; 168]; bytes [226; 128; 169];
       bytes [226; 128; 175];
       bytes [226; 129; 159];
       bytes [227; 128; 128];
       bytes [239; 187; 191] ].

(** The number of bytes of the blank that [s] starts with, 0 when it
    starts with none. *)
Definition blank_width (s : string) : nat :=
  match List.find (fun b => String.prefix b s) blanks with
  | Some b => String.length b
  | None => 0
  end.

(** [s] without the blanks it starts with. A blank has one to three
    bytes. *)
Fixpoint skip_ws (s : string) : string :=
  match blank_width s, s with
  | 1, String _ r => skip_ws r
  | 2, String _ (String _ r) => skip_ws r
  | 3, String _ (String _ (String _ r)) => skip_ws r
  | _, _ => s
  end.

(** [s.trim()] is truthy exactly when [s] has a character that is not a
    blank. *)
Definition trim_truthy (s : string) : bool :=
  match skip_ws s with
  | EmptyString => false
  | String _ _ => true
  end.

(** [s.length]: the number of UTF-16 code units of the string. A code
    point below U+10000 is one unit and takes one to three bytes, the
    first of which is not of the form 10xxxxxx; a code point from
    U+10000 on is two units and takes four bytes, the first of which is
    240 or more. *)
Fixpoint length_utf16 (s : string) : nat :=
  match s with
  | EmptyString => 0
  | String c s' =>
      let n := nat_of_ascii c in
      (if (128 <=? n) && (n <? 192) then 0
       else if 240 <=? n then 2 else 1) + length_utf16 s'
  end.

(** [s.split(sep)] for a one-character separator. [cur] is the segment
    being read. *)
Fixpoint split_go (sep : ascii) (s : string) (cur : string) : list string :=
  match s with
  | EmptyString => [cur]
  | String c s' =>
      if Ascii.eqb c sep then cur :: split_go sep s' ""
      else split_go sep s' (cur ++ String c "")
  end.
Definition split (sep : ascii) (s : string) : list string := split_go sep s "".

(** [s.split(/\s+/)]: a run of blanks is one separator; a run at either
    end leaves an empty first or last segment. [inws] records that the
    previous character belonged to a run; [cur] is the segment being
    read. *)
Fixpoint split_ws_go (s : string) (cur : string) (inws : bool) : list string :=
  match s with
  | EmptyString => [cur]
  | String c s1 =>
      match blank_width s, s1 with
      | 0, _ => split_ws_go s1 (cur ++ String c "") false
      | 1, r
      | 2, String _ r
      | _, String _ (String _ r) =>
          if inws then split_ws_go r "" true
          else cur :: split_ws_go r "" true
      | _, _ => [cur]
      end
  end.
Definition split_ws (s : string) : list string := split_ws_go s "" false.

(** [arr[i]], [undefined] out of range. *)
Definition at_index {A} (l : list A) (i : nat) : option A := List.nth_error l i.

(** [haystack.includes(needle)] on strings, used for [grep]'s fixed-string
    match as well. *)
Fixpoint contains (needle hay : string) : bool :=
  String.prefix needle hay ||
  match hay with
  | EmptyString => false
  | String _ hay' => contains needle hay'
  end.

(** [s.toUpperCase()] on a text whose letters are ASCII, as the three
    severities are. *)
Fixpoint toUpperCase (s : string) : string :=
  match s with
  | EmptyString => EmptyString
  | String c s' =>
      let n := nat_of_ascii c in
      String (if (97 <=? n) && (n <=? 122) then ascii_of_nat (n - 32) else c)
             (toUpperCase s')
  end.

(** *** Numbers *)

Definition float64 := spec_float.
Definition prec : Z := 53.
Definition emax : Z := 1024.

Definition NaN : float64 := S754_nan.
Definition of_Z (z : Z) : float64 := binary_normalize prec emax z 0 false.
Definition of_nat (n : nat) : float64 := of_Z (Z.of_nat n).

Definition div (x y : float64) : float64 := SFdiv prec emax x y.
Definition sub (x y : float64) : float64 := SFsub prec emax x y.
Definition mul (x y : float64) : float64 := SFmul prec emax x y.
(** [x >= y] *)
Definition ge (x y : float64) : bool := SFleb y x.

(** What [Math.round] returns: NaN, an infinity, a zero, or a non-zero
    integer. The Number returned is the binary64 value of that integer,
    which is exact: an argument with a fractional part is below 2^53 in
    magnitude. *)
Inductive Rounded :=
| R_nan
| R_infinity (negative : bool)
| R_zero (negative : bool)
| R_int (z : Z).

(** [Math.round(x)]: the integer closest to [x], ties towards +Infinity;
    NaN, the infinities and the zeros are returned unchanged. A finite
    value is [m * 2^e]; for [e < 0] the result is
    [floor ((2m + 2^-e) / 2^(1-e))], and it keeps the sign of [x] when it
    is zero. *)
Definition Math_round (x : float64) : Rounded :=
  match x with
  | S754_nan => R_nan
  | S754_infinity s => R_infinity s
  | S754_zero s => R_zero s
  | S754_finite s m e =>
      let v := (if s then Z.neg m else Z.pos m) in
      if (0 <=? e)%Z then R_int (v * Z.pow 2 e)
      else
        let d := Z.pow 2 (- e) in
        let r := Z.div (2 * v + d) (2 * d) in
        if (r =? 0)%Z then R_zero s else R_int r
  end.

Definition string_of_Z (z : Z) : string :=
  NilZero.string_of_int (Z.to_int z).

(** [String(x)], as a template literal applies it, for [x] a result of
    [Math.round]. An integer prints as its decimal digits when it is
    below 10^21 in magnitude; array lengths are below 2^32, so the
    percentages of this program stay far under that bound. *)
Definition Number_toString (x : Rounded) : string :=
  match x with
  | R_nan => "NaN"
  | R_infinity false => "Infinity"
  | R_infinity true => "-Infinity"
  | R_zero _ => "0"
  | R_int z => string_of_Z z
  end.

(** [Array.prototype.includes] compares with SameValueZero: NaN equals
    NaN, +0 equals -0, otherwise numeric equality. *)
Definition sameValueZero (x y : float64) : bool :=
  match x, y with
  | S754_nan, S754_nan => true
  | _, _ => SFeqb x y
  end.
Definition includes (l : list float64) (x : float64) : bool :=
  existsb (sameValueZero x) l.

(** *** parseInt *)

Definition digit_value (c : ascii) : option Z :=
  let n := Z.of_nat (nat_of_ascii c) in
  if ((48 <=? n) && (n <=? 57))%Z then Some (n - 48)%Z
  else if ((97 <=? n) && (n <=? 122))%Z then Some (n - 87)%Z
  else if ((65 <=? n) && (n <=? 90))%Z then Some (n - 55)%Z
  else None.

Definition digit_in (radix : Z) (c : ascii) : option Z :=
  match digit_value c with
  | Some d => if (d <? radix)%Z then Some d else None
  | None => None
  end.

(** The longest prefix of digits of [s] in [radix], accumulated on [acc];
    [seen] tells whether a digit was read. *)
Fixpoint parse_digits (radix : Z) (s : string) (acc : Z) (seen : bool)
  : option Z :=
  match s with
  | EmptyString => if seen then Some acc else None
  | String c s' =>
      match digit_in radix c with
      | Some d => parse_digits radix s' (acc * radix + d)%Z true
      | None => if seen then Some acc else None
      end
  end.

(** An optional sign, and what follows it. *)
Definition read_sign (s : string) : bool * string :=
  match s with
  | String "-" r => (true, r)
  | String "+" r => (false, r)
  | _ => (false, s)
  end.

(** An optional [0x] or [0X], which selects radix 16, and what follows
    it. *)
Definition read_radix (s : string) : Z * string :=
  match s with
  | String "0" (String "x" r) => (16%Z, r)
  | String "0" (String "X" r) => (16%Z, r)
  | _ => (10%Z, s)
  end.

(** [parseInt(s)] with no radix: leading blanks are skipped, then an
    optional sign, then an optional [0x]/[0X] selecting radix 16;
    the longest digit prefix is read and NaN results when there is none. *)
Definition parseInt (s : string) : float64 :=
  let '(neg, s2) := read_sign (skip_ws s) in
  let '(radix, s3) := read_radix s2 in
  match parse_digits radix s3 0%Z false with
  | None => NaN
  | Some z =>
      if (z =? 0)%Z then S754_zero neg
      else of_Z (if neg then - z else z)
  end.

End JS.

(** ** The Node.js environment: console, file system, child processes *)

Module Node.
Import JS.

Inductive Stream := Stdout | Stderr.

(** What a command run by [exec] leaves behind: its exit status and the
    texts the decoder makes of what it wrote to its two streams. *)
Record ProcResult := mkProc { status : nat; stdout : string; stderr : string }.

Record FileSystem := mkFS {
  files : gmap string string;
  dirs : gset string
}.

(** File-system calls that the environment can make fail (disk full,
    permissions, I/O error), whatever the directory tree looks like. *)
Inductive FsOp :=
| OpRead (path : string)
| OpMkdir (path : string)
| OpWrite (path : string).

Definition newline : string := String (ascii_of_nat 10) "".

(** The lines of a text, as a line-oriented filter reads them: a final
    newline ends the last line and does not start another. *)
Definition lines_of (text : string) : list string :=
  let segs := split (ascii_of_nat 10) text in
  match List.last segs "" with
  | EmptyString => List.removelast segs
  | _ => segs
  end.

(** [grep PATTERN] for a pattern without metacharacters: prints the
    input lines that contain it; exit status 0 when a line was selected
    and 1 when none was. *)
Definition grep (pattern : string) (input : string) : ProcResult :=
  let selected := List.filter (contains pattern) (lines_of input) in
  {| status := match selected with [] => 1 | _ => 0 end;
     stdout := String.concat ""
                 (List.map (fun l : string => (l ++ newline)%string) selected);
     stderr := "" |}.

(** [path.dirname] on an absolute path without a trailing slash. *)
Definition path_dirname (p : string) : string :=
  String.concat "/" (List.removelast (split "/" p)).

(** [new URL(input)] with no base. The parser first drops leading
    control characters and spaces and every tab and newline; it then
    fails unless what is left starts with a scheme: an ASCII letter, then
    letters, digits, [+], [-] or [.], up to a colon. [scan_scheme]
    returns what follows the colon. *)
Fixpoint strip_leading_c0 (s : string) : string :=
  match s with
  | String c s' => if nat_of_ascii c <=? 32 then strip_leading_c0 s' else s
  | EmptyString => s
  end.
Fixpoint remove_tab_newline (s : string) : string :=
  match s with
  | EmptyString => EmptyString
  | String c s' =>
      let n := nat_of_ascii c in
      if (n =? 9) || (n =? 10) || (n =? 13) then remove_tab_newline s'
      else String c (remove_tab_newline s')
  end.
Definition isAlpha (c : ascii) : bool :=
  let n := nat_of_ascii c in
  ((65 <=? n) && (n <=? 90)) || ((97 <=? n) && (n <=? 122)).
Definition isSchemeChar (c : ascii) : bool :=
  let n := nat_of_ascii c in
  isAlpha c || ((48 <=? n) && (n <=? 57)) || (n =? 43) || (n =? 45) || (n =? 46).
Fixpoint scan_scheme (s : string) : option string :=
  match s with
  | EmptyString => None
  | String c s' =>
      if Ascii.eqb c ":" then Some s'
      else if isSchemeChar c then scan_scheme s'
      else None
  end.
Definition after_scheme (input : string) : option string :=
  match remove_tab_newline (strip_leading_c0 input) with
  | String c s' => if isAlpha c then scan_scheme s' else None
  | EmptyString => None
  end.

Record URL := mkURL { hostname : string; pathname : string; search : string }.

(** *** The world a module runs in *)

(** The second argument of a [console.log] or [console.error] call;
    [Obj] is the type of the objects the module logs. *)
Inductive LogArg (Obj : Type) :=
| ArgObject (o : Obj)
| ArgError (err : Error)
| ArgStatus (statusCode : nat).
Arguments ArgObject {Obj} o.
Arguments ArgError {Obj} err.
Arguments ArgStatus {Obj} statusCode.

(** A call of [console.log] ([Stdout]) or [console.error] ([Stderr]).
    The pictographs that start some messages are left out of [text]. *)
Record LogLine (Obj : Type) := mkLog {
  stream : Stream;
  text : string;
  arg : option (LogArg Obj)
}.
Arguments mkLog {Obj}.
Arguments stream {Obj}.
Arguments text {Obj}.
Arguments arg {Obj}.

Record HttpRequest := mkRequest {
  req_hostname : string;
  req_path : string;
  req_method : string;
  req_headers : list (string * string);
  req_body : string
}.

Record World (Obj : Type) := mkWorld {
  fs : FileSystem;
  (** calls the environment makes fail, and with what error *)
  fault : FsOp -> option Error;
  (** how far a write that is made to fail gets: [None] when it fails
      before the file is opened, [Some n] when it fails after the file
      was opened, and so emptied, and [n] bytes had reached it *)
  torn : string -> option nat;
  (** what each command prints and returns when it is run *)
  proc : string -> ProcResult;
  console : list (LogLine Obj);
  (** requests handed to [https.request], oldest first *)
  outbox : list HttpRequest
}.
Arguments mkWorld {Obj}.
Arguments fs {Obj}.
Arguments fault {Obj}.
Arguments torn {Obj}.
Arguments proc {Obj}.
Arguments console {Obj}.
Arguments outbox {Obj}.

Section Effects.
Context {Obj : Type}.

(** Computations that read and change the world and may throw; the
    world reached when an exception is thrown is kept. *)
Definition M (A : Type) : Type := World Obj -> Completion A * World Obj.

Definition ret {A} (a : A) : M A := fun w => (Normal a, w).
Definition throw {A} (e : Error) : M A := fun w => (Throw e, w).
Definition bind {A B} (m : M A) (k : A -> M B) : M B :=
  fun w => match m w with
           | (Normal a, w') => k a w'
           | (Throw e, w') => (Throw e, w')
           end.
(** [try { body } catch (err) { handler }] *)
Definition try_catch {A} (body : M A) (handler : Error -> M A) : M A :=
  fun w => match body w with
           | (Throw e, w') => handler e w'
           | r => r
           end.
Definition lift {A} (c : Completion A) : M A := fun w => (c, w).

Fixpoint forEach {A} (l : list A) (f : A -> M unit) : M unit :=
  match l with
  | [] => ret tt
  | x :: l' => bind (f x) (fun _ => forEach l' f)
  end.

Definition console_write (s : Stream) (msg : string) (a : option (LogArg Obj)) : M unit :=
  fun w => (Normal tt,
            {| fs := fs w; fault := fault w; torn := torn w;
     proc := proc w;
               console := console w ++ [ {| stream := s; text := msg; arg := a |} ];
               outbox := outbox w |}).
Definition console_log := console_write Stdout.
Definition console_error := console_write Stderr.

Definition set_fs (f : FileSystem) (w : World Obj) : World Obj :=
  {| fs := f; fault := fault w; torn := torn w;
     proc := proc w;
     console := console w; outbox := outbox w |}.

Definition ENOENT (path : string) : Error :=
  {| name := "Error"; message := "ENOENT: no such file or directory, open '" ++ path ++ "'" |}.

Definition existsSync (path : string) : M bool :=
  fun w => (Normal (bool_decide (is_Some (files (fs w) !! path))
                    || bool_decide (path ∈ dirs (fs w))), w).

Definition readFileSync (path : string) : M string :=
  fun w => match fault w (OpRead path) with
           | Some e => (Throw e, w)
           | None => match files (fs w) !! path with
                     | Some text => (Normal text, w)
                     | None => (Throw (ENOENT path), w)
                     end
           end.

(** [fs.mkdirSync(path, { recursive: true })]; of the directories it
    creates only [path] itself is looked at afterwards. *)
Definition mkdirSync (path : string) : M unit :=
  fun w => match fault w (OpMkdir path) with
           | Some e => (Throw e, w)
           | None => (Normal tt,
                      set_fs {| files := files (fs w);
                                dirs := {[ path ]} ∪ dirs (fs w) |} w)
           end.

(** [fs.writeFileSync(path, data)] opens the file, which empties it,
    then writes. Without its directory the file cannot be opened. A
    write that fails once the file is open leaves in it the bytes that
    were written before the failure. *)
Definition writeFileSync (path : string) (data : string) : M unit :=
  fun w =>
    let write (text : string) :=
      set_fs {| files := <[ path := text ]> (files (fs w));
                dirs := dirs (fs w) |} w in
    if bool_decide (path_dirname path ∈ dirs (fs w)) then
      match fault w (OpWrite path), torn w path with
      | None, _ => (Normal tt, write data)
      | Some e, None => (Throw e, w)
      | Some e, Some n => (Throw e, write (String.substring 0 n data))
      end
    else
      match fault w (OpWrite path) with
      | Some e => (Throw e, w)
      | None => (Throw (ENOENT path), w)
      end.

(** [exec] collects at most [maxBuffer] bytes from each stream of the
    command; the default is 1024 * 1024. *)
Definition maxBuffer : N := 1048576.
Definition exceeds_maxBuffer (text : string) : bool :=
  (maxBuffer <? N.of_nat (String.length text))%N.

Definition maxBuffer_exceeded (stream : string) : Error :=
  {| name := "RangeError"; message := stream ++ " maxBuffer length exceeded" |}.

(** [exec(command, callback)]: the callback gets an error when a stream
    of the command went over [maxBuffer], whatever the exit status, and
    when the exit status is not 0; the message of the latter ends with
    what the command wrote to its error stream. When both streams go
    over the bound, the error names the one that did first; the model
    names the output stream. *)
Definition exec_error (command : string) (r : ProcResult) : option Error :=
  if exceeds_maxBuffer (stdout r) then Some (maxBuffer_exceeded "stdout")
  else if exceeds_maxBuffer (stderr r) then Some (maxBuffer_exceeded "stderr")
  else if status r =? 0 then None
  else Some {| name := "Error";
               message := "Command failed: " ++ command ++ newline ++ stderr r |}.

(** [https.request(options, callback)] followed by [req.write(payload)]
    and [req.end()]: the request is handed to the network; its outcome
    reaches the callbacks later. *)
Definition https_request (r : HttpRequest) : M unit :=
  fun w => (Normal tt,
            {| fs := fs w; fault := fault w; torn := torn w;
     proc := proc w;
               console := console w; outbox := outbox w ++ [r] |}).

End Effects.
Arguments M Obj A : clear implicits.

Declare Scope js_scope.
Delimit Scope js_scope with js.
Notation "'do' x <~ m ;; k" := (bind m (fun x => k))
  (at level 10, x name, m at level 99, k at level 200) : js_scope.
Notation "'run' m ;; k" := (bind m (fun _ => k))
  (at level 10, m at level 99, k at level 200) : js_scope.

End Node.

(** ** src/network-monitor.js *)

Module NetworkMonitor.
Import JS Node.

(** *** Data *)

Record Config := mkConfig {
  checkInterval : Z;
  alertWebhook : option string;
  logFile : string;
  stateFile : string;
  threatsFile : string
}.

(** [process.env.DISCORD_WEBHOOK_URL || null]: an unset or empty
    variable leaves no webhook. *)
Definition webhook_of_env (v : option string) : option string :=
  match v with
  | Some EmptyString => None
  | _ => v
  end.

(** The [CONFIG] constant, for the directory [dirname] the module is
    installed in and the environment variable as [env_webhook]. *)
Definition CONFIG_of (dirname : string) (env_webhook : option string) : Config :=
  let up := path_dirname dirname in
  {| checkInterval := 60000%Z;
     alertWebhook := webhook_of_env env_webhook;
     logFile := up ++ "/logs/network-monitor.log";
     stateFile := up ++ "/data/network-state.json";
     threatsFile := up ++ "/data/threats.json" |}.

(** One parsed line of [ss -tunapl]. Columns missing from the line are
    [undefined]. *)
Record Connection := mkConnection {
  c_protocol : string;
  c_state : option string;
  recv_q : option string;
  send_q : option string;
  local : option string;
  peer : option string;
  process : string
}.

Record ListeningPort := mkPort {
  protocol : string;
  port : string;
  address : string
}.

Record Stats := mkStats {
  totalConnections : nat;
  establishedConnections : nat;
  listeningPorts : nat
}.

Record Snapshot := mkSnapshot {
  s_timestamp : string;
  connections : list Connection;
  ports : list ListeningPort;
  stats : Stats
}.

Record SpikeDetails := mkSpike {
  previous : nat;
  current : nat;
  increase : string
}.

(** The [details] field holds a different value for each event type. *)
Inductive Details :=
| NewPorts (newPorts : list ListeningPort)
| Spike (d : SpikeDetails)
| SuspiciousConns (conns : list Connection).

Record AnomalyEvent := mkEvent {
  type : string;
  severity : string;
  details : Details;
  timestamp : string
}.

(** *** detectAnomalies *)

Definition suspiciousPorts : list float64 :=
  List.map of_Z [4444; 5555; 6666; 8888; 31337; 12345]%Z.

(** [s.split(':').pop()]: [split] never returns an empty array, so this
    is its last element. *)
Definition last_segment (s : string) : string := List.last (split ":" s) "".

(** [conn.peer ? parseInt(conn.peer.split(':').pop()) : 0] *)
Definition peerPort (conn : Connection) : float64 :=
  match peer conn with
  | None => of_Z 0
  | Some EmptyString => of_Z 0
  | Some p => parseInt (last_segment p)
  end.

(** [`${Math.round((connCount / prevConnCount - 1) * 100)}%`] *)
Definition increase_of (connCount prevConnCount : nat) : string :=
  Number_toString
    (Math_round (mul (sub (div (of_nat connCount) (of_nat prevConnCount))
                          (of_Z 1))
                     (of_Z 100))) ++ "%".

(** [clock k] is what the [k]-th evaluation of
    [new Date().toISOString()] during the call returns; each event pushed
    reads the clock once. *)
Definition detectAnomalies (clock : nat -> string)
    (currentState : Snapshot) (previousState : option Snapshot)
  : list AnomalyEvent :=
  match previousState with
  | None => []
  | Some previousState =>
      let anomalies : list AnomalyEvent := [] in
      (* new listening ports *)
      let prevPorts : gset string :=
        list_to_set (List.map port (ports previousState)) in
      let newPorts :=
        List.filter (fun p => negb (bool_decide (port p ∈ prevPorts)))
                    (ports currentState) in
      let anomalies :=
        if 0 <? length newPorts then
          anomalies ++ [ {| type := "new_listening_port";
                            severity := "medium";
                            details := NewPorts newPorts;
                            timestamp := clock (length anomalies) |} ]
        else anomalies in
      (* unusual connection count *)
      let connCount := length (connections currentState) in
      let prevConnCount := length (connections previousState) in
      let threshold := prevConnCount * 2 in
      let anomalies :=
        if (threshold <? connCount) && (50 <? connCount) then
          anomalies ++ [ {| type := "connection_spike";
                            severity := "high";
                            details := Spike {| previous := prevConnCount;
                                                current := connCount;
                                                increase := increase_of connCount prevConnCount |};
                            timestamp := clock (length anomalies) |} ]
        else anomalies in
      (* connections to uncommon ports *)
      let suspiciousConns :=
        List.filter (fun conn => includes suspiciousPorts (peerPort conn))
                    (connections currentState) in
      let anomalies :=
        if 0 <? length suspiciousConns then
          anomalies ++ [ {| type := "suspicious_port";
                            severity := "critical";
                            details := SuspiciousConns suspiciousConns;
                            timestamp := clock (length anomalies) |} ]
        else anomalies in
      anomalies
  end.

(** *** Snapshot collection *)

(** The monitor logs anomaly events. *)
Abbreviation M := (Node.M AnomalyEvent).
Local Open Scope js_scope.

(** The callback of [getNetworkConnections], on one output line. *)
Definition parseConnection (line : string) : Connection :=
  let parts := split_ws line in
  {| c_protocol := List.nth 0 parts "";
     c_state := at_index parts 1;
     recv_q := at_index parts 2;
     send_q := at_index parts 3;
     local := at_index parts 4;
     peer := at_index parts 5;
     process := match at_index parts 6 with
                | None | Some EmptyString => "unknown"
                | Some p => p
                end |}.

Definition getNetworkConnections : M (list Connection) :=
  fun w =>
    let r := proc w "ss -tunapl" in
    match exec_error "ss -tunapl" r with
    | Some error => (Throw error, w)
    | None =>
        let lines := List.tl (split (ascii_of_nat 10) (stdout r)) in
        (Normal (List.map parseConnection (List.filter trim_truthy lines)), w)
    end.

(** The callback of [getListeningPorts], on one output line. *)
Definition parsePort (line : string) : ListeningPort :=
  let parts := split_ws line in
  let localAddr := match at_index parts 4 with
                   | None => ""
                   | Some a => a
                   end in
  let port := last_segment localAddr in
  {| protocol := List.nth 0 parts "";
     port := port;
     address := localAddr |}.

(** The shell runs [ss -tuln | grep LISTEN]: the pipeline prints what
    [grep] prints and returns what [grep] returns, and its error stream
    is the one of [ss]. [ss] is what [ss -tuln] leaves behind; its
    output goes to the pipe. *)
Definition ss_tuln_grep_LISTEN (ss : ProcResult) : ProcResult :=
  let r := grep "LISTEN" (stdout ss) in
  {| status := status r; stdout := stdout r; stderr := stderr ss |}.

Definition getListeningPorts_on (ss : ProcResult)
  : Completion (list ListeningPort) :=
  let r := ss_tuln_grep_LISTEN ss in
  match exec_error "ss -tuln | grep LISTEN" r with
  | Some error => Throw error
  | None =>
      let lines := split (ascii_of_nat 10) (stdout r) in
      Normal (List.map parsePort (List.filter trim_truthy lines))
  end.

Definition getListeningPorts : M (list ListeningPort) :=
  fun w => (getListeningPorts_on (proc w "ss -tuln"), w).

(** *** Alerts, state store and the monitoring loop *)

Record WebhookPayload := mkPayload { content : string; username : string }.

(** Library functions of the runtime that the module calls and whose
    results it only passes on. *)
Record Runtime := mkRuntime {
  (** [JSON.parse] on the text of the state file, which only
      [saveState] writes: a snapshot, [null] ([None]), or a SyntaxError *)
  JSON_parse_state : string -> Completion (option Snapshot);
  (** [JSON.stringify(state, null, 2)] *)
  JSON_stringify_state : Snapshot -> string;
  (** [JSON.stringify(alert.details, null, 2)] *)
  JSON_stringify_details : Details -> string;
  (** [JSON.stringify] of the webhook message *)
  JSON_stringify_payload : WebhookPayload -> string;
  (** the URL parser on an input that starts with a scheme; [None] is
      a parse failure *)
  URL_parse : string -> option URL
}.

Definition invalid_URL : Error :=
  {| name := "TypeError"; message := "Invalid URL" |}.

Section Monitor.
Variable rt : Runtime.
Variable CONFIG : Config.

(** [new URL(input)] *)
Definition new_URL (input : string) : M URL :=
  match after_scheme input with
  | None => throw invalid_URL
  | Some _ =>
      match URL_parse rt input with
      | None => throw invalid_URL
      | Some url => ret url
      end
  end.

Definition sendAlert_onResponse (statusCode : nat) : M unit :=
  if negb (statusCode =? 204) then
    console_error "Failed to send alert:" (Some (ArgStatus statusCode))
  else ret tt.

Definition sendAlert_onError (err : Error) : M unit :=
  console_error "Error sending alert:" (Some (ArgError err)).

Definition sendAlert (alert : AnomalyEvent) : M unit :=
  match alertWebhook CONFIG with
  | None =>
      console_log "Alert (no webhook configured):" (Some (ArgObject alert))
  | Some webhook =>
      let payload := JSON_stringify_payload rt
        {| content := ("🚨 **Security Alert**" ++ newline
                       ++ "**Type:** " ++ type alert ++ newline
                       ++ "**Severity:** " ++ severity alert ++ newline
                       ++ "**Details:** ```json" ++ newline
                       ++ JSON_stringify_details rt (details alert) ++ newline
                       ++ "```")%string;
           username := "Home SOC Bot" |} in
      do url <~ new_URL webhook ;;
      let options :=
        {| req_hostname := hostname url;
           req_path := (pathname url ++ search url)%string;
           req_method := "POST";
           req_headers :=
             [ ("Content-Type", "application/json");
               ("Content-Length",
                string_of_Z (Z.of_nat (length_utf16 payload))) ];
           req_body := payload |} in
      https_request options
  end.

Definition loadState : M (option Snapshot) :=
  try_catch
    (do found <~ existsSync (stateFile CONFIG) ;;
     if found then
       do text <~ readFileSync (stateFile CONFIG) ;;
       lift (JSON_parse_state rt text)
     else ret None)
    (fun err =>
       run console_error "Error loading state:" (Some (ArgError err)) ;;
       ret None).

Definition saveState (state : Snapshot) : M unit :=
  try_catch
    (let dir := path_dirname (stateFile CONFIG) in
     do found <~ existsSync dir ;;
     run (if found then ret tt else mkdirSync dir) ;;
     writeFileSync (stateFile CONFIG) (JSON_stringify_state rt state))
    (fun err =>
       console_error "Error saving state:" (Some (ArgError err))).

Definition show_nat (n : nat) : string := string_of_Z (Z.of_nat n).

(** One turn of the loop of [monitor], without the two waits.
    [timestamp] is the clock reading that opens the turn and [clock]
    the readings made by [detectAnomalies]. *)
Definition monitor_turn (timestamp : string) (clock : nat -> string) : M unit :=
  try_catch
    (run console_log ("[" ++ timestamp ++ "] Running network scan...") None ;;
     do connections <~ getNetworkConnections ;;
     do ports <~ getListeningPorts ;;
     let currentState :=
       {| s_timestamp := timestamp;
          connections := connections;
          ports := ports;
          stats :=
            {| totalConnections := length connections;
               establishedConnections :=
                 length (List.filter
                           (fun c => match c_state c with
                                     | Some st => String.eqb st "ESTAB"
                                     | None => false
                                     end) connections);
               listeningPorts := length ports |} |} in
     run console_log ("Connections: "
                  ++ show_nat (totalConnections (stats currentState))
                  ++ " ("
                  ++ show_nat (establishedConnections (stats currentState))
                  ++ " established)") None ;;
     run console_log ("Listening Ports: "
                  ++ show_nat (listeningPorts (stats currentState))) None ;;
     do previousState <~ loadState ;;
     let anomalies := detectAnomalies clock currentState previousState in
     run (if 0 <? length anomalies then
        run console_log ("Detected " ++ show_nat (length anomalies)
                     ++ " anomalies:") None ;;
        forEach anomalies (fun anomaly =>
          run console_log ("   - [" ++ toUpperCase (severity anomaly) ++ "] "
                       ++ type anomaly) None ;;
          sendAlert anomaly)
      else console_log "No anomalies detected" None) ;;
     saveState currentState)
    (fun error =>
       console_error "Error in monitoring loop:" (Some (ArgError error))).

End Monitor.

(** *** checkIPReputation *)

Definition in_range (lo hi : nat) (c : ascii) : bool :=
  let n := nat_of_ascii c in (lo <=? n) && (n <=? hi).

(** [/^172\.(1[6-9]|2[0-9]|3[01])\./] *)
Definition re_172 (ip : string) : bool :=
  match ip with
  | String "1" (String "7" (String "2" (String "."
      (String a (String b (String "." _)))))) =>
      (Ascii.eqb a "1" && in_range 54 57 b)
      || (Ascii.eqb a "2" && in_range 48 57 b)
      || (Ascii.eqb a "3" && in_range 48 49 b)
  | _ => false
  end.

(** The patterns of [privateRanges], as [range.test] applies them:
    [/^10\./], the pattern above, [/^192\.168\./], [/^127\./] and
    [/^localhost$/]. *)
Definition privateRanges : list (string -> bool) :=
  [ String.prefix "10.";
    re_172;
    String.prefix "192.168.";
    String.prefix "127.";
    String.eqb "localhost" ].

Record IPReputation := mkReputation {
  ip : string;
  isPrivate : bool;
  reputation : string;
  checked : string
}.

(** [now] is the clock reading the call makes. *)
Definition checkIPReputation (now : string) (ip : string) : IPReputation :=
  let isPrivate := existsb (fun range => range ip) privateRanges in
  {| ip := ip;
     isPrivate := isPrivate;
     reputation := if isPrivate then "internal" else "unknown";
     checked := now |}.

End NetworkMonitor.

(** ** src/threat-aggregator.js *)

Module ThreatAggregator.
Import JS Node.
Local Open Scope js_scope.

(** *** Values decoded from the feeds *)

#[local] Set Warnings "-register-all".
Inductive JSValue :=
| JUndefined
| JNull
| JBool (b : bool)
| JNum (x : float64)
| JStr (s : string)
| JArr (elems : list JSValue)
| JObj (props : list (string * JSValue)).

Definition nullish (v : JSValue) : bool :=
  match v with
  | JUndefined | JNull => true
  | _ => false
  end.

Definition truthy (v : JSValue) : bool :=
  match v with
  | JUndefined | JNull => false
  | JBool b => b
  | JNum x => match x with
              | S754_zero _ | S754_nan => false
              | _ => true
              end
  | JStr s => negb (String.eqb s "")
  | JArr _ | JObj _ => true
  end.

Fixpoint assoc (key : string) (props : list (string * JSValue)) : option JSValue :=
  match props with
  | [] => None
  | (k, v) :: rest => if String.eqb k key then Some v else assoc key rest
  end.

(** [v.key] on a value that is neither [null] nor [undefined], for the
    keys read from the feeds, none of which a prototype defines: the
    object's own property, [undefined] otherwise. *)
Definition prop (v : JSValue) (key : string) : JSValue :=
  match v with
  | JObj props => match assoc key props with
                  | Some x => x
                  | None => JUndefined
                  end
  | _ => JUndefined
  end.

(** [a || b] *)
Definition or_else (a b : JSValue) : JSValue := if truthy a then a else b.

Definition show_nullish (v : JSValue) : string :=
  match v with
  | JNull => "null"
  | _ => "undefined"
  end.

(** The TypeError of a property read on [null] or [undefined]. *)
Definition cannot_read (v : JSValue) (key : string) : Error :=
  {| name := "TypeError";
     message := "Cannot read properties of " ++ show_nullish v
                ++ " (reading '" ++ key ++ "')" |}.

(** The TypeError of a call of something that is not a function. *)
Definition not_a_function (what : string) : Error :=
  {| name := "TypeError"; message := what ++ " is not a function" |}.

(** *** Normalized items and per-source results *)

(** [{ type, severity, ...source-specific fields }]; [fields] lists the
    other properties in the order the object literal gives them. *)
Record ThreatItem := mkItem {
  type : string;
  fields : list (string * JSValue);
  severity : string
}.

(** What a fetcher returns. A property the object literal does not
    mention is [None]. *)
Record SourceResult := mkResult {
  source : option string;
  timestamp : option string;
  count : option nat;
  items : option (list ThreatItem);
  error : option string
}.

(** The object a fetcher's [catch] returns. *)
Definition failed (src : string) (error : Error) : SourceResult :=
  {| source := Some src; timestamp := None; count := None;
     items := Some []; error := Some (message error) |}.

(** [arr.slice(0, 10).map(f)] for an [arr] that is not nullish: arrays
    have both methods, a string has [slice] only, anything else decoded
    from JSON has neither. [f] throws on an element it cannot read. *)
Fixpoint map_items (f : JSValue -> Completion ThreatItem) (l : list JSValue)
  : Completion (list ThreatItem) :=
  match l with
  | [] => Normal []
  | v :: l' =>
      match f v with
      | Throw e => Throw e
      | Normal i =>
          match map_items f l' with
          | Throw e => Throw e
          | Normal is' => Normal (i :: is')
          end
      end
  end.

Definition slice10_map (what : string) (arr : JSValue)
    (f : JSValue -> Completion ThreatItem) : Completion (list ThreatItem) :=
  match arr with
  | JArr l => map_items f (List.firstn 10 l)
  | JStr _ => Throw (not_a_function (what ++ ".slice(...).map"))
  | _ => Throw (not_a_function (what ++ ".slice"))
  end.

(** [arr.length] where the result is only used when [arr] is an
    array: every other value makes [slice10_map] throw. *)
Definition length_of (arr : JSValue) : nat :=
  match arr with
  | JArr l => length l
  | _ => 0
  end.

(** *** HTTP *)

Record Source := mkSource {
  s_name : string;
  s_url : string;
  s_method : string;
  s_rateLimit : string
}.

Definition SOURCES_ransomware : Source :=
  {| s_name := "Ransomware.live";
     s_url := "https://api.ransomware.live/v2/recentvictims";
     s_method := "GET"; s_rateLimit := "unlimited" |}.
Definition SOURCES_urlhaus : Source :=
  {| s_name := "URLhaus";
     s_url := "https://urlhaus-api.abuse.ch/v1/urls/recent/";
     s_method := "POST"; s_rateLimit := "fair use" |}.
Definition SOURCES_threatfox : Source :=
  {| s_name := "ThreatFox";
     s_url := "https://threatfox-api.abuse.ch/api/v1/";
     s_method := "POST"; s_rateLimit := "fair use" |}.

Record RequestOptions := mkOptions {
  o_method : option string;
  o_headers : list (string * string);
  o_body : option string
}.

(** A request as it leaves [httpRequest]. *)
Record HttpCall := mkCall {
  call_url : string;
  call_method : string;
  call_headers : list (string * string);
  call_body : option string
}.

(** What the network answers: an [error] event on the request, or a
    response whose chunks make up [data]. *)
Inductive NetOutcome :=
| NetError (e : Error)
| NetResponse (statusCode : nat) (data : string).

Record Response := mkResponse {
  r_statusCode : nat;
  r_body : string;
  json : JSValue
}.

(** *** Summary *)

Record SourceStatus := mkStatus {
  name : option string;
  status : string;
  st_count : nat
}.

Record AggregateSummary := mkSummary {
  sum_timestamp : string;
  sources : list SourceStatus;
  totalThreats : nat;
  highSeverity : nat
}.

Record Output := mkOutput {
  summary : AggregateSummary;
  threats : list SourceResult
}.

(** An entry of the array [Promise.allSettled] resolves to. *)
Inductive Settled :=
| fulfilled (value : SourceResult)
| rejected (reason : Error).

(** [r.status === 'fulfilled' ? r.value : { error: r.reason.message }] *)
Definition threat_of (r : Settled) : SourceResult :=
  match r with
  | fulfilled value => value
  | rejected reason =>
      {| source := None; timestamp := None; count := None; items := None;
         error := Some (message reason) |}
  end.

(** [t.error ? 'error' : 'ok'] *)
Definition status_of (t : SourceResult) : string :=
  match error t with
  | None | Some EmptyString => "ok"
  | Some _ => "error"
  end.

(** The "Calculate summary" block of [aggregateThreats]; [now] is the
    clock reading it makes. *)
Definition summarize (now : string) (threats : list SourceResult)
  : AggregateSummary :=
  {| sum_timestamp := now;
     sources :=
       List.map (fun t => {| name := source t;
                             status := status_of t;
                             st_count := match count t with
                                         | Some n => n
                                         | None => 0
                                         end |}) threats;
     totalThreats :=
       List.fold_left
         (fun sum t => sum + match items t with
                             | Some l => length l
                             | None => 0
                             end) threats 0;
     highSeverity :=
       List.fold_left
         (fun sum t =>
            sum + match items t with
                  | Some l =>
                      length (List.filter
                                (fun i => String.eqb (severity i) "high") l)
                  | None => 0
                  end) threats 0 |}.

(** *** Fetchers and aggregation *)

(** Library functions of the runtime and the network the fetchers
    talk to. *)
Record Runtime := mkRuntime {
  (** [JSON.parse]; a SyntaxError is thrown on malformed text *)
  JSON_parse : string -> Completion JSValue;
  (** [ToNumber] on strings, arrays and objects *)
  ToNumber_other : JSValue -> float64;
  (** [JSON.stringify(output, null, 2)] *)
  JSON_stringify_output : Output -> string;
  (** the answer to each request *)
  net : HttpCall -> NetOutcome
}.

Definition quote : string := String (ascii_of_nat 34) "".

Section Aggregator.
Variable rt : Runtime.
Variable DATA_DIR : string.

Definition CACHE_FILE : string := DATA_DIR ++ "/threat-cache.json".

Definition httpRequest (url : string) (options : RequestOptions)
  : Completion Response :=
  let call :=
    {| call_url := url;
       call_method := match o_method options with
                      | None | Some EmptyString => "GET"
                      | Some m => m
                      end;
       call_headers := o_headers options;
       call_body := match o_body options with
                    | Some EmptyString => None
                    | b => b
                    end |} in
  match net rt call with
  | NetError e => Throw e
  | NetResponse statusCode data =>
      match data with
      | EmptyString =>
          Normal {| r_statusCode := statusCode; r_body := data; json := JNull |}
      | _ =>
          match JSON_parse rt data with
          | Normal v =>
              Normal {| r_statusCode := statusCode; r_body := data; json := v |}
          | Throw err =>
              Throw {| JS.name := "Error";
                       message := "Failed to parse JSON: " ++ message err |}
          end
      end
  end.

(** The [map] callback of [fetchRansomwareVictims]. *)
Definition victim_item (v : JSValue) : Completion ThreatItem :=
  if nullish v then Throw (cannot_read v "post_title")
  else Normal {| type := "victim";
                 fields := [ ("name", or_else (prop v "post_title") (JStr "Unknown"));
                             ("group", prop v "group_name");
                             ("date", prop v "discovered");
                             ("country", prop v "country");
                             ("url", prop v "post_url") ];
                 severity := "high" |}.

Definition fetchRansomwareVictims (now : string) : SourceResult :=
  let attempt :=
    and_then (httpRequest (s_url SOURCES_ransomware)
                {| o_method := None; o_headers := []; o_body := None |})
      (fun response =>
         let victims := json response in
         if nullish victims then Throw (cannot_read victims "length")
         else
           and_then (slice10_map "victims" victims victim_item)
             (fun items =>
                Normal {| source := Some "Ransomware.live";
                          timestamp := Some now;
                          count := Some (length_of victims);
                          items := Some items;
                          error := None |})) in
  match attempt with
  | Normal result => result
  | Throw error => failed "Ransomware.live" error
  end.

(** The [map] callback of [fetchMaliciousURLs]. *)
Definition url_item (u : JSValue) : Completion ThreatItem :=
  if nullish u then Throw (cannot_read u "url")
  else Normal {| type := "url";
                 fields := [ ("url", prop u "url");
                             ("threat", prop u "threat");
                             ("tags", prop u "tags");
                             ("date", prop u "dateadded");
                             ("status", prop u "url_status") ];
                 severity := "medium" |}.

Definition fetchMaliciousURLs (now : string) : SourceResult :=
  let attempt :=
    and_then (httpRequest (s_url SOURCES_urlhaus)
                {| o_method := Some "POST";
                   o_headers := [ ("Content-Type",
                                   "application/x-www-form-urlencoded") ];
                   o_body := None |})
      (fun response =>
         let data := json response in
         if nullish data then Throw (cannot_read data "urls")
         else
           let urls := or_else (prop data "urls") (JArr []) in
           and_then (slice10_map "urls" urls url_item)
             (fun items =>
                Normal {| source := Some "URLhaus";
                          timestamp := Some now;
                          count := Some (length_of urls);
                          items := Some items;
                          error := None |})) in
  match attempt with
  | Normal result => result
  | Throw error => failed "URLhaus" error
  end.

(** [ToNumber], as the comparison [>=] applies it to its left side. *)
Definition ToNumber (v : JSValue) : float64 :=
  match v with
  | JUndefined => NaN
  | JNull => of_Z 0
  | JBool b => if b then of_Z 1 else of_Z 0
  | JNum x => x
  | _ => ToNumber_other rt v
  end.

(** The [map] callback of [fetchIOCs]. *)
Definition ioc_item (i : JSValue) : Completion ThreatItem :=
  if nullish i then Throw (cannot_read i "ioc_type")
  else Normal {| type := "ioc";
                 fields := [ ("ioc_type", prop i "ioc_type");
                             ("value", prop i "ioc");
                             ("threat", prop i "threat_type");
                             ("malware", prop i "malware");
                             ("confidence", prop i "confidence_level");
                             ("date", prop i "first_seen") ];
                 severity := if ge (ToNumber (prop i "confidence_level")) (of_Z 75)
                             then "high" else "medium" |}.

(** [JSON.stringify({ query: 'get_iocs', days: 1 })] *)
Definition threatfox_body : string :=
  "{" ++ quote ++ "query" ++ quote ++ ":" ++ quote ++ "get_iocs" ++ quote
  ++ "," ++ quote ++ "days" ++ quote ++ ":1}".

Definition fetchIOCs (now : string) : SourceResult :=
  let attempt :=
    and_then (httpRequest (s_url SOURCES_threatfox)
                {| o_method := Some "POST";
                   o_headers := [ ("Content-Type", "application/json") ];
                   o_body := Some threatfox_body |})
      (fun response =>
         let data := json response in
         if nullish data then Throw (cannot_read data "data")
         else
           let iocs := or_else (prop data "data") (JArr []) in
           and_then (slice10_map "iocs" iocs ioc_item)
             (fun items =>
                Normal {| source := Some "ThreatFox";
                          timestamp := Some now;
                          count := Some (length_of iocs);
                          items := Some items;
                          error := None |})) in
  match attempt with
  | Normal result => result
  | Throw error => failed "ThreatFox" error
  end.

(** What [aggregateThreats] computes before it writes the cache.
    [clock 0], [clock 1] and [clock 2] are the clock readings of the
    three fetchers and [clock 3] that of the summary. The fetchers
    catch every exception, so all three promises are fulfilled. *)
Definition aggregate_output (clock : nat -> string) : Output :=
  let results :=
    [ fulfilled (fetchRansomwareVictims (clock 0));
      fulfilled (fetchMaliciousURLs (clock 1));
      fulfilled (fetchIOCs (clock 2)) ] in
  let threats := List.map threat_of results in
  {| summary := summarize (clock 3) threats; threats := threats |}.

(** [aggregateThreats]; the lines it prints are not modelled. *)
Definition aggregateThreats (clock : nat -> string) : Node.M unit Output :=
  let output := aggregate_output clock in
  do found <~ existsSync DATA_DIR ;;
  run (if found then ret tt else mkdirSync DATA_DIR) ;;
  run writeFileSync CACHE_FILE (JSON_stringify_output rt output) ;;
  ret output.

End Aggregator.

End ThreatAggregator.

(** ** Vocabulary of the statements, and sample data *)

Module Props.
Import JS Node NetworkMonitor.

(** The events of one type in a result of [detectAnomalies]. *)
Definition events_of_type (ty : string) (evs : list AnomalyEvent)
  : list AnomalyEvent :=
  List.filter (fun e => String.eqb (type e) ty) evs.

(** The rule of type [ty] fired: the result holds an event of that type. *)
Definition fires (ty : string) (evs : list AnomalyEvent) : Prop :=
  exists e, In e evs /\ type e = ty.

(** The listening ports of [cur] whose port number no listening port of
    [prev] has. *)
Definition newly_seen (cur prev : Snapshot) (q : ListeningPort) : Prop :=
  In q (ports cur) /\ ~ In (port q) (List.map port (ports prev)).

(** The connections an event of type [suspicious_port] lists. *)
Definition listed_conns (e : AnomalyEvent) : list Connection :=
  match details e with
  | SuspiciousConns conns => conns
  | _ => []
  end.

(** The ports an event of type [new_listening_port] carries. *)
Definition listed_ports (e : AnomalyEvent) : list ListeningPort :=
  match details e with
  | NewPorts l => l
  | _ => []
  end.

Definition isDigit (c : ascii) : bool :=
  let n := nat_of_ascii c in (48 <=? n) && (n <=? 57).

Fixpoint all_digits (s : string) : bool :=
  match s with
  | EmptyString => true
  | String c s' => isDigit c && all_digits s'
  end.

(** The characters of [s] all satisfy [p]. *)
Definition all_chars (p : ascii -> bool) (s : string) : Prop :=
  List.Forall (fun c => p c = true) (list_ascii_of_string s).

(** A numeric segment: one or more decimal digits and nothing else. *)
Definition is_numeric (s : string) : bool :=
  match s with
  | EmptyString => false
  | _ => all_digits s
  end.

(** A run of blanks: white-space and line-terminator characters, one
    after the other. *)
Inductive blank_run : string -> Prop :=
| blank_run_nil : blank_run ""
| blank_run_cons b s : In b blanks -> blank_run s -> blank_run (b ++ s).

(** An optional sign. *)
Definition signs : list string := [""; "+"; "-"].

(** The segment starts, after blanks and an optional sign, with a
    decimal digit. *)
Definition has_leading_integer (seg : string) : Prop :=
  exists ws sign c rest,
    seg = (ws ++ sign ++ String c rest)%string
    /\ blank_run ws /\ In sign signs /\ isDigit c = true.

Definition isHexDigit (c : ascii) : bool :=
  let n := nat_of_ascii c in
  isDigit c || ((97 <=? n) && (n <=? 102)) || ((65 <=? n) && (n <=? 70)).

Fixpoint all_hex_digits (s : string) : bool :=
  match s with
  | EmptyString => true
  | String c s' => isHexDigit c && all_hex_digits s'
  end.

(** The letter that, after a zero, announces hexadecimal digits. *)
Definition is_x (c : ascii) : bool := Ascii.eqb c "x" || Ascii.eqb c "X".

(** [s] is not empty and [p] accepts its first character. *)
Definition starts_with (p : ascii -> bool) (s : string) : bool :=
  match s with
  | String c _ => p c
  | EmptyString => false
  end.

(** The number a digit stands for, letters counting from ten. *)
Definition digit_number (c : ascii) : Z :=
  let n := Z.of_nat (nat_of_ascii c) in
  if (n <=? 57)%Z then (n - 48)%Z
  else if (n <=? 70)%Z then (n - 55)%Z
  else (n - 87)%Z.

(** The number that the digits [s] denote in base [base], after the
    digits that gave [acc]. *)
Fixpoint number_from (base : Z) (s : string) (acc : Z) : Z :=
  match s with
  | EmptyString => acc
  | String c s' => number_from base s' (base * acc + digit_number c)%Z
  end.
Definition decimal (s : string) : Z := number_from 10 s 0.
Definition hexadecimal (s : string) : Z := number_from 16 s 0.

(** The six port numbers of the rule. *)
Definition suspicious_numbers : list Z :=
  [4444; 5555; 6666; 8888; 31337; 12345]%Z.

(** An event of type [suspicious_port] among [evs] lists [conn]. *)
Definition listed_in (evs : list AnomalyEvent) (conn : Connection) : Prop :=
  exists e, In e evs /\ type e = "suspicious_port" /\ In conn (listed_conns e).

(** Sample data. *)
Definition conn_to (p : option string) : Connection :=
  {| c_protocol := "tcp"; c_state := Some "ESTAB";
     recv_q := Some "0"; send_q := Some "0";
     local := Some "192.168.1.10:51514"; peer := p;
     process := "unknown" |}.

Definition snapshot_of (conns : list Connection) (ps : list ListeningPort)
  : Snapshot :=
  {| s_timestamp := "2024-01-01T00:00:00.000Z";
     connections := conns; ports := ps;
     stats := {| totalConnections := length conns;
                 establishedConnections := length conns;
                 listeningPorts := length ps |} |}.

Definition quiet (n : nat) : Snapshot :=
  snapshot_of (List.repeat (conn_to (Some "93.184.216.34:443")) n) [].

Definition clock0 : nat -> string := fun _ => "2024-01-01T00:01:00.000Z".

Definition tcp_22 : ListeningPort :=
  {| protocol := "tcp"; port := "22"; address := "0.0.0.0:22" |}.
Definition udp_22 : ListeningPort :=
  {| protocol := "udp"; port := "22"; address := "0.0.0.0:22" |}.
Definition tcp_8080 : ListeningPort :=
  {| protocol := "tcp"; port := "8080"; address := "0.0.0.0:8080" |}.

(** A peer whose final segment is a wildcard, one to a listed port, and
    one whose final segment is a listed port followed by letters. *)
Definition conn_wildcard : Connection := conn_to (Some "0.0.0.0:*").
Definition conn_4444 : Connection := conn_to (Some "10.0.0.5:4444").
Definition conn_4444abc : Connection := conn_to (Some "10.0.0.5:4444abc").
Definition conn_80abc : Connection := conn_to (Some "10.0.0.5:80abc").

Definition no_fault : FsOp -> option Error := fun _ => None.

(** A write that fails leaves the file open and empty. *)
Definition emptied : string -> option nat := fun _ => Some 0.

Definition ENOSPC : Error :=
  {| name := "Error"; message := "ENOSPC: no space left on device, write" |}.

(** The disk is full: every write fails. *)
Definition disk_full : FsOp -> option Error :=
  fun op => match op with
            | OpWrite _ => Some ENOSPC
            | _ => None
            end.

Definition SyntaxError : Error :=
  {| name := "SyntaxError"; message := "Unexpected token" |}.

(** A runtime to evaluate the monitor on: its parser of state files
    accepts the text [null] only, and its URL parser accepts no input. *)
Definition rt0 : Runtime :=
  {| JSON_parse_state :=
       fun text => if String.eqb text "null" then Normal None
                   else Throw SyntaxError;
     JSON_stringify_state := fun _ => "{}";
     JSON_stringify_details := fun _ => "[]";
     JSON_stringify_payload := fun p => content p;
     URL_parse := fun _ => None |}.

Definition install_dir : string := "/opt/home-soc/src".
Definition cfg0 : Config := CONFIG_of install_dir None.

(** The webhook variable is set to a text that is not a URL. *)
Definition cfg_bad : Config := CONFIG_of install_dir (Some "not-a-url").

(** The header [ss] prints above its table. *)
Definition ss_header : string :=
  "Netid State  Recv-Q Send-Q Local Address:Port  Peer Address:Port Process"
  ++ newline.

(** A host with the data directory in place, the state file holding
    [state] when there is one, and no socket: [ss] prints its header
    only. *)
Definition world_of (fault : FsOp -> option Error) (state : option string)
  : World AnomalyEvent :=
  {| fs := {| files := match state with
                       | Some text => {[ stateFile cfg0 := text ]}
                       | None => ∅
                       end;
              dirs := {[ path_dirname (stateFile cfg0) ]} |};
     fault := fault;
     torn := emptied;
     proc := fun _ => {| status := 0; stdout := ss_header; stderr := "" |};
     console := [];
     outbox := [] |}.

End Props.

Module AggProps.
Import JS Node ThreatAggregator.

(** The result [r] holds the length of the upstream list [l] as its
    count and the normalized first ten elements of [l] as its items. *)
Definition truncated (l : list JSValue) (r : SourceResult) : Prop :=
  count r = Some (length l)
  /\ exists its, items r = Some its /\ length its = Nat.min 10 (length l).

(** [t.items?.length || 0] *)
Definition contribution (t : SourceResult) : nat :=
  match items t with
  | Some l => length l
  | None => 0
  end.

(** [t.items?.filter(i => i.severity === 'high').length || 0] *)
Definition high_items (t : SourceResult) : nat :=
  match items t with
  | Some l => length (List.filter (fun i => String.eqb (severity i) "high") l)
  | None => 0
  end.

Definition no_options : RequestOptions :=
  {| o_method := None; o_headers := []; o_body := None |}.
Definition urlhaus_options : RequestOptions :=
  {| o_method := Some "POST";
     o_headers := [ ("Content-Type", "application/x-www-form-urlencoded") ];
     o_body := None |}.
Definition threatfox_options : RequestOptions :=
  {| o_method := Some "POST";
     o_headers := [ ("Content-Type", "application/json") ];
     o_body := Some threatfox_body |}.

(** The error Node.js 20 emits when every address of a host refused
    the connection: an AggregateError whose message is empty. *)
Definition connect_failed : Error :=
  {| JS.name := "AggregateError"; message := "" |}.

Definition ioc_sample : JSValue :=
  JObj [ ("ioc_type", JStr "domain"); ("ioc", JStr "bad.example");
         ("threat_type", JStr "botnet_cc"); ("malware", JStr "win.agent");
         ("confidence_level", JNum (of_Z 80));
         ("first_seen", JStr "2024-01-01 00:00:00 UTC") ].

(** Ransomware.live and URLhaus are unreachable; ThreatFox answers with
    one indicator. *)
Definition rt_two_down : Runtime :=
  {| JSON_parse := fun _ => Normal (JObj [ ("query_status", JStr "ok");
                                           ("data", JArr [ioc_sample]) ]);
     ToNumber_other := fun _ => NaN;
     JSON_stringify_output := fun _ => "{}";
     net := fun call =>
              if String.eqb (call_url call) (s_url SOURCES_threatfox)
              then NetResponse 200 "{...}"
              else NetError connect_failed |}.

Definition victim_sample : JSValue :=
  JObj [ ("post_title", JStr "ACME Corp"); ("group_name", JStr "lockbit3");
         ("discovered", JStr "2024-01-01 00:00:00.000000");
         ("country", JStr "US"); ("post_url", JStr "http://x.onion/acme") ].

(** Ransomware.live answers with eleven victims; the other two feeds
    are unreachable with an ordinary error. *)
Definition rt_eleven : Runtime :=
  {| JSON_parse := fun _ => Normal (JArr (List.repeat victim_sample 11));
     ToNumber_other := fun _ => NaN;
     JSON_stringify_output := fun _ => "{}";
     net := fun call =>
              if String.eqb (call_url call) (s_url SOURCES_ransomware)
              then NetResponse 200 "[...]"
              else NetError {| JS.name := "Error";
                               message := "getaddrinfo ENOTFOUND" |} |}.

End AggProps.

Module ExtraProps.
Import JS Node NetworkMonitor Props.

(** [c] occurs in [s]. *)
Fixpoint has_char (c : ascii) (s : string) : bool :=
  match s with
  | EmptyString => false
  | String c' s' => Ascii.eqb c' c || has_char c s'
  end.

(** [s] holds a blank: a blank starts at one of its bytes. *)
Fixpoint has_ws (s : string) : bool :=
  match s with
  | EmptyString => false
  | String _ s' => negb (blank_width s =? 0) || has_ws s'
  end.

(** A column of a table: not empty, no blank. *)
Definition is_column (c : string) : bool :=
  negb (String.eqb c "") && negb (has_ws c).

(** What separates two columns: one or more blanks. *)
Definition is_separator (b : string) : Prop := blank_run b /\ b <> "".

(** No blank starts in [cur] when [s] follows it. *)
Definition clean (cur s : string) : Prop :=
  forall u v, cur = (u ++ v)%string -> v <> "" -> blank_width (v ++ s) = 0.

(** What follows a column: nothing, or a blank. *)
Definition ends_column (t : string) : Prop :=
  t = "" \/ exists b t', In b blanks /\ t = (b ++ t')%string.

(** A line of a table: a first column, then separators and columns. *)
Fixpoint line_of (c0 : string) (rest : list (string * string)) : string :=
  match rest with
  | [] => c0
  | (b, c) :: rest' => c0 ++ b ++ line_of c rest'
  end.

Definition well_formed_row (c0 : string) (rest : list (string * string)) : Prop :=
  is_column c0 = true
  /\ List.Forall (fun bc => is_separator (fst bc) /\ is_column (snd bc) = true) rest.

(** The command's two streams fit in the buffer of [exec]. *)
Definition fits_maxBuffer (r : ProcResult) : Prop :=
  exceeds_maxBuffer (stdout r) = false /\ exceeds_maxBuffer (stderr r) = false.

(** The world after one more line on the console. *)
Definition with_log (w : World AnomalyEvent) (l : LogLine AnomalyEvent)
  : World AnomalyEvent :=
  {| fs := fs w; fault := fault w; torn := torn w;
     proc := proc w;
     console := console w ++ [l]; outbox := outbox w |}.


(** The snapshot a turn of the monitor builds from what the two
    commands print, when both succeed. *)
Definition current_snapshot (timestamp : string) (w : World AnomalyEvent)
  : option Snapshot :=
  match fst (getNetworkConnections w), fst (getListeningPorts w) with
  | Normal conns, Normal ps =>
      Some {| s_timestamp := timestamp;
              connections := conns;
              ports := ps;
              stats :=
                {| totalConnections := length conns;
                   establishedConnections :=
                     length (List.filter
                               (fun c => match c_state c with
                                         | Some st => String.eqb st "ESTAB"
                                         | None => false
                                         end) conns);
                   listeningPorts := length ps |} |}
  | _, _ => None
  end.

(** A webhook address and the record the URL parser makes of it. *)
Definition hook0 : string :=
  "https://discord.com/api/webhooks/1/token?wait=true".
Definition url0 : URL :=
  {| hostname := "discord.com";
     pathname := "/api/webhooks/1/token";
     search := "?wait=true" |}.

(** A runtime to evaluate the monitor on: a snapshot is serialized as its
    timestamp and read back with no connection and no port, and the URL
    parser knows [hook0]. *)
Definition rt1 : Runtime :=
  {| JSON_parse_state :=
       fun text => Normal (Some {| s_timestamp := text;
                                   connections := []; ports := [];
                                   stats := {| totalConnections := 0;
                                               establishedConnections := 0;
                                               listeningPorts := 0 |} |});
     JSON_stringify_state := s_timestamp;
     JSON_stringify_details := fun _ => "[]";
     JSON_stringify_payload := content;
     URL_parse := fun input => if String.eqb input hook0 then Some url0
                               else None |}.


(** A host on which [ss] lists one listening port and one connection to
    a listed port. *)
Definition ss_busy : string :=
  ss_header
  ++ "tcp   LISTEN 0      128    0.0.0.0:22   0.0.0.0:*" ++ newline
  ++ "tcp   ESTAB  0      0      192.168.1.10:51514   10.0.0.5:4444" ++ newline.

Definition world_busy (state : option string) : World AnomalyEvent :=
  {| fs := fs (world_of no_fault state);
     fault := no_fault;
     torn := emptied;
     proc := fun _ => {| status := 0; stdout := ss_busy; stderr := "" |};
     console := [];
     outbox := [] |}.

(** A host on which every command prints [text] and succeeds. *)
Definition world_printing (text : string) : World AnomalyEvent :=
  {| fs := fs (world_of no_fault None);
     fault := no_fault;
     torn := emptied;
     proc := fun _ => {| status := 0; stdout := text; stderr := "" |};
     console := [];
     outbox := [] |}.

(** A listing with one socket that does not listen and two that do. *)
Definition ss_two_listeners : string :=
  ss_header
  ++ "udp   UNCONN 0      0      127.0.0.53%lo:53   0.0.0.0:*" ++ newline
  ++ "tcp   LISTEN 0      128    0.0.0.0:22   0.0.0.0:*" ++ newline
  ++ "tcp   LISTEN 0      511    [::]:8080   [::]:*" ++ newline.


(** The text of an address that starts with the numbers [a] and [b]:
    [a.b.rest]. *)
Definition dotted (a b : nat) (rest : string) : string :=
  (show_nat a ++ "." ++ show_nat b ++ "." ++ rest)%string.

(** The blocks 10.0.0.0/8, 127.0.0.0/8, 172.16.0.0/12 and
    192.168.0.0/16, on the first two numbers of an address. *)
Definition private_block (a b : nat) : bool :=
  (a =? 10) || (a =? 127)
  || ((a =? 172) && (16 <=? b) && (b <=? 31))
  || ((a =? 192) && (b =? 168)).

End ExtraProps.

Module AggExtraProps.
Import JS Node ThreatAggregator AggProps.

(** The runtime [rt] with every response status [st] replaced by
    [g st]. *)
Definition restatus (g : nat -> nat) (rt : Runtime) : Runtime :=
  {| JSON_parse := JSON_parse rt;
     ToNumber_other := ToNumber_other rt;
     JSON_stringify_output := JSON_stringify_output rt;
     net := fun call => match net rt call with
                        | NetResponse st data => NetResponse (g st) data
                        | NetError e => NetError e
                        end |}.

(** The requests the three fetchers make. *)
Definition call_ransomware : HttpCall :=
  {| call_url := "https://api.ransomware.live/v2/recentvictims";
     call_method := "GET"; call_headers := []; call_body := None |}.
Definition call_urlhaus : HttpCall :=
  {| call_url := "https://urlhaus-api.abuse.ch/v1/urls/recent/";
     call_method := "POST";
     call_headers := [ ("Content-Type", "application/x-www-form-urlencoded") ];
     call_body := None |}.
Definition call_threatfox : HttpCall :=
  {| call_url := "https://threatfox-api.abuse.ch/api/v1/";
     call_method := "POST";
     call_headers := [ ("Content-Type", "application/json") ];
     call_body := Some threatfox_body |}.

(** The world of the aggregator, which logs no object. *)
Definition agg_world (fault : FsOp -> option Error) (dirs : gset string)
  : World unit :=
  {| fs := {| files := ∅; dirs := dirs |};
     fault := fault;
     torn := fun _ => Some 0;
     proc := fun _ => mkProc 0 "" "";
     console := [];
     outbox := [] |}.

Definition data_dir : string := "/opt/home-soc/data".

(** An element of the ThreatFox list with the given confidence. *)
Definition ioc_with (confidence : JSValue) : JSValue :=
  JObj [ ("ioc_type", JStr "domain"); ("ioc", JStr "bad.example");
         ("confidence_level", confidence) ].

(** Ransomware.live answers with a list whose second entry is [null]. *)
Definition rt_null_victim : Runtime :=
  {| JSON_parse := fun _ => Normal (JArr [victim_sample; JNull; victim_sample]);
     ToNumber_other := fun _ => NaN;
     JSON_stringify_output := fun _ => "{}";
     net := fun _ => NetResponse 200 "[...]" |}.

(** Every feed answers with an empty body and status 502. *)
Definition rt_empty_body : Runtime :=
  {| JSON_parse := fun _ => Throw {| JS.name := "SyntaxError";
                                     message := "Unexpected end of JSON input" |};
     ToNumber_other := fun _ => NaN;
     JSON_stringify_output := fun _ => "{}";
     net := fun _ => NetResponse 502 "" |}.

End AggExtraProps.

(** ** Properties of the anomaly detector *)

Section Detector.
Import JS Node NetworkMonitor Props.

Variable clock : nat -> string.
Variables currentState previousState : Snapshot.

Let prevPorts : gset string :=
  list_to_set (List.map port (ports previousState)).
Let newPorts : list ListeningPort :=
  List.filter (fun p => negb (bool_decide (port p ∈ prevPorts)))
              (ports currentState).
Let connCount := length (connections currentState).
Let prevConnCount := length (connections previousState).
Let suspiciousConns : list Connection :=
  List.filter (fun conn => includes suspiciousPorts (peerPort conn))
              (connections currentState).

Let hasNew : bool := 0 <? length newPorts.
Let isSpike : bool := (prevConnCount * 2 <? connCount) && (50 <? connCount).
Let hasSuspicious : bool := 0 <? length suspiciousConns.

(** The result is made of at most one event per rule, in the order of
    the rules; each event carries the clock reading made when it was
    pushed. *)
Lemma detectAnomalies_shape :
  detectAnomalies clock currentState (Some previousState)
  = (if hasNew
     then [ mkEvent "new_listening_port" "medium" (NewPorts newPorts)
              (clock 0) ]
     else [])
    ++ (if isSpike
        then [ mkEvent "connection_spike" "high"
                 (Spike (mkSpike prevConnCount connCount
                           (increase_of connCount prevConnCount)))
                 (clock (Nat.b2n hasNew)) ]
        else [])
    ++ (if hasSuspicious
        then [ mkEvent "suspicious_port" "critical"
                 (SuspiciousConns suspiciousConns)
                 (clock (Nat.b2n hasNew + Nat.b2n isSpike)) ]
        else []).
Proof.
  unfold detectAnomalies.
  fold prevPorts. fold newPorts. fold connCount. fold prevConnCount.
  fold suspiciousConns. fold hasNew. fold isSpike. fold hasSuspicious.
  destruct hasNew, isSpike, hasSuspicious; reflexivity.
Qed.

Lemma newPorts_spec (q : ListeningPort) :
  In q newPorts <-> newly_seen currentState previousState q.
Proof.
  unfold newPorts, newly_seen. rewrite filter_In.
  rewrite negb_true_iff, bool_decide_eq_false.
  unfold prevPorts. rewrite elem_of_list_to_set, list_elem_of_In.
  reflexivity.
Qed.

Lemma In_events_of_type ty evs e :
  In e (events_of_type ty evs) <-> In e evs /\ type e = ty.
Proof.
  unfold events_of_type. rewrite filter_In, String.eqb_eq. reflexivity.
Qed.

Lemma fires_events_of_type ty evs :
  fires ty evs <-> events_of_type ty evs <> [].
Proof.
  unfold fires. split.
  - intros (e & Hin & Hty) Hnil.
    assert (H : In e (events_of_type ty evs)) by (apply In_events_of_type; auto).
    rewrite Hnil in H. destruct H.
  - destruct (events_of_type ty evs) as [|e l] eqn:E; [congruence|].
    intros _. exists e. apply In_events_of_type. rewrite E. now left.
Qed.

Lemma isSpike_spec :
  isSpike = true <-> 2 * prevConnCount < connCount /\ 50 < connCount.
Proof.
  unfold isSpike. rewrite andb_true_iff, !Nat.ltb_lt. lia.
Qed.

(** The events of type [connection_spike] in the result. *)
Lemma spike_events :
  events_of_type "connection_spike"
    (detectAnomalies clock currentState (Some previousState))
  = if isSpike
    then [ mkEvent "connection_spike" "high"
             (Spike (mkSpike prevConnCount connCount
                       (increase_of connCount prevConnCount)))
             (clock (Nat.b2n hasNew)) ]
    else [].
Proof.
  rewrite detectAnomalies_shape. unfold events_of_type.
  rewrite !List.filter_app.
  destruct hasNew, isSpike, hasSuspicious; reflexivity.
Qed.

(** The events of type [new_listening_port] in the result. *)
Lemma new_port_events :
  events_of_type "new_listening_port"
    (detectAnomalies clock currentState (Some previousState))
  = if hasNew
    then [ mkEvent "new_listening_port" "medium" (NewPorts newPorts)
             (clock 0) ]
    else [].
Proof.
  rewrite detectAnomalies_shape. unfold events_of_type.
  rewrite !List.filter_app.
  destruct hasNew, isSpike, hasSuspicious; reflexivity.
Qed.

(** The events of type [suspicious_port] in the result. *)
Lemma suspicious_events :
  events_of_type "suspicious_port"
    (detectAnomalies clock currentState (Some previousState))
  = if hasSuspicious
    then [ mkEvent "suspicious_port" "critical"
             (SuspiciousConns suspiciousConns)
             (clock (Nat.b2n hasNew + Nat.b2n isSpike)) ]
    else [].
Proof.
  rewrite detectAnomalies_shape. unfold events_of_type.
  rewrite !List.filter_app.
  destruct hasNew, isSpike, hasSuspicious; reflexivity.
Qed.

Lemma spike_fires_iff :
  fires "connection_spike"
    (detectAnomalies clock currentState (Some previousState))
  <-> 2 * length (connections previousState) < length (connections currentState)
      /\ 50 < length (connections currentState).
Proof.
  pose proof isSpike_spec as HS. unfold prevConnCount, connCount in HS.
  rewrite fires_events_of_type, spike_events, <- HS.
  destruct isSpike; split; congruence.
Qed.

Lemma new_port_fires_iff :
  fires "new_listening_port"
    (detectAnomalies clock currentState (Some previousState))
  <-> exists q, newly_seen currentState previousState q.
Proof.
  rewrite fires_events_of_type, new_port_events. unfold hasNew.
  destruct newPorts as [|q l] eqn:E; cbn.
  - split; [congruence|]. intros (q & Hq).
    apply newPorts_spec in Hq. rewrite E in Hq. destruct Hq.
  - split; [|congruence]. intros _. exists q.
    apply newPorts_spec. rewrite E. now left.
Qed.

Lemma new_port_event_inv e :
  In e (detectAnomalies clock currentState (Some previousState)) ->
  type e = "new_listening_port" ->
  severity e = "medium" /\ details e = NewPorts newPorts.
Proof.
  intros Hin Hty.
  assert (H : In e (events_of_type "new_listening_port"
                      (detectAnomalies clock currentState (Some previousState))))
    by (apply In_events_of_type; auto).
  rewrite new_port_events in H.
  destruct hasNew; [|destruct H].
  destruct H as [<-|[]]. split; reflexivity.
Qed.

Lemma spike_event_inv e :
  In e (detectAnomalies clock currentState (Some previousState)) ->
  type e = "connection_spike" ->
  severity e = "high"
  /\ details e = Spike (mkSpike prevConnCount connCount
                          (increase_of connCount prevConnCount)).
Proof.
  intros Hin Hty.
  assert (H : In e (events_of_type "connection_spike"
                      (detectAnomalies clock currentState (Some previousState))))
    by (apply In_events_of_type; auto).
  rewrite spike_events in H.
  destruct isSpike; [|destruct H].
  destruct H as [<-|[]]. split; reflexivity.
Qed.

Lemma suspicious_event_inv e :
  In e (detectAnomalies clock currentState (Some previousState)) ->
  type e = "suspicious_port" ->
  severity e = "critical" /\ details e = SuspiciousConns suspiciousConns.
Proof.
  intros Hin Hty.
  assert (H : In e (events_of_type "suspicious_port"
                      (detectAnomalies clock currentState (Some previousState))))
    by (apply In_events_of_type; auto).
  rewrite suspicious_events in H.
  destruct hasSuspicious; [|destruct H].
  destruct H as [<-|[]]. split; reflexivity.
Qed.

Lemma events_of_type_le_1 ty :
  In ty ["new_listening_port"; "connection_spike"; "suspicious_port"] ->
  length (events_of_type ty
            (detectAnomalies clock currentState (Some previousState))) <= 1.
Proof.
  intros [<-|[<-|[<-|[]]]].
  - rewrite new_port_events. destruct hasNew; cbn; lia.
  - rewrite spike_events. destruct isSpike; cbn; lia.
  - rewrite suspicious_events. destruct hasSuspicious; cbn; lia.
Qed.

(** A connection listed by a [suspicious_port] event has a peer port in
    the fixed list. *)
Lemma listed_conn_suspicious e conn :
  In e (detectAnomalies clock currentState (Some previousState)) ->
  type e = "suspicious_port" ->
  In conn (listed_conns e) ->
  In conn (connections currentState)
  /\ includes suspiciousPorts (peerPort conn) = true.
Proof.
  intros Hin Hty Hc.
  destruct (suspicious_event_inv e Hin Hty) as [_ Hd].
  unfold listed_conns in Hc. rewrite Hd in Hc.
  unfold suspiciousConns in Hc. now apply filter_In in Hc.
Qed.

End Detector.

(** ** Blanks *)

Section Blanks.
Import JS Props.

Lemma append_cons c (a b : string) :
  (String c a ++ b)%string = String c (a ++ b)%string.
Proof. reflexivity. Qed.

Lemma append_nil_l (b : string) : ("" ++ b)%string = b.
Proof. reflexivity. Qed.

Lemma append_nil_r (s : string) : (s ++ "")%string = s.
Proof.
  induction s as [|c s IH]; [reflexivity|]. now rewrite append_cons, IH.
Qed.

Lemma append_assoc (a b c : string) :
  ((a ++ b) ++ c)%string = (a ++ (b ++ c))%string.
Proof.
  induction a as [|x a IH]; [reflexivity|]. now rewrite !append_cons, IH.
Qed.

Lemma length_append (a b : string) :
  String.length (a ++ b) = String.length a + String.length b.
Proof.
  induction a as [|x a IH]; [reflexivity|].
  rewrite append_cons. cbn [String.length]. now rewrite IH.
Qed.

Lemma prefix_nil s : String.prefix "" s = true.
Proof. now destruct s. Qed.

Lemma prefix_cons c a d s :
  String.prefix (String c a) (String d s)
  = if Ascii.eqb c d then String.prefix a s else false.
Proof.
  cbn [String.prefix]. destruct (ascii_dec c d) as [->|Hne].
  - now rewrite Ascii.eqb_refl.
  - apply Ascii.eqb_neq in Hne. now rewrite Hne.
Qed.

Lemma prefix_app_intro a t : String.prefix a (a ++ t) = true.
Proof.
  induction a as [|c a IH]; [apply prefix_nil|].
  rewrite append_cons, prefix_cons, Ascii.eqb_refl. exact IH.
Qed.

Lemma prefix_split a s : String.prefix a s = true -> exists t, s = (a ++ t)%string.
Proof.
  revert s. induction a as [|c a IH]; intros s H.
  - now exists s.
  - destruct s as [|d s]; [discriminate H|].
    rewrite prefix_cons in H. destruct (Ascii.eqb c d) eqn:E; [|discriminate H].
    apply Ascii.eqb_eq in E. subst d.
    destruct (IH s H) as (t & ->). now exists t.
Qed.

(** A prefix of a text is a prefix of what it is extended to. *)
Lemma prefix_app_r a x y :
  String.prefix a x = true -> String.prefix a (x ++ y) = true.
Proof.
  intros H. destruct (prefix_split a x H) as (t & ->).
  rewrite append_assoc. apply prefix_app_intro.
Qed.

Lemma find_none_intro {A} (f : A -> bool) l :
  (forall x, In x l -> f x = false) -> List.find f l = None.
Proof.
  induction l as [|a l IH]; intros H; [reflexivity|].
  cbn [List.find]. rewrite (H a (or_introl eq_refl)).
  apply IH. intros x Hx. apply H. now right.
Qed.

Lemma blank_nonempty b : In b blanks -> b <> "".
Proof.
  intros H E. subst b. vm_compute in H.
  repeat (destruct H as [H|H]; [discriminate H|]). exact H.
Qed.

(** No blank starts [s] exactly when [blank_width] is 0. *)
Lemma blank_width_0 s :
  blank_width s = 0 <-> forall b, In b blanks -> String.prefix b s = false.
Proof.
  unfold blank_width. split.
  - destruct (List.find _ blanks) as [b|] eqn:E.
    + apply List.find_some in E. destruct E as [Hb _].
      intros Hl. destruct b; [now apply blank_nonempty in Hb | discriminate Hl].
    + intros _ b Hb. exact (List.find_none _ _ E b Hb).
  - intros H. now rewrite (find_none_intro _ _ H).
Qed.

Lemma blank_width_split s :
  blank_width s <> 0 ->
  exists b t, In b blanks /\ s = (b ++ t)%string.
Proof.
  unfold blank_width.
  destruct (List.find _ blanks) as [b|] eqn:E; [|congruence].
  intros _. apply List.find_some in E. destruct E as [Hb Hp].
  destruct (prefix_split b s Hp) as (t & ->). now exists b, t.
Qed.

(** A text that has no blank at its start has none when it is cut. *)
Lemma blank_width_0_cut x y : blank_width (x ++ y) = 0 -> blank_width x = 0.
Proof.
  rewrite !blank_width_0. intros H b Hb.
  destruct (String.prefix b x) eqn:E; [|reflexivity].
  rewrite <- (H b Hb). symmetry. now apply prefix_app_r.
Qed.

Ltac each_blank H :=
  vm_compute in H;
  repeat (destruct H as [H|H]; [subst|]); [..|destruct H].

Lemma blank_width_blank b t :
  In b blanks -> blank_width (b ++ t) = String.length b.
Proof. intros H. each_blank H; destruct t; reflexivity. Qed.

Lemma skip_ws_blank b t : In b blanks -> skip_ws (b ++ t) = skip_ws t.
Proof. intros H. each_blank H; destruct t; reflexivity. Qed.

Lemma split_ws_go_blank b t cur inws :
  In b blanks ->
  split_ws_go (b ++ t) cur inws
  = if inws then split_ws_go t "" true else cur :: split_ws_go t "" true.
Proof. intros H. each_blank H; destruct t; reflexivity. Qed.

Lemma skip_ws_0 s : blank_width s = 0 -> skip_ws s = s.
Proof. intros H. destruct s; cbn [skip_ws]; now rewrite H. Qed.

Lemma split_ws_go_0 c s cur inws :
  blank_width (String c s) = 0 ->
  split_ws_go (String c s) cur inws
  = split_ws_go s (cur ++ String c "") false.
Proof. intros H. cbn [split_ws_go]. now rewrite H. Qed.

Lemma blank_run_app a b : blank_run a -> blank_run b -> blank_run (a ++ b).
Proof.
  induction 1 as [|x s Hx Hs IH]; intros Hb; [exact Hb|].
  rewrite append_assoc. constructor; auto.
Qed.

(** [skip_ws] removes a run of blanks, and what is left starts with no
    blank. *)
Lemma skip_ws_spec s :
  exists ws, blank_run ws /\ s = (ws ++ skip_ws s)%string
             /\ blank_width (skip_ws s) = 0.
Proof.
  remember (String.length s) as n eqn:En. revert s En.
  induction n as [n IH] using lt_wf_ind. intros s En.
  destruct (Nat.eq_dec (blank_width s) 0) as [H0|Hn].
  - exists "". rewrite (skip_ws_0 s H0). repeat split; [constructor | exact H0].
  - destruct (blank_width_split s Hn) as (b & t & Hb & ->).
    rewrite (skip_ws_blank b t Hb).
    destruct (IH (String.length t)) with (s := t) as (ws & Hws & Ht & Hw);
      [|reflexivity|].
    + subst n. rewrite length_append.
      pose proof (blank_nonempty b Hb). destruct b; [congruence|cbn; lia].
    + exists (b ++ ws)%string. split; [now constructor|].
      split; [|exact Hw]. rewrite append_assoc. now rewrite <- Ht.
Qed.

Lemma skip_ws_run ws t :
  blank_run ws -> blank_width t = 0 -> skip_ws (ws ++ t) = t.
Proof.
  induction 1 as [|b s Hb Hs IH]; intros Ht.
  - now apply skip_ws_0.
  - rewrite append_assoc, (skip_ws_blank b _ Hb). now apply IH.
Qed.

End Blanks.

(** ** parseInt *)

Section ParseInt.
Import JS Node NetworkMonitor Props.
Local Open Scope Z_scope.

Lemma digits2_pos_iter_xO m d :
  digits2_pos (Pos.iter xO m d) = (digits2_pos m + d)%positive.
Proof.
  induction d as [|d IH] using Pos.peano_ind.
  - cbn. lia.
  - rewrite Pos.iter_succ. cbn [digits2_pos]. rewrite IH. lia.
Qed.

Lemma iter_xO_inj d m m' : Pos.iter xO m d = Pos.iter xO m' d -> m = m'.
Proof.
  induction d as [|d IH] using Pos.peano_ind.
  - cbn. congruence.
  - rewrite !Pos.iter_succ. intros [= H]. now apply IH.
Qed.

(** The exponent a shift to the right leaves is not below the one it
    starts from. *)
Lemma shr_fexp_snd m e l :
  snd (shr_fexp prec emax m e l) = Z.max e (fexp prec emax (Zdigits2 m + e)).
Proof.
  unfold shr_fexp, shr.
  destruct (fexp prec emax (Zdigits2 m + e) - e) eqn:E; cbn [snd]; lia.
Qed.

(** What [of_Z] makes of a positive integer: the integer itself, shifted
    to 53 bits, when it has 53 bits or fewer; otherwise a value with a
    positive exponent, or an infinity. *)
Lemma of_Z_pos m :
  (Z.pos (digits2_pos m) <= 53 /\
   of_Z (Z.pos m)
   = S754_finite false
       (match (53 - Z.pos (digits2_pos m))%Z with
        | Z.pos d => Pos.iter xO m d
        | _ => m
        end)
       (Z.pos (digits2_pos m) - 53))
  \/ (53 < Z.pos (digits2_pos m) /\
      match of_Z (Z.pos m) with
      | S754_finite _ _ e => 0 < e
      | _ => True
      end).
Proof.
  destruct (Z_le_gt_dec (Z.pos (digits2_pos m)) 53) as [Hle|Hgt].
  - left. split; [exact Hle|].
    unfold of_Z, binary_normalize, binary_round, shl_align.
    assert (Hf : fexp prec emax (Z.pos (digits2_pos m) + 0)
                 = Z.pos (digits2_pos m) - 53).
    { unfold fexp, emin, prec, emax. lia. }
    rewrite Hf.
    destruct (Z.pos (digits2_pos m) - 53 - 0) eqn:Ed; try lia.
    + assert (H53 : Z.pos (digits2_pos m) = 53) by lia.
      replace (53 - Z.pos (digits2_pos m)) with 0 by lia.
      unfold binary_round_aux, shr_fexp, shr. cbn [Zdigits2].
      replace (fexp prec emax (Z.pos (digits2_pos m) + 0) - 0) with 0
        by (rewrite Hf; lia).
      cbn [shr_record_of_loc shr_m loc_of_shr_record round_nearest_even].
      cbn [Zdigits2].
      replace (fexp prec emax (Z.pos (digits2_pos m) + 0) - 0) with 0
        by (rewrite Hf; lia).
      cbn [shr_m]. rewrite H53. reflexivity.
    + assert (H53 : 53 - Z.pos (digits2_pos m) = Z.pos p) by lia.
      rewrite H53.
      unfold binary_round_aux, shr_fexp, shr. cbn [Zdigits2].
      rewrite digits2_pos_iter_xO.
      assert (Hf2 : fexp prec emax
                      (Z.pos (digits2_pos m + p) + (Z.pos (digits2_pos m) - 53))
                    - (Z.pos (digits2_pos m) - 53) = 0).
      { unfold fexp, emin, prec, emax. lia. }
      rewrite Hf2.
      cbn [shr_record_of_loc shr_m loc_of_shr_record round_nearest_even].
      cbn [Zdigits2]. rewrite digits2_pos_iter_xO, Hf2. cbn [shr_m].
      destruct (Z.pos (digits2_pos m) - 53 <=? emax - prec) eqn:El;
        [reflexivity|]. apply Z.leb_gt in El. unfold emax, prec in El. lia.
  - right. split; [lia|].
    unfold of_Z, binary_normalize, binary_round, shl_align.
    assert (Hf : fexp prec emax (Z.pos (digits2_pos m) + 0)
                 = Z.pos (digits2_pos m) - 53).
    { unfold fexp, emin, prec, emax. lia. }
    rewrite Hf.
    destruct (Z.pos (digits2_pos m) - 53 - 0) eqn:Ed; try lia.
    unfold binary_round_aux.
    pose proof (shr_fexp_snd (Z.pos m) 0 loc_Exact) as H1.
    destruct (shr_fexp prec emax (Z.pos m) 0 loc_Exact) as [mrs' e'].
    cbn [snd] in H1.
    match goal with
    | |- context [shr_fexp prec emax ?a e' loc_Exact] =>
        pose proof (shr_fexp_snd a e' loc_Exact) as H2;
        destruct (shr_fexp prec emax a e' loc_Exact) as [mrs'' e'']
    end.
    cbn [snd] in H2. cbn [Zdigits2] in H1. rewrite Hf in H1.
    destruct (shr_m mrs''); try exact I.
    destruct (e'' <=? emax - prec); [|exact I]. lia.
Qed.

(** Two positive integers, one of them of 53 bits or fewer, that
    [of_Z] makes equal are equal. *)
Lemma of_Z_pos_eqb m q :
  Z.pos (digits2_pos q) <= 53 ->
  SFeqb (of_Z (Z.pos m)) (of_Z (Z.pos q)) = true -> m = q.
Proof.
  intros Hq.
  destruct (of_Z_pos q) as [[_ Hofq]|[Hgt _]]; [|lia]. rewrite Hofq.
  destruct (of_Z_pos m) as [[Hm Em]|[Hm Em]].
  - rewrite Em. unfold SFeqb, SFcompare.
    destruct (Z.compare_spec (Z.pos (digits2_pos m) - 53)
                             (Z.pos (digits2_pos q) - 53)) as [He|He|He];
      try discriminate.
    assert (Hd : digits2_pos m = digits2_pos q) by lia. rewrite Hd.
    destruct (53 - Z.pos (digits2_pos q)) as [|d|d] eqn:Ed.
    + intros H. destruct (Pos.compare_cont Datatypes.Eq m q) eqn:Ec; try discriminate.
      now apply (Pos.compare_eq m q) in Ec.
    + intros H. destruct (Pos.compare_cont Datatypes.Eq _ _) eqn:Ec; try discriminate.
      apply (Pos.compare_eq _ _) in Ec.
      now apply iter_xO_inj in Ec.
    + lia.
  - destruct (of_Z (Z.pos m)) as [s|s| |s mm e].
    + intros H. destruct s; cbn in H; discriminate H.
    + intros H. destruct s; cbn in H; discriminate H.
    + intros H. cbn in H. discriminate H.
    + unfold SFeqb, SFcompare. destruct s; [discriminate|].
      destruct (Z.compare_spec e (Z.pos (digits2_pos q) - 53)) as [He|He|He];
        try discriminate; lia.
Qed.

(** A negative integer is never made equal to a positive one. *)
Lemma of_Z_neg_eqb m q :
  Z.pos (digits2_pos q) <= 53 ->
  SFeqb (of_Z (Z.neg m)) (of_Z (Z.pos q)) = false.
Proof.
  intros Hq. destruct (of_Z_pos q) as [[_ Hofq]|[Hgt _]]; [|lia]. rewrite Hofq.
  unfold of_Z, binary_normalize, binary_round, binary_round_aux.
  destruct (shl_align _ _ _) as [mz ez].
  destruct (shr_fexp _ _ _ _ _) as [mrs' e'].
  destruct (shr_fexp _ _ _ _ _) as [mrs'' e''].
  destruct (shr_m mrs''); [reflexivity| |reflexivity].
  destruct (e'' <=? emax - prec); reflexivity.
Qed.

(** A Number that is an integer belongs to the list of the rule exactly
    when that integer is one of the six ports. *)
Lemma includes_of_Z z :
  includes suspiciousPorts (of_Z z) = true <-> In z suspicious_numbers.
Proof.
  split.
  - unfold includes. rewrite existsb_exists. intros (x & Hx & Hs).
    unfold suspiciousPorts in Hx. apply in_map_iff in Hx.
    destruct Hx as (p & <- & Hp).
    assert (Hsame : SFeqb (of_Z z) (of_Z p) = true).
    { unfold sameValueZero in Hs.
      cbn in Hp. repeat destruct Hp as [<-|Hp]; try destruct Hp;
        destruct (of_Z z); first [exact Hs | discriminate Hs]. }
    assert (Hbits : exists q, p = Z.pos q /\ Z.pos (digits2_pos q) <= 53).
    { cbn in Hp. repeat destruct Hp as [<-|Hp]; try destruct Hp;
        eexists; (split; [reflexivity | vm_compute; discriminate]). }
    destruct Hbits as (q & -> & Hq).
    destruct z as [|m|m].
    + exfalso. destruct (of_Z_pos q) as [[_ Hofq]|[Hgt _]]; [|lia].
      rewrite Hofq in Hsame. discriminate Hsame.
    + apply (of_Z_pos_eqb m q Hq) in Hsame. now subst m.
    + now rewrite (of_Z_neg_eqb m q Hq) in Hsame.
  - intros H. cbn in H.
    repeat destruct H as [<-|H]; try destruct H; vm_compute; reflexivity.
Qed.

Lemma includes_zero s : includes suspiciousPorts (S754_zero s) = false.
Proof. destruct s; vm_compute; reflexivity. Qed.

Lemma includes_NaN : includes suspiciousPorts NaN = false.
Proof. vm_compute. reflexivity. Qed.

Ltac each_char c :=
  destruct c as [[] [] [] [] [] [] [] []].

Lemma digit_in_10 c :
  digit_in 10 c = if isDigit c then Some (digit_number c) else None.
Proof. each_char c; reflexivity. Qed.

Lemma digit_in_16 c :
  digit_in 16 c = if isHexDigit c then Some (digit_number c) else None.
Proof. each_char c; reflexivity. Qed.

Lemma digit_number_nonneg c : isHexDigit c = true -> 0 <= digit_number c.
Proof. each_char c; intros H; first [discriminate H | vm_compute; discriminate]. Qed.

Lemma isDigit_isHexDigit c : isDigit c = true -> isHexDigit c = true.
Proof. unfold isHexDigit. now intros ->. Qed.

Lemma all_digits_chars s : all_digits s = true -> all_chars isDigit s.
Proof.
  unfold all_chars. induction s as [|c s IH]; cbn; [constructor|].
  intros H. apply andb_true_iff in H. destruct H. constructor; auto.
Qed.

Lemma all_hex_digits_chars s : all_hex_digits s = true -> all_chars isHexDigit s.
Proof.
  unfold all_chars. induction s as [|c s IH]; cbn; [constructor|].
  intros H. apply andb_true_iff in H. destruct H. constructor; auto.
Qed.

(** [parse_digits] reads a run of digits up to the first character that
    is not one. *)
Lemma parse_digits_run radix (digit : ascii -> bool) ds rest acc seen :
  (forall c, digit_in radix c
             = if digit c then Some (digit_number c) else None) ->
  all_chars digit ds ->
  starts_with digit rest = false ->
  parse_digits radix (ds ++ rest) acc seen
  = match ds with
    | EmptyString => if seen then Some acc else None
    | _ => Some (number_from radix ds acc)
    end.
Proof.
  intros Hd Hall Hrest. revert acc seen.
  induction ds as [|c ds IH]; intros acc seen.
  - rewrite append_nil_l. destruct rest as [|r rest]; [reflexivity|].
    cbn in Hrest. cbn [parse_digits]. now rewrite Hd, Hrest.
  - unfold all_chars in Hall. cbn in Hall. inversion Hall as [|? ? Hc Hds]; subst.
    rewrite append_cons. cbn [parse_digits]. rewrite Hd, Hc.
    rewrite (IH Hds). cbn [number_from].
    rewrite (Z.mul_comm acc radix).
    destruct ds; reflexivity.
Qed.

Lemma number_from_nonneg radix ds acc :
  0 <= radix -> 0 <= acc -> all_chars isHexDigit ds ->
  0 <= number_from radix ds acc.
Proof.
  intros Hr. revert acc. induction ds as [|c ds IH]; intros acc Hacc Hall;
    [exact Hacc|].
  unfold all_chars in Hall. cbn in Hall. inversion Hall as [|? ? Hc Hds]; subst.
  cbn [number_from]. apply IH; [|exact Hds].
  pose proof (digit_number_nonneg c Hc). nia.
Qed.

Lemma all_chars_weaken (p q : ascii -> bool) s :
  (forall c, p c = true -> q c = true) -> all_chars p s -> all_chars q s.
Proof. intros H. unfold all_chars. apply List.Forall_impl. exact H. Qed.

Lemma blank_width_digit t : starts_with isDigit t = true -> blank_width t = 0%nat.
Proof.
  destruct t as [|c t]; [discriminate|]. cbn.
  each_char c; intros H; first [discriminate H | reflexivity].
Qed.

Lemma blank_width_signed sign t :
  In sign signs -> starts_with isDigit t = true ->
  blank_width (sign ++ t) = 0%nat.
Proof.
  intros Hs Ht. cbn in Hs. destruct Hs as [<-|[<-|[<-|[]]]];
    [now apply blank_width_digit | reflexivity | reflexivity].
Qed.

Lemma read_sign_signed sign t :
  In sign signs -> starts_with isDigit t = true ->
  read_sign (sign ++ t) = (String.eqb sign "-", t).
Proof.
  intros Hs Ht. cbn in Hs. destruct Hs as [<-|[<-|[<-|[]]]];
    [|reflexivity|reflexivity].
  destruct t as [|c t]; [discriminate|]. cbn in Ht.
  each_char c; first [discriminate Ht | reflexivity].
Qed.

Lemma read_radix_decimal ds rest :
  is_numeric ds = true ->
  (ds = "0" -> starts_with is_x rest = false) ->
  read_radix (ds ++ rest) = (10, (ds ++ rest)%string).
Proof.
  destruct ds as [|c ds]; [discriminate|]. cbn [is_numeric all_digits].
  intros H Hx. apply andb_true_iff in H. destruct H as [Hc Hds].
  rewrite append_cons.
  each_char c; try discriminate Hc; try reflexivity.
  destruct ds as [|c2 ds].
  - specialize (Hx eq_refl). rewrite append_nil_l.
    destruct rest as [|r rest]; [reflexivity|]. cbn in Hx.
    each_char r; first [discriminate Hx | reflexivity].
  - cbn in Hds. apply andb_true_iff in Hds. destruct Hds as [Hc2 _].
    rewrite append_cons.
    each_char c2; first [discriminate Hc2 | reflexivity].
Qed.

Lemma read_radix_hex x t :
  is_x x = true -> read_radix (String "0" (String x t)) = (16, t).
Proof. each_char x; intros H; first [discriminate H | reflexivity]. Qed.

(** What [parseInt] reads from blanks, a sign, decimal digits and
    something that does not go on with a digit. *)
Lemma parseInt_decimal ws sign ds rest :
  blank_run ws -> In sign signs ->
  is_numeric ds = true -> starts_with isDigit rest = false ->
  (ds = "0" -> starts_with is_x rest = false) ->
  parseInt (ws ++ sign ++ ds ++ rest)
  = if decimal ds =? 0 then S754_zero (String.eqb sign "-")
    else of_Z (if String.eqb sign "-" then - decimal ds else decimal ds).
Proof.
  intros Hws Hsign Hds Hrest Hx.
  assert (Hstart : starts_with isDigit (ds ++ rest) = true).
  { destruct ds as [|c ds]; [discriminate Hds|]. cbn in Hds |- *.
    now apply andb_true_iff in Hds. }
  unfold parseInt.
  rewrite (skip_ws_run ws _ Hws (blank_width_signed sign _ Hsign Hstart)).
  rewrite (read_sign_signed sign _ Hsign Hstart).
  rewrite (read_radix_decimal ds rest Hds Hx).
  rewrite (parse_digits_run 10 isDigit ds rest 0 false digit_in_10);
    [|apply all_digits_chars; destruct ds; [discriminate|exact Hds] | exact Hrest].
  destruct ds; [discriminate Hds|]. reflexivity.
Qed.

(** The same after [0x] or [0X], with hexadecimal digits; without a
    digit there the result is NaN. *)
Lemma parseInt_hexadecimal ws sign x hs rest :
  blank_run ws -> In sign signs -> is_x x = true ->
  all_hex_digits hs = true -> starts_with isHexDigit rest = false ->
  parseInt (ws ++ sign ++ String "0" (String x (hs ++ rest)))
  = match hs with
    | EmptyString => NaN
    | _ => if hexadecimal hs =? 0 then S754_zero (String.eqb sign "-")
           else of_Z (if String.eqb sign "-" then - hexadecimal hs
                      else hexadecimal hs)
    end.
Proof.
  intros Hws Hsign Hxx Hhs Hrest.
  unfold parseInt.
  set (t := String "0" (String x (hs ++ rest))).
  assert (Ht : starts_with isDigit t = true) by reflexivity.
  rewrite (skip_ws_run ws _ Hws (blank_width_signed sign t Hsign Ht)).
  rewrite (read_sign_signed sign t Hsign Ht). subst t.
  rewrite (read_radix_hex x _ Hxx).
  rewrite (parse_digits_run 16 isHexDigit hs rest 0 false digit_in_16);
    [|now apply all_hex_digits_chars | exact Hrest].
  destruct hs; reflexivity.
Qed.

(** [parseInt] yields NaN on a text with no leading integer. *)
Lemma parseInt_no_leading_integer s :
  ~ has_leading_integer s -> parseInt s = NaN.
Proof.
  intros Hno. destruct (skip_ws_spec s) as (ws & Hws & Hs & _).
  unfold parseInt. destruct (skip_ws s) as [|c r] eqn:E; [reflexivity|].
  destruct (isDigit c) eqn:Hc.
  { exfalso. apply Hno. exists ws, "", c, r. rewrite append_nil_l.
    repeat split; [exact Hs | exact Hws | now left | exact Hc]. }
  assert (Hsigned : forall c2 r2,
             r = String c2 r2 -> In (String c "") signs -> isDigit c2 = false).
  { intros c2 r2 -> Hsign.
    destruct (isDigit c2) eqn:Hc2; [|reflexivity]. exfalso. apply Hno.
    exists ws, (String c ""), c2, r2.
    repeat split; [exact Hs | exact Hws | exact Hsign | exact Hc2]. }
  each_char c; try discriminate Hc; try reflexivity;
    (destruct r as [|c2 r2]; [reflexivity|]);
    (assert (Hc2 : isDigit c2 = false)
       by (apply (Hsigned c2 r2 eq_refl);
           first [now left | now (right; left) | now (right; right; left)]));
    each_char c2; first [discriminate Hc2 | reflexivity].
Qed.

End ParseInt.

Section SuspiciousPeers.
Import JS Node NetworkMonitor Props.
Local Open Scope Z_scope.

(** A connection is listed by a [suspicious_port] event exactly when
    there is a baseline, the connection is a current one and its peer
    port is on the list. *)
Lemma listed_in_iff clock cur prev conn :
  listed_in (detectAnomalies clock cur prev) conn
  <-> prev <> None /\ In conn (connections cur)
      /\ includes suspiciousPorts (peerPort conn) = true.
Proof.
  destruct prev as [prev|].
  - split.
    + intros (e & He & Hty & Hc).
      destruct (listed_conn_suspicious clock cur prev e conn He Hty Hc).
      repeat split; [discriminate | assumption | assumption].
    + intros (_ & Hin & Hport).
      assert (Hm : In conn (List.filter
                              (fun c => includes suspiciousPorts (peerPort c))
                              (connections cur)))
        by (apply filter_In; auto).
      assert (Hf : fires "suspicious_port"
                     (detectAnomalies clock cur (Some prev))).
      { apply fires_events_of_type. rewrite suspicious_events.
        destruct (List.filter _ (connections cur)) as [|c0 l];
          [destruct Hm | discriminate]. }
      destruct Hf as (e & He & Hty). exists e. split; [exact He|].
      split; [exact Hty|].
      destruct (suspicious_event_inv clock cur prev e He Hty) as [_ Hdet].
      unfold listed_conns. rewrite Hdet. exact Hm.
  - split.
    + intros (e & [] & _).
    + intros (H & _). congruence.
Qed.

Lemma peerPort_segment conn p :
  peer conn = Some p -> last_segment p <> "" ->
  peerPort conn = parseInt (last_segment p).
Proof.
  intros Hp Hseg. unfold peerPort. rewrite Hp.
  destruct p; [|reflexivity]. now destruct Hseg.
Qed.

Lemma not_in_suspicious_numbers z : z <= 0 -> ~ In z suspicious_numbers.
Proof. intros Hz H. cbn in H. lia. Qed.

Lemma includes_signed neg z :
  0 <= z ->
  includes suspiciousPorts
    (if (z =? 0)%Z then S754_zero neg else of_Z (if neg then (- z)%Z else z))
  = true
  <-> neg = false /\ In z suspicious_numbers.
Proof.
  intros Hz. destruct (Z.eqb_spec z 0) as [->|Hne].
  - rewrite includes_zero. split; [discriminate|].
    intros [_ H]. now apply not_in_suspicious_numbers in H.
  - destruct neg.
    + rewrite includes_of_Z. split.
      * intros H. apply not_in_suspicious_numbers in H; [destruct H | lia].
      * intros [H _]. discriminate H.
    + rewrite includes_of_Z. tauto.
Qed.

Lemma eqb_minus sign : In sign signs -> String.eqb sign "-" = false <-> sign <> "-".
Proof.
  intros H. cbn in H. destruct H as [<-|[<-|[<-|[]]]]; cbn;
    split; congruence.
Qed.

End SuspiciousPeers.

(** ** The rules of the detector *)

Section DetectorRules.
Import JS Node NetworkMonitor Props.

(** C1. For every pair of snapshots, with [c] and [p] the numbers of
    current and previous connections, [detectAnomalies] emits a
    [connection_spike] event exactly when [c > 2p] and [c > 50], both
    strictly; the event has severity [high] and there is at most one of
    them; [c = 50] and [c = 2p] never fire; and whether the rule fires
    depends on the two counts only, whatever the ports and the contents
    of the connections (so whatever the other two rules do). *)
Theorem connection_spike_iff (clock : nat -> string) (cur prev : Snapshot) :
  let c := length (connections cur) in
  let p := length (connections prev) in
  let evs := detectAnomalies clock cur (Some prev) in
  (fires "connection_spike" evs <-> 2 * p < c /\ 50 < c)
  /\ (forall e, In e evs -> type e = "connection_spike" -> severity e = "high")
  /\ length (events_of_type "connection_spike" evs) <= 1
  /\ (c = 50 -> ~ fires "connection_spike" evs)
  /\ (c = 2 * p -> ~ fires "connection_spike" evs)
  /\ (forall clock' cur' prev',
        length (connections cur') = c ->
        length (connections prev') = p ->
        (fires "connection_spike" (detectAnomalies clock' cur' (Some prev'))
         <-> fires "connection_spike" evs)).
Proof.
  intros c p evs. subst c p evs.
  split; [apply spike_fires_iff|].
  split.
  { intros e Hin Hty. now destruct (spike_event_inv clock cur prev e Hin Hty). }
  split; [apply events_of_type_le_1; cbn; tauto|].
  split; [intros H50 Hf; apply spike_fires_iff in Hf; lia|].
  split; [intros H2p Hf; apply spike_fires_iff in Hf; lia|].
  intros clock' cur' prev' Hc Hp.
  rewrite !spike_fires_iff, Hc, Hp. reflexivity.
Qed.

(** C2. For every pair of snapshots with a previous baseline,
    [detectAnomalies] emits a [new_listening_port] event exactly when
    some port of [current.ports] has a port number that no port of
    [previous.ports] has; there is then exactly one such event, it has
    severity [medium] and carries exactly those ports; the key is the
    port number alone, so a current port whose number occurs in
    [previous.ports], under whatever protocol or address, is not
    carried. *)
Theorem new_listening_port_rule (clock : nat -> string) (cur prev : Snapshot) :
  let evs := detectAnomalies clock cur (Some prev) in
  (fires "new_listening_port" evs <-> exists q, newly_seen cur prev q)
  /\ length (events_of_type "new_listening_port" evs) <= 1
  /\ ((exists q, newly_seen cur prev q) ->
      length (events_of_type "new_listening_port" evs) = 1)
  /\ (forall e, In e evs -> type e = "new_listening_port" ->
        severity e = "medium"
        /\ exists l, details e = NewPorts l
                     /\ forall q, In q l <-> newly_seen cur prev q)
  /\ (forall e q q', In e evs -> type e = "new_listening_port" ->
        In q' (ports prev) -> port q = port q' ->
        ~ In q (listed_ports e)).
Proof.
  intros evs. subst evs.
  pose proof (events_of_type_le_1 clock cur prev "new_listening_port") as Hle.
  split; [|split; [|split; [|split]]].
  - apply new_port_fires_iff.
  - apply Hle. cbn. tauto.
  - intros Hq. apply (proj2 (new_port_fires_iff clock cur prev)) in Hq.
    apply fires_events_of_type in Hq.
    destruct (events_of_type "new_listening_port"
                (detectAnomalies clock cur (Some prev))) as [|e l];
      [congruence|].
    cbn in *. specialize (Hle ltac:(tauto)). lia.
  - intros e Hin Hty.
    destruct (new_port_event_inv clock cur prev e Hin Hty) as [Hs Hd].
    split; [exact Hs|]. eexists. split; [exact Hd|].
    intros q. apply newPorts_spec.
  - intros e q q' Hin Hty Hq' Heq Hq.
    destruct (new_port_event_inv clock cur prev e Hin Hty) as [_ Hd].
    unfold listed_ports in Hq. rewrite Hd in Hq.
    apply newPorts_spec in Hq. destruct Hq as [_ Hnew].
    apply Hnew. rewrite Heq. now apply in_map.
Qed.

(** C10, amended. A current connection is listed by the
    [suspicious_port] event exactly when [parseInt] reads one of the six
    ports from the last colon-delimited segment of its peer. So a
    connection whose peer is missing or empty, or whose segment has no
    leading integer, is never listed. A segment that has one, after
    blanks and a sign, is read by the digits it starts with and what
    follows them is ignored: the connection is listed exactly when these
    digits, decimal or hexadecimal after [0x], denote a port of the
    list and the sign is not a minus. [detectAnomalies] is a total
    function of the two snapshots: no peer field makes it raise. *)
Theorem suspicious_port_skips_unparsed_peer
    (clock : nat -> string) (cur : Snapshot) (prev : option Snapshot)
    (conn : Connection) :
  let listed := listed_in (detectAnomalies clock cur prev) conn in
  (peer conn = None \/ peer conn = Some "" -> ~ listed)
  /\ (forall p, peer conn = Some p ->
        ~ has_leading_integer (last_segment p) -> ~ listed)
  /\ (forall p ws sign ds rest,
        peer conn = Some p ->
        last_segment p = (ws ++ sign ++ ds ++ rest)%string ->
        blank_run ws -> In sign signs ->
        is_numeric ds = true -> starts_with isDigit rest = false ->
        (ds = "0" -> starts_with is_x rest = false) ->
        (listed <-> prev <> None /\ In conn (connections cur)
                    /\ sign <> "-" /\ In (decimal ds) suspicious_numbers))
  /\ (forall p ws sign x hs rest,
        peer conn = Some p ->
        last_segment p = (ws ++ sign ++ String "0" (String x (hs ++ rest)))%string ->
        blank_run ws -> In sign signs -> is_x x = true ->
        all_hex_digits hs = true -> starts_with isHexDigit rest = false ->
        (listed <-> prev <> None /\ In conn (connections cur)
                    /\ sign <> "-" /\ hs <> ""
                    /\ In (hexadecimal hs) suspicious_numbers)).
Proof.
  intros listed. subst listed.
  pose proof (listed_in_iff clock cur prev conn) as Hl.
  split; [|split; [|split]].
  - intros Hp. rewrite Hl. intros (H1 & H2 & H). unfold peerPort in H.
    destruct Hp as [Hp|Hp]; rewrite Hp in H;
      apply includes_of_Z in H; now apply not_in_suspicious_numbers in H.
  - intros p Hp Hno. rewrite Hl. intros (H1 & H2 & H).
    unfold peerPort in H. rewrite Hp in H.
    destruct p.
    + apply includes_of_Z in H. now apply not_in_suspicious_numbers in H.
    + rewrite (parseInt_no_leading_integer _ Hno), includes_NaN in H.
      discriminate H.
  - intros p ws sign ds rest Hp Hseg Hws Hsign Hds Hrest Hx. rewrite Hl.
    assert (Hne : last_segment p <> "").
    { rewrite Hseg. intros E.
      apply (f_equal String.length) in E.
      rewrite !length_append in E. destruct ds; [discriminate Hds|].
      cbn in E. lia. }
    rewrite (peerPort_segment conn p Hp Hne), Hseg.
    rewrite (parseInt_decimal ws sign ds rest Hws Hsign Hds Hrest Hx).
    rewrite includes_signed, (eqb_minus sign Hsign); [tauto|].
    apply number_from_nonneg; [lia | lia |].
    apply (all_chars_weaken isDigit); [apply isDigit_isHexDigit|].
    apply all_digits_chars. destruct ds; [discriminate Hds | exact Hds].
  - intros p ws sign x hs rest Hp Hseg Hws Hsign Hxx Hhs Hrest. rewrite Hl.
    assert (Hne : last_segment p <> "").
    { rewrite Hseg. intros E.
      apply (f_equal String.length) in E.
      rewrite !length_append in E. cbn in E. lia. }
    rewrite (peerPort_segment conn p Hp Hne), Hseg.
    rewrite (parseInt_hexadecimal ws sign x hs rest Hws Hsign Hxx Hhs Hrest).
    destruct hs as [|h hs].
    + rewrite includes_NaN. split.
      * intros (H1 & H2 & H). discriminate H.
      * intros (H1 & H2 & H3 & H & H4). now destruct H.
    + rewrite includes_signed, (eqb_minus sign Hsign).
      * assert (Hn : String h hs <> "") by discriminate. tauto.
      * apply number_from_nonneg; [lia | lia |].
        now apply all_hex_digits_chars.
Qed.

(** C8. With no previous connection and 51 current ones the rule fires,
    the division is by zero, and the event reports the increase as
    [Infinity%]. *)
Theorem connection_spike_from_zero_reports_Infinity (clock : nat -> string) :
  events_of_type "connection_spike"
    (detectAnomalies clock (quiet 51) (Some (quiet 0)))
  = [ mkEvent "connection_spike" "high"
        (Spike (mkSpike 0 51 "Infinity%")) (clock 0) ].
Proof. vm_compute. reflexivity. Qed.

Lemma connection_spike_iff_witness :
  fires "connection_spike" (detectAnomalies clock0 (quiet 65) (Some (quiet 30)))
  /\ ~ fires "connection_spike"
         (detectAnomalies clock0 (quiet 50) (Some (quiet 10)))
  /\ ~ fires "connection_spike"
         (detectAnomalies clock0 (quiet 60) (Some (quiet 30))).
Proof.
  split; [|split].
  - apply (proj2 (proj1 (connection_spike_iff clock0 (quiet 65) (quiet 30)))).
    cbn. lia.
  - apply (proj1 (proj2 (proj2 (proj2
             (connection_spike_iff clock0 (quiet 50) (quiet 10)))))).
    reflexivity.
  - apply (proj1 (proj2 (proj2 (proj2 (proj2
             (connection_spike_iff clock0 (quiet 60) (quiet 30))))))).
    reflexivity.
Defined.

Lemma new_listening_port_rule_witness :
  fires "new_listening_port"
    (detectAnomalies clock0 (snapshot_of [] [tcp_22; tcp_8080])
       (Some (snapshot_of [] [tcp_22])))
  /\ ~ In udp_22
         (listed_ports
            (mkEvent "new_listening_port" "medium" (NewPorts [tcp_8080])
               (clock0 0))).
Proof.
  split.
  - apply (proj2 (proj1
             (new_listening_port_rule clock0
                (snapshot_of [] [tcp_22; tcp_8080])
                (snapshot_of [] [tcp_22])))).
    exists tcp_8080. split; [cbn; tauto|].
    cbn. intros [H|[]]. discriminate H.
  - apply (proj2 (proj2 (proj2 (proj2
             (new_listening_port_rule clock0
                (snapshot_of [] [udp_22; tcp_8080])
                (snapshot_of [] [tcp_22]))))) _ udp_22 tcp_22).
    + vm_compute. left. reflexivity.
    + reflexivity.
    + cbn. tauto.
    + reflexivity.
Defined.

Lemma suspicious_port_skips_unparsed_peer_witness :
  ~ listed_in
      (detectAnomalies clock0 (snapshot_of [conn_80abc; conn_4444] [])
         (Some (quiet 0)))
      conn_80abc.
Proof.
  intros H.
  apply (proj1 (proj1 (proj2 (proj2
           (suspicious_port_skips_unparsed_peer clock0
              (snapshot_of [conn_80abc; conn_4444] []) (Some (quiet 0))
              conn_80abc)))
           "10.0.0.5:80abc" "" "" "80" "abc" eq_refl eq_refl
           blank_run_nil (or_introl eq_refl) eq_refl eq_refl
           (fun E => ltac:(discriminate E)))) in H.
  destruct H as (_ & _ & _ & H). vm_compute in H.
  repeat (destruct H as [H|H]; [discriminate H|]). exact H.
Defined.

(** C10 as stated fails: the final segment [4444abc] is not a number,
    yet [parseInt] reads 4444 from it and the connection is listed. *)
Lemma suspicious_port_lists_numeric_prefix :
  peer conn_4444abc = Some "10.0.0.5:4444abc"
  /\ last_segment "10.0.0.5:4444abc" = "4444abc"
  /\ is_numeric "4444abc" = false
  /\ detectAnomalies clock0 (snapshot_of [conn_4444abc] []) (Some (quiet 0))
     = [ mkEvent "suspicious_port" "critical"
           (SuspiciousConns [conn_4444abc]) (clock0 0) ]
  /\ In conn_4444abc
       (listed_conns
          (mkEvent "suspicious_port" "critical"
             (SuspiciousConns [conn_4444abc]) (clock0 0))).
Proof.
  repeat split; try reflexivity. cbn. now left.
Qed.

End DetectorRules.

(** ** Snapshot collection, state store and alerts *)

Section Collector.
Import JS Node NetworkMonitor Props.

Lemma grep_status_no_match pattern input :
  List.filter (contains pattern) (lines_of input) = [] ->
  status (grep pattern input) = 1.
Proof. unfold grep. now intros ->. Qed.

(** When no line of the listing mentions [LISTEN], [grep] returns 1,
    [exec] reports an error and the promise is rejected. *)
Lemma getListeningPorts_rejects_without_LISTEN ss :
  List.filter (contains "LISTEN") (lines_of (stdout ss)) = [] ->
  is_normal (getListeningPorts_on ss) = false.
Proof.
  intros H. unfold getListeningPorts_on, ss_tuln_grep_LISTEN, exec_error.
  cbn [status stdout stderr].
  rewrite (grep_status_no_match _ _ H).
  destruct (exceeds_maxBuffer _); [reflexivity|].
  destruct (exceeds_maxBuffer _); reflexivity.
Qed.

(** C5. On a host with no listening socket [ss -tuln] prints its header
    only; [getListeningPorts] is then rejected with the error of the
    failed command instead of being resolved with the empty list, while
    [getNetworkConnections] is resolved with the empty list on the same
    host. *)
Theorem getListeningPorts_rejects_empty_listing :
  fst (getListeningPorts (world_of no_fault None))
  = Throw {| name := "Error";
             message := "Command failed: ss -tuln | grep LISTEN" ++ newline |}
  /\ fst (getNetworkConnections (world_of no_fault None)) = Normal [].
Proof. split; vm_compute; reflexivity. Qed.

End Collector.

Section StateStore.
Import JS Node NetworkMonitor Props ExtraProps.

Variable rt : Runtime.
Variable CONFIG : Config.

(** What [loadState] returns, by cases on the state file. *)
Lemma loadState_result (w : World AnomalyEvent) :
  fst (loadState rt CONFIG w)
  = Normal
      (if bool_decide (is_Some (files (fs w) !! stateFile CONFIG))
          || bool_decide (stateFile CONFIG ∈ dirs (fs w))
       then match fault w (OpRead (stateFile CONFIG)),
                  files (fs w) !! stateFile CONFIG with
            | None, Some text =>
                match JSON_parse_state rt text with
                | Normal r => r
                | Throw _ => None
                end
            | _, _ => None
            end
       else None).
Proof.
  unfold loadState, try_catch, bind, existsSync, readFileSync, lift, ret,
    console_error, console_write.
  destruct (bool_decide (is_Some (files (fs w) !! stateFile CONFIG))
            || bool_decide (stateFile CONFIG ∈ dirs (fs w))); [|reflexivity].
  destruct (fault w (OpRead (stateFile CONFIG))); [reflexivity|].
  destruct (files (fs w) !! stateFile CONFIG); [|reflexivity].
  destruct (JSON_parse_state rt s); reflexivity.
Qed.

(** The world after the two steps of [saveState], by cases: the
    directory is there or is created, then the file is written. *)
Lemma saveState_steps (state : Snapshot) (w : World AnomalyEvent) :
  saveState rt CONFIG state w
  = let found := bool_decide (is_Some (files (fs w) !! path_dirname (stateFile CONFIG)))
                 || bool_decide (path_dirname (stateFile CONFIG) ∈ dirs (fs w)) in
    match (if found then (Normal tt, w)
        else mkdirSync (path_dirname (stateFile CONFIG)) w) with
    | (Throw e, w1) => (Normal tt,
        with_log w1 (mkLog Stderr "Error saving state:"
                     (Some (ArgError e))))
    | (Normal _, w1) =>
        match writeFileSync (stateFile CONFIG)
                (JSON_stringify_state rt state) w1 with
        | (Throw e, w2) => (Normal tt,
            with_log w2 (mkLog Stderr "Error saving state:"
                         (Some (ArgError e))))
        | (Normal _, w2) => (Normal tt, w2)
        end
    end.
Proof.
  unfold saveState, try_catch, bind, existsSync, ret, console_error,
    console_write. cbn [fs].
  destruct (bool_decide (is_Some (files (fs w) !! path_dirname (stateFile CONFIG)))
            || bool_decide (path_dirname (stateFile CONFIG) ∈ dirs (fs w)));
    cbn zeta iota beta.
  - destruct (writeFileSync _ _ w) as [[[]|e] w2]; reflexivity.
  - destruct (mkdirSync (path_dirname (stateFile CONFIG)) w)
      as [[[]|e] w1]; [|reflexivity].
    destruct (writeFileSync _ _ w1) as [[[]|e] w2]; reflexivity.
Qed.

(** [saveState] returns normally, whatever happens. *)
Lemma saveState_normal (state : Snapshot) (w : World AnomalyEvent) :
  fst (saveState rt CONFIG state w) = Normal tt.
Proof.
  rewrite saveState_steps. cbn zeta.
  destruct (bool_decide _ || bool_decide _).
  - destruct (writeFileSync _ _ w) as [[[]|e] w2]; reflexivity.
  - destruct (mkdirSync (path_dirname (stateFile CONFIG)) w)
      as [[[]|e] w1]; [|reflexivity].
    destruct (writeFileSync _ _ w1) as [[[]|e] w2]; reflexivity.
Qed.

(** When no step fails the state file holds the serialization and
    nothing else changes but the directory that may be created. *)
Lemma saveState_ok (state : Snapshot) (w : World AnomalyEvent) :
  fault w (OpMkdir (path_dirname (stateFile CONFIG))) = None ->
  fault w (OpWrite (stateFile CONFIG)) = None ->
  files (fs w) !! path_dirname (stateFile CONFIG) = None
  \/ path_dirname (stateFile CONFIG) ∈ dirs (fs w) ->
  exists ds,
    saveState rt CONFIG state w
    = (Normal tt,
       set_fs {| files := <[ stateFile CONFIG := JSON_stringify_state rt state ]>
                            (files (fs w));
                 dirs := ds |} w).
Proof.
  intros Hm Hw Hd. rewrite saveState_steps. cbn zeta.
  destruct (decide (path_dirname (stateFile CONFIG) ∈ dirs (fs w)))
      as [Hin|Hnin].
  - rewrite (bool_decide_eq_true_2 _ Hin), orb_true_r.
    unfold writeFileSync. 
    rewrite (bool_decide_eq_true_2 _ Hin), Hw. eauto.
  - destruct Hd as [Hd|Hd]; [|contradiction].
    rewrite (bool_decide_eq_false_2 _ Hnin), orb_false_r.
    rewrite bool_decide_eq_false_2 by (rewrite Hd; apply is_Some_None).
    unfold mkdirSync. rewrite Hm.
    unfold writeFileSync. cbn [fs fault dirs files set_fs torn].
    rewrite bool_decide_eq_true_2 by set_solver. rewrite Hw. eauto.
Qed.

(** When the directory is missing and cannot be created, the error is
    logged and the file system is left as it was. *)
Lemma saveState_mkdir_fails (state : Snapshot) (w : World AnomalyEvent) e :
  fault w (OpMkdir (path_dirname (stateFile CONFIG))) = Some e ->
  files (fs w) !! path_dirname (stateFile CONFIG) = None ->
  path_dirname (stateFile CONFIG) ∉ dirs (fs w) ->
  saveState rt CONFIG state w = (Normal tt,
      with_log w (mkLog Stderr "Error saving state:"
                  (Some (ArgError e)))).
Proof.
  intros Hm Hd Hnin. rewrite saveState_steps. cbn zeta.
  rewrite (bool_decide_eq_false_2 _ Hnin), orb_false_r.
  rewrite bool_decide_eq_false_2 by (rewrite Hd; apply is_Some_None).
  unfold mkdirSync. now rewrite Hm.
Qed.

(** When the write fails, the error is logged; the state file is as it
    was, or it was opened and holds the bytes that were written before
    the failure. *)
Lemma saveState_write_fails (state : Snapshot) (w : World AnomalyEvent) e :
  fault w (OpWrite (stateFile CONFIG)) = Some e ->
  (fault w (OpMkdir (path_dirname (stateFile CONFIG))) = None
   \/ is_Some (files (fs w) !! path_dirname (stateFile CONFIG))
   \/ path_dirname (stateFile CONFIG) ∈ dirs (fs w)) ->
  let w' := snd (saveState rt CONFIG state w) in
  console w' = console w ++ [ mkLog Stderr "Error saving state:"
                                (Some (ArgError e)) ]
  /\ match torn w (stateFile CONFIG) with
     | Some n =>
         path_dirname (stateFile CONFIG) ∈ dirs (fs w') ->
         files (fs w') !! stateFile CONFIG
         = Some (String.substring 0 n (JSON_stringify_state rt state))
     | None => files (fs w') = files (fs w)
     end
  /\ (path_dirname (stateFile CONFIG) ∉ dirs (fs w') -> files (fs w') = files (fs w)).
Proof.
  intros Hw Hm w'. subst w'. rewrite saveState_steps. cbn zeta.
  destruct (bool_decide (is_Some (files (fs w) !! path_dirname (stateFile CONFIG)))
            || bool_decide (path_dirname (stateFile CONFIG) ∈ dirs (fs w))) eqn:Ef.
  - unfold writeFileSync. rewrite Hw.
    destruct (bool_decide (path_dirname (stateFile CONFIG) ∈ dirs (fs w))) eqn:Ed.
    + destruct (torn w (stateFile CONFIG)) as [n|]; cbn.
      * split; [reflexivity|]. split; [intros _; apply lookup_insert_eq|].
        apply bool_decide_eq_true_1 in Ed. intros Hnin. contradiction.
      * repeat split.
    + cbn. split; [reflexivity|].
      split; [|reflexivity].
      destruct (torn w (stateFile CONFIG)); [|reflexivity].
      apply bool_decide_eq_false_1 in Ed. intros Hin. contradiction.
  - apply orb_false_iff in Ef. destruct Ef as [Ef Ed].
    apply bool_decide_eq_false_1 in Ef. apply bool_decide_eq_false_1 in Ed.
    destruct Hm as [Hm|[Hm|Hm]]; [|contradiction|contradiction].
    unfold mkdirSync. rewrite Hm.
    unfold writeFileSync. cbn [fs fault dirs files set_fs torn].
    rewrite bool_decide_eq_true_2 by set_solver. rewrite Hw.
    destruct (torn w (stateFile CONFIG)) as [n|]; cbn.
    + split; [reflexivity|]. split; [intros _; apply lookup_insert_eq|].
      intros Hnin. exfalso. apply Hnin. set_solver.
    + repeat split.
Qed.

(** Whatever happens, the log gets nothing or one line. *)
Lemma saveState_console (state : Snapshot) (w : World AnomalyEvent) :
  let w' := snd (saveState rt CONFIG state w) in
  console w' = console w
  \/ exists e, console w' = console w ++ [ mkLog Stderr "Error saving state:"
                                             (Some (ArgError e)) ].
Proof.
  cbn zeta. rewrite saveState_steps. cbn zeta.
  assert (Hw : forall w1 : World AnomalyEvent,
             console w1 = console w ->
             let r := writeFileSync (stateFile CONFIG)
                        (JSON_stringify_state rt state) w1 in
             console (snd r) = console w).
  { intros w1 H1. unfold writeFileSync.
    destruct (bool_decide _); destruct (fault w1 _); try destruct (torn w1 _);
      exact H1. }
  destruct (bool_decide (is_Some (files (fs w) !! path_dirname (stateFile CONFIG)))
            || bool_decide (path_dirname (stateFile CONFIG) ∈ dirs (fs w))).
  - specialize (Hw w eq_refl). cbn zeta in Hw.
    destruct (writeFileSync _ _ w) as [[[]|e] w2]; cbn [snd] in *.
    + now left.
    + right. exists e. cbn. now rewrite Hw.
  - unfold mkdirSync.
    destruct (fault w (OpMkdir (path_dirname (stateFile CONFIG)))) as [e|].
    + right. now exists e.
    + match goal with
      | |- context [writeFileSync _ _ ?w1] =>
          specialize (Hw w1 eq_refl); cbn zeta in Hw;
          destruct (writeFileSync (stateFile CONFIG)
                      (JSON_stringify_state rt state) w1) as [[[]|e] w2]
      end; cbn [snd] in *.
      * now left.
      * right. exists e. cbn. now rewrite Hw.
Qed.

(** When nothing is logged the file was written. *)
Lemma saveState_silent (state : Snapshot) (w : World AnomalyEvent) :
  let w' := snd (saveState rt CONFIG state w) in
  console w' = console w ->
  files (fs w') !! stateFile CONFIG = Some (JSON_stringify_state rt state).
Proof.
  cbn zeta. rewrite saveState_steps. cbn zeta.
  assert (Hne : forall l (x : LogLine AnomalyEvent), l ++ [x] <> l).
  { intros l x E. apply (f_equal (@length _)) in E.
    rewrite List.length_app in E. cbn in E. lia. }
  assert (Hw : forall w1 : World AnomalyEvent,
             console w1 = console w ->
             match writeFileSync (stateFile CONFIG)
                     (JSON_stringify_state rt state) w1 with
             | (Throw e, w2) => console w2 = console w
             | (Normal _, w2) =>
                 files (fs w2) !! stateFile CONFIG
                 = Some (JSON_stringify_state rt state)
             end).
  { intros w1 H1. unfold writeFileSync.
    destruct (bool_decide _); destruct (fault w1 _); try destruct (torn w1 _);
      first [exact H1 | apply lookup_insert_eq]. }
  destruct (bool_decide (is_Some (files (fs w) !! path_dirname (stateFile CONFIG)))
            || bool_decide (path_dirname (stateFile CONFIG) ∈ dirs (fs w))).
  - specialize (Hw w eq_refl).
    destruct (writeFileSync _ _ w) as [[[]|e] w2]; cbn [snd].
    + intros _. exact Hw.
    + cbn. rewrite Hw. intros E. now apply Hne in E.
  - unfold mkdirSync.
    destruct (fault w (OpMkdir (path_dirname (stateFile CONFIG)))) as [e|].
    + cbn. intros E. now apply Hne in E.
    + match goal with
      | |- context [writeFileSync _ _ ?w1] =>
          specialize (Hw w1 eq_refl);
          destruct (writeFileSync (stateFile CONFIG)
                      (JSON_stringify_state rt state) w1) as [[[]|e] w2]
      end; cbn [snd].
      * intros _. exact Hw.
      * cbn. rewrite Hw. intros E. now apply Hne in E.
Qed.

End StateStore.

Section StateStoreClaims.
Import JS Node NetworkMonitor Props.

(** C3. [loadState] never raises; it returns [null] when the state file
    is missing and when its text fails to parse; [detectAnomalies]
    returns the empty list on a [null] baseline, so in both cases the
    cycle that follows detects nothing. *)
Theorem loadState_no_baseline (rt : Runtime) (CONFIG : Config)
    (w : World AnomalyEvent) :
  (exists r, fst (loadState rt CONFIG w) = Normal r)
  /\ (files (fs w) !! stateFile CONFIG = None ->
      fst (loadState rt CONFIG w) = Normal None)
  /\ (forall text e,
        files (fs w) !! stateFile CONFIG = Some text ->
        JSON_parse_state rt text = Throw e ->
        fst (loadState rt CONFIG w) = Normal None)
  /\ (forall clock S, detectAnomalies clock S None = [])
  /\ (forall clock S r,
        fst (loadState rt CONFIG w) = Normal r ->
        (files (fs w) !! stateFile CONFIG = None
         \/ exists text e, files (fs w) !! stateFile CONFIG = Some text
                           /\ JSON_parse_state rt text = Throw e) ->
        detectAnomalies clock S r = []).
Proof.
  assert (Hmiss : files (fs w) !! stateFile CONFIG = None ->
                  fst (loadState rt CONFIG w) = Normal None).
  { intros H. rewrite loadState_result, H.
    destruct (_ || _); [|reflexivity].
    destruct (fault w _); reflexivity. }
  assert (Hbad : forall text e,
             files (fs w) !! stateFile CONFIG = Some text ->
             JSON_parse_state rt text = Throw e ->
             fst (loadState rt CONFIG w) = Normal None).
  { intros text e H Hp. rewrite loadState_result, H, Hp.
    destruct (_ || _); [|reflexivity].
    destruct (fault w _); reflexivity. }
  split; [rewrite loadState_result; eauto|].
  split; [exact Hmiss|]. split; [exact Hbad|]. split; [reflexivity|].
  intros clock S r Hr [H|(text & e & H & Hp)].
  - rewrite (Hmiss H) in Hr. injection Hr as <-. reflexivity.
  - rewrite (Hbad text e H Hp) in Hr. injection Hr as <-. reflexivity.
Qed.

Lemma loadState_no_baseline_witness :
  fst (loadState rt0 cfg0 (world_of no_fault None)) = Normal None
  /\ fst (loadState rt0 cfg0 (world_of no_fault (Some "{ports: ["))) = Normal None
  /\ detectAnomalies clock0 (quiet 65) None = [].
Proof.
  split; [|split].
  - apply (proj1 (proj2 (loadState_no_baseline rt0 cfg0 (world_of no_fault None)))).
    reflexivity.
  - apply (proj1 (proj2 (proj2
             (loadState_no_baseline rt0 cfg0
                (world_of no_fault (Some "{ports: ["))))) "{ports: [" SyntaxError).
    + apply lookup_singleton_eq.
    + reflexivity.
  - apply (proj2 (proj2 (proj2 (proj2
             (loadState_no_baseline rt0 cfg0 (world_of no_fault None)))))
             clock0 (quiet 65) None).
    + apply (proj1 (proj2 (loadState_no_baseline rt0 cfg0 (world_of no_fault None)))).
      reflexivity.
    + left. reflexivity.
Defined.

(** C6 as stated fails: with the disk full the write throws, and
    [saveState] still returns normally. *)
Lemma saveState_swallows_disk_full :
  fst (writeFileSync (stateFile cfg0) (JSON_stringify_state rt0 (quiet 0))
         (world_of disk_full None))
  = Throw ENOSPC
  /\ fst (saveState rt0 cfg0 (quiet 0) (world_of disk_full None)) = Normal tt.
Proof. split; [reflexivity | apply saveState_normal]. Qed.

(** C6, amended. [saveState] never fails towards its caller: it returns
    normally and adds to the log nothing or one line. When no step
    fails nothing is logged and the state file holds the serialized
    snapshot, and nothing is logged only when it does. An error of the
    directory creation, and an error of the write, is caught and
    reported on the error log with that error. After a failed directory
    creation the file system is as it was. After a failed write the
    state file is as it was when the file could not be opened;
    otherwise it holds the bytes that were written before the failure,
    not the previous state. *)
Theorem saveState_absorbs_failures (rt : Runtime) (CONFIG : Config)
    (state : Snapshot) (w : World AnomalyEvent) :
  let dir := path_dirname (stateFile CONFIG) in
  let text := JSON_stringify_state rt state in
  let w' := snd (saveState rt CONFIG state w) in
  let reported (e : Error) :=
    console w' = console w ++ [ mkLog Stderr "Error saving state:"
                                  (Some (ArgError e)) ] in
  fst (saveState rt CONFIG state w) = Normal tt
  /\ (console w' = console w \/ exists e, reported e)
  /\ (fault w (OpMkdir dir) = None ->
      fault w (OpWrite (stateFile CONFIG)) = None ->
      files (fs w) !! dir = None \/ dir ∈ dirs (fs w) ->
      console w' = console w /\ files (fs w') !! stateFile CONFIG = Some text)
  /\ (console w' = console w -> files (fs w') !! stateFile CONFIG = Some text)
  /\ (forall e,
        fault w (OpMkdir dir) = Some e ->
        files (fs w) !! dir = None -> dir ∉ dirs (fs w) ->
        reported e /\ fs w' = fs w)
  /\ (forall e,
        fault w (OpWrite (stateFile CONFIG)) = Some e ->
        fault w (OpMkdir dir) = None
        \/ is_Some (files (fs w) !! dir) \/ dir ∈ dirs (fs w) ->
        reported e
        /\ (torn w (stateFile CONFIG) = None -> files (fs w') = files (fs w))
        /\ (dir ∉ dirs (fs w') -> files (fs w') = files (fs w))
        /\ (forall n,
              torn w (stateFile CONFIG) = Some n -> dir ∈ dirs (fs w') ->
              files (fs w') !! stateFile CONFIG
              = Some (String.substring 0 n text))).
Proof.
  intros dir text w' reported. subst dir text w' reported. cbv beta.
  split; [apply saveState_normal|].
  split; [apply saveState_console|].
  split.
  { intros Hm Hw Hd.
    destruct (saveState_ok rt CONFIG state w Hm Hw Hd) as (ds & ->).
    cbn. split; [reflexivity | apply lookup_insert_eq]. }
  split; [apply saveState_silent|].
  split.
  { intros e Hm Hd Hnin.
    rewrite (saveState_mkdir_fails rt CONFIG state w e Hm Hd Hnin).
    split; reflexivity. }
  intros e Hw Hm.
  destruct (saveState_write_fails rt CONFIG state w e Hw Hm) as (Hc & Ht & Hn).
  split; [exact Hc|]. split; [|split; [exact Hn|]].
  - intros E. now rewrite E in Ht.
  - intros n E. now rewrite E in Ht.
Qed.

Lemma saveState_absorbs_failures_witness :
  console (snd (saveState rt0 cfg0 (quiet 0)
                  (world_of disk_full (Some "null"))))
  = [ mkLog Stderr "Error saving state:" (Some (ArgError ENOSPC)) ]
  /\ files (fs (snd (saveState rt0 cfg0 (quiet 0)
                       (world_of disk_full (Some "null")))))
     !! stateFile cfg0
     = Some "".
Proof.
  pose proof (proj2 (proj2 (proj2 (proj2 (proj2
                (saveState_absorbs_failures rt0 cfg0 (quiet 0)
                   (world_of disk_full (Some "null")))))))
                ENOSPC eq_refl (or_introl eq_refl)) as (Hc & _ & _ & Hn).
  split; [exact Hc|].
  apply (Hn 0 eq_refl). vm_compute. reflexivity.
Defined.

(** Without a webhook the alert is written to the log and nothing is
    sent. *)
Lemma sendAlert_no_webhook (rt : Runtime) (CONFIG : Config)
    (alert : AnomalyEvent) (w : World AnomalyEvent) :
  alertWebhook CONFIG = None ->
  fst (sendAlert rt CONFIG alert w) = Normal tt
  /\ console (snd (sendAlert rt CONFIG alert w))
     = console w ++ [ mkLog Stdout "Alert (no webhook configured):"
                        (Some (ArgObject alert)) ]
  /\ outbox (snd (sendAlert rt CONFIG alert w)) = outbox w.
Proof. intros H. unfold sendAlert. rewrite H. repeat split. Qed.

(** The two callbacks of the request only write to the log. *)
Lemma sendAlert_callbacks_normal (w : World AnomalyEvent) statusCode err :
  fst (sendAlert_onResponse statusCode w) = Normal tt
  /\ fst (sendAlert_onError err w) = Normal tt.
Proof.
  unfold sendAlert_onResponse, sendAlert_onError.
  destruct (negb (statusCode =? 204)); split; reflexivity.
Qed.

(** C7. With [DISCORD_WEBHOOK_URL] set to [not-a-url], [new URL] throws
    and [sendAlert] raises the TypeError to its caller, whatever the
    event; nothing is logged and nothing is sent. *)
Theorem sendAlert_raises_on_malformed_webhook (rt : Runtime)
    (alert : AnomalyEvent) (w : World AnomalyEvent) :
  sendAlert rt cfg_bad alert w = (Throw invalid_URL, w).
Proof. reflexivity. Qed.

End StateStoreClaims.

(** ** Properties of the aggregator *)

Section AggregatorLemmas.
Import JS Node ThreatAggregator AggProps.

Lemma fold_left_add {A} (f : A -> nat) (l : list A) (a : nat) :
  List.fold_left (fun sum t => sum + f t) l a = a + list_sum (List.map f l).
Proof.
  revert a. induction l as [|x l IH]; intros a.
  - cbn. lia.
  - cbn [List.fold_left]. rewrite IH. cbn. symmetry. apply Nat.add_assoc.
Qed.

(** One entry per source result, in the same order. *)
Lemma summarize_sources_length now ts :
  length (sources (summarize now ts)) = length ts.
Proof. cbn. apply List.length_map. Qed.

(** [totalThreats] adds up the lengths of the [items] arrays and
    [highSeverity] the numbers of items whose severity is [high]. *)
Lemma summarize_totals now ts :
  totalThreats (summarize now ts) = list_sum (List.map contribution ts)
  /\ highSeverity (summarize now ts) = list_sum (List.map high_items ts).
Proof.
  split; cbn.
  - apply (fold_left_add contribution ts 0).
  - apply (fold_left_add high_items ts 0).
Qed.

(** A failed fetch has count 0 in the summary, and status [error] when
    the message of its error is not empty. *)
Lemma failed_entry now src e :
  sources (summarize now [failed src e])
  = [ {| name := Some src;
         status := match message e with
                   | EmptyString => "ok"
                   | _ => "error"
                   end;
         st_count := 0 |} ].
Proof. reflexivity. Qed.

Lemma map_items_length f l its :
  map_items f l = Normal its -> length its = length l.
Proof.
  revert its. induction l as [|v l IH]; intros its; cbn.
  - intros [= <-]. reflexivity.
  - destruct (f v) as [i|e]; [|discriminate].
    destruct (map_items f l) as [is'|e]; [|discriminate].
    intros [= <-]. cbn. now rewrite (IH is').
Qed.

Lemma slice10_map_length what arr f its :
  slice10_map what arr f = Normal its ->
  exists l, arr = JArr l /\ length its = Nat.min 10 (length l).
Proof.
  destruct arr; cbn; try discriminate.
  intros H. eexists. split; [reflexivity|].
  rewrite (map_items_length _ _ _ H). apply List.length_firstn.
Qed.

Variable rt : Runtime.
Variable now : string.

Lemma fetchRansomwareVictims_success :
  error (fetchRansomwareVictims rt now) = None ->
  exists resp l,
    httpRequest rt (s_url SOURCES_ransomware) no_options = Normal resp
    /\ json resp = JArr l
    /\ truncated l (fetchRansomwareVictims rt now).
Proof.
  unfold fetchRansomwareVictims. fold no_options.
  destruct (httpRequest rt (s_url SOURCES_ransomware) no_options)
    as [resp|e]; cbn; [|discriminate].
  destruct (nullish (json resp)); cbn; [discriminate|].
  destruct (slice10_map "victims" (json resp) (victim_item)) as [its|e] eqn:E;
    cbn; [|discriminate].
  intros _. destruct (slice10_map_length _ _ _ _ E) as (l & Hl & Hlen).
  exists resp, l. rewrite Hl. repeat split. exists its. now split.
Qed.

Lemma fetchMaliciousURLs_success :
  error (fetchMaliciousURLs rt now) = None ->
  exists resp l,
    httpRequest rt (s_url SOURCES_urlhaus) urlhaus_options = Normal resp
    /\ or_else (prop (json resp) "urls") (JArr []) = JArr l
    /\ truncated l (fetchMaliciousURLs rt now).
Proof.
  unfold fetchMaliciousURLs. fold urlhaus_options.
  destruct (httpRequest rt (s_url SOURCES_urlhaus) urlhaus_options)
    as [resp|e]; cbn; [|discriminate].
  destruct (nullish (json resp)); cbn; [discriminate|].
  destruct (slice10_map "urls" (or_else (prop (json resp) "urls") (JArr []))
              url_item) as [its|e] eqn:E; cbn; [|discriminate].
  intros _. destruct (slice10_map_length _ _ _ _ E) as (l & Hl & Hlen).
  exists resp, l. rewrite Hl. repeat split. exists its. now split.
Qed.

Lemma fetchIOCs_success :
  error (fetchIOCs rt now) = None ->
  exists resp l,
    httpRequest rt (s_url SOURCES_threatfox) threatfox_options = Normal resp
    /\ or_else (prop (json resp) "data") (JArr []) = JArr l
    /\ truncated l (fetchIOCs rt now).
Proof.
  unfold fetchIOCs. fold threatfox_options.
  destruct (httpRequest rt (s_url SOURCES_threatfox) threatfox_options)
    as [resp|e]; cbn; [|discriminate].
  destruct (nullish (json resp)); cbn; [discriminate|].
  destruct (slice10_map "iocs" (or_else (prop (json resp) "data") (JArr []))
              (ioc_item rt)) as [its|e] eqn:E; cbn; [|discriminate].
  intros _. destruct (slice10_map_length _ _ _ _ E) as (l & Hl & Hlen).
  exists resp, l. rewrite Hl. repeat split. exists its. now split.
Qed.

Lemma truncated_bounds l r :
  truncated l r ->
  exists n its, count r = Some n /\ items r = Some its
                /\ length its <= 10 /\ length its <= n.
Proof.
  intros (Hc & its & Hi & Hlen). exists (length l), its.
  repeat split; auto; lia.
Qed.

End AggregatorLemmas.

Section AggregatorClaims.
Import JS Node ThreatAggregator AggProps.

(** C9. A fetch that succeeded records as [count] the length of the
    list the feed returned and keeps as [items] the first ten elements
    of that list, normalized: [items] has at most 10 entries and never
    more than [count]; this holds for the three fetchers, hence for
    every successful entry of an aggregation cycle. The count of a
    summary entry can exceed what the source adds to [totalThreats]:
    with eleven victims upstream the entry counts 11 and the total is
    10. *)
Theorem count_before_truncation (rt : Runtime) (clock : nat -> string) :
  (error (fetchRansomwareVictims rt (clock 0)) = None ->
   exists resp l,
     httpRequest rt (s_url SOURCES_ransomware) no_options = Normal resp
     /\ json resp = JArr l
     /\ truncated l (fetchRansomwareVictims rt (clock 0)))
  /\ (error (fetchMaliciousURLs rt (clock 1)) = None ->
      exists resp l,
        httpRequest rt (s_url SOURCES_urlhaus) urlhaus_options = Normal resp
        /\ or_else (prop (json resp) "urls") (JArr []) = JArr l
        /\ truncated l (fetchMaliciousURLs rt (clock 1)))
  /\ (error (fetchIOCs rt (clock 2)) = None ->
      exists resp l,
        httpRequest rt (s_url SOURCES_threatfox) threatfox_options = Normal resp
        /\ or_else (prop (json resp) "data") (JArr []) = JArr l
        /\ truncated l (fetchIOCs rt (clock 2)))
  /\ (forall r, In r (threats (aggregate_output rt clock)) ->
                error r = None ->
                exists n its, count r = Some n /\ items r = Some its
                              /\ length its <= 10 /\ length its <= n)
  /\ (List.map st_count (sources (summary (aggregate_output rt_eleven clock)))
      = [11; 0; 0]
      /\ List.map contribution (threats (aggregate_output rt_eleven clock))
         = [10; 0; 0]
      /\ totalThreats (summary (aggregate_output rt_eleven clock)) = 10).
Proof.
  split; [apply fetchRansomwareVictims_success|].
  split; [apply fetchMaliciousURLs_success|].
  split; [apply fetchIOCs_success|].
  split.
  - intros r [<-|[<-|[<-|[]]]] Hr; cbn [threat_of] in *.
    + destruct (fetchRansomwareVictims_success rt _ Hr) as (? & l & _ & _ & H).
      exact (truncated_bounds l _ H).
    + destruct (fetchMaliciousURLs_success rt _ Hr) as (? & l & _ & _ & H).
      exact (truncated_bounds l _ H).
    + destruct (fetchIOCs_success rt _ Hr) as (? & l & _ & _ & H).
      exact (truncated_bounds l _ H).
  - vm_compute. repeat split.
Qed.

Lemma count_before_truncation_witness :
  exists resp l,
    httpRequest rt_eleven (s_url SOURCES_ransomware) no_options = Normal resp
    /\ json resp = JArr l
    /\ truncated l (fetchRansomwareVictims rt_eleven (Props.clock0 0)).
Proof.
  apply (proj1 (count_before_truncation rt_eleven Props.clock0)).
  reflexivity.
Defined.

(** C4. Two of the three fetchers fail with an error whose message is
    empty and the third succeeds: the summary has three entries and the
    two failed ones have count 0, but their status is [ok], not
    [error]. *)
Theorem failed_source_with_empty_message_reported_ok (clock : nat -> string) :
  let out := aggregate_output rt_two_down clock in
  List.map error (threats out) = [Some ""; Some ""; None]
  /\ sources (summary out)
     = [ {| name := Some "Ransomware.live"; status := "ok"; st_count := 0 |};
         {| name := Some "URLhaus"; status := "ok"; st_count := 0 |};
         {| name := Some "ThreatFox"; status := "ok"; st_count := 1 |} ]
  /\ totalThreats (summary out) = 1
  /\ highSeverity (summary out) = 1.
Proof. vm_compute. repeat split. Qed.

(** What the summary of a cycle always satisfies: three entries; count
    0 for a fetcher that failed, and status [error] when the message of
    its error is not empty; the two totals add up over the results. *)
Lemma aggregate_summary (rt : Runtime) (clock : nat -> string) :
  let out := aggregate_output rt clock in
  length (sources (summary out)) = 3
  /\ totalThreats (summary out) = list_sum (List.map contribution (threats out))
  /\ highSeverity (summary out) = list_sum (List.map high_items (threats out))
  /\ (forall src e, message e <> "" ->
        sources (summarize (clock 3) [failed src e])
        = [ {| name := Some src; status := "error"; st_count := 0 |} ]).
Proof.
  intros out. split; [reflexivity|].
  split; [apply summarize_totals|]. split; [apply summarize_totals|].
  intros src e He. rewrite failed_entry.
  destruct (message e); [congruence|reflexivity].
Qed.

End AggregatorClaims.

(** ** Checks of the model on concrete inputs *)

Section Examples.
Import JS Node NetworkMonitor Props.

Example split_colon : split ":" "10.0.0.5:4444" = ["10.0.0.5"; "4444"].
Proof. reflexivity. Qed.

Example split_empty : split ":" "" = [""].
Proof. reflexivity. Qed.

Example split_ipv6 : last_segment "[::1]:8080" = "8080".
Proof. reflexivity. Qed.

Example split_ws_line :
  split_ws "tcp   LISTEN 0  128   0.0.0.0:22  0.0.0.0:*"
  = ["tcp"; "LISTEN"; "0"; "128"; "0.0.0.0:22"; "0.0.0.0:*"].
Proof. reflexivity. Qed.

Example split_ws_blank : split_ws "  " = [""; ""].
Proof. reflexivity. Qed.

Example parseInt_prefix : parseInt "4444abc" = of_Z 4444.
Proof. reflexivity. Qed.

Example parseInt_hex : parseInt "0x115c" = of_Z 4444.
Proof. reflexivity. Qed.

Example parseInt_wildcard : parseInt "*" = NaN.
Proof. reflexivity. Qed.

Example round_half_up :
  Math_round (div (of_Z 5) (of_Z 2)) = R_int 3
  /\ Math_round (div (of_Z (-5)) (of_Z 2)) = R_int (-2)
  /\ Math_round (div (of_Z (-1)) (of_Z 4)) = R_zero true.
Proof. vm_compute. repeat split. Qed.

(** The examples of the specification: 20 to 45 connections is no
    spike, 30 to 65 is one, reported as 117%. *)
Example no_spike_20_45 :
  detectAnomalies clock0 (quiet 45) (Some (quiet 20)) = [].
Proof. vm_compute. reflexivity. Qed.

Example spike_30_65 :
  detectAnomalies clock0 (quiet 65) (Some (quiet 30))
  = [ mkEvent "connection_spike" "high" (Spike (mkSpike 30 65 "117%"))
        (clock0 0) ].
Proof. vm_compute. reflexivity. Qed.

(** The percentage is computed on binary64 values: 401/200 - 1 falls
    just under 1.005 and the result is 100, not 101. *)
Example increase_401_200 : increase_of 401 200 = "100%".
Proof. vm_compute. reflexivity. Qed.

Example listening_ports_of_listing :
  getListeningPorts_on
    {| status := 0;
       stdout := ss_header
         ++ "tcp   LISTEN 0      128    0.0.0.0:22   0.0.0.0:*" ++ newline
         ++ "udp   UNCONN 0      0      127.0.0.53%lo:53   0.0.0.0:*" ++ newline;
       stderr := "" |}
  = Normal [ tcp_22 ].
Proof. vm_compute. reflexivity. Qed.

(** A no-break space (U+00A0, the bytes 194 and 160) is a blank for
    [parseInt] and for the split on [\s+]; the pictograph of the alert
    is two code units in four bytes. *)
Example parseInt_no_break_space :
  parseInt (bytes [194; 160] ++ "4444") = of_Z 4444.
Proof. reflexivity. Qed.

Example split_ws_no_break_space :
  split_ws ("my" ++ bytes [194; 160] ++ "proc") = ["my"; "proc"].
Proof. reflexivity. Qed.

Example length_of_pictograph :
  length_utf16 "🚨 **" = 5 /\ String.length "🚨 **" = 7.
Proof. split; reflexivity. Qed.

(** A turn of the loop on a host with one listening port and no state
    file: nothing is detected and the snapshot is saved. *)
Example first_turn_is_quiet :
  let w := {| fs := fs (world_of no_fault None);
              fault := no_fault;
              torn := emptied;
              proc := fun cmd =>
                {| status := 0;
                   stdout := ss_header
                     ++ "tcp   LISTEN 0      128    0.0.0.0:22   0.0.0.0:*"
                     ++ newline;
                   stderr := "" |};
              console := []; outbox := [] |} in
  let r := monitor_turn rt0 cfg0 "2024-01-01T00:00:00.000Z" clock0 w in
  fst r = Normal tt
  /\ List.map text (console (snd r))
     = [ "[2024-01-01T00:00:00.000Z] Running network scan...";
         "Connections: 1 (0 established)";
         "Listening Ports: 1";
         "No anomalies detected" ]
  /\ files (fs (snd r)) !! stateFile cfg0 = Some "{}"
  /\ outbox (snd r) = [].
Proof. vm_compute. repeat split. Qed.

End Examples.

(** ** Further properties of the detector *)

Section DetectorMore.
Import JS Node NetworkMonitor Props.

Lemma split_go_nonempty sep s cur : split_go sep s cur <> [].
Proof.
  revert cur. induction s as [|c s IH]; intros cur; cbn; [discriminate|].
  destruct (Ascii.eqb c sep); [discriminate | apply IH].
Qed.

(** The last segment of [a ++ sep ++ b] is the last segment of [b]. *)
Lemma last_split_go_app sep a b cur :
  List.last (split_go sep (a ++ String sep b) cur) ""
  = List.last (split_go sep b "") "".
Proof.
  revert cur. induction a as [|c a IH]; intros cur; simpl.
  - rewrite Ascii.eqb_refl.
    destruct (split_go sep b "") eqn:E; [now apply split_go_nonempty in E|].
    reflexivity.
  - destruct (Ascii.eqb c sep).
    + rewrite <- (IH "").
      destruct (split_go sep (a ++ String sep b) "") eqn:E;
        [now apply split_go_nonempty in E|]. reflexivity.
    + apply IH.
Qed.

Lemma last_segment_app a b :
  last_segment (a ++ ":" ++ b) = last_segment b.
Proof. unfold last_segment, split. apply last_split_go_app. Qed.

Lemma event_type_cases clock cur prev e :
  In e (detectAnomalies clock cur (Some prev)) ->
  type e = "new_listening_port" \/ type e = "connection_spike"
  \/ type e = "suspicious_port".
Proof.
  rewrite detectAnomalies_shape.
  repeat match goal with
         | |- context [if ?b then _ else _] => destruct b
         end; cbn; intros H;
    repeat match goal with
           | H : _ \/ _ |- _ => destruct H as [H|H]
           | H : False |- _ => destruct H
           end; subst e; cbn; tauto.
Qed.

(** X1. The [suspicious_port] rule fires exactly when some current
    connection has a peer port of the fixed list; there is then exactly
    one such event, of severity [critical], and it lists the matching
    connections and no other, each as often and in the order it occurs in
    [current.connections]; the previous snapshot plays no part. *)
Theorem suspicious_port_rule (clock : nat -> string) (cur prev : Snapshot) :
  let evs := detectAnomalies clock cur (Some prev) in
  let matching :=
    List.filter (fun c => includes suspiciousPorts (peerPort c))
                (connections cur) in
  (fires "suspicious_port" evs <-> matching <> [])
  /\ length (events_of_type "suspicious_port" evs)
     = (match matching with [] => 0 | _ => 1 end)
  /\ (forall e, In e evs -> type e = "suspicious_port" ->
        severity e = "critical" /\ listed_conns e = matching).
Proof.
  intros evs matching. subst evs.
  pose proof (suspicious_events clock cur prev) as Hev.
  fold matching in Hev.
  split; [|split].
  - rewrite fires_events_of_type, Hev.
    destruct matching; cbn; split; congruence.
  - rewrite Hev. destruct matching; reflexivity.
  - intros e Hin Hty.
    destruct (suspicious_event_inv clock cur prev e Hin Hty) as [Hs Hd].
    split; [exact Hs|]. unfold listed_conns. now rewrite Hd.
Qed.

(** X2. The result holds at most three events, at most one per rule and
    in the order new_listening_port, connection_spike, suspicious_port;
    the event at position [k] carries the [k]-th clock reading. *)
Theorem detectAnomalies_order (clock : nat -> string) (cur prev : Snapshot) :
  let evs := detectAnomalies clock cur (Some prev) in
  length evs <= 3
  /\ (exists b1 b2 b3 : bool,
        List.map type evs
        = (if b1 then ["new_listening_port"] else [])
          ++ (if b2 then ["connection_spike"] else [])
          ++ (if b3 then ["suspicious_port"] else []))
  /\ List.map timestamp evs = List.map clock (List.seq 0 (length evs)).
Proof.
  intros evs. subst evs. rewrite detectAnomalies_shape.
  match goal with
  | |- context [if ?b then [mkEvent "new_listening_port" _ _ _] else _] =>
      set (b1 := b)
  end.
  match goal with
  | |- context [if ?b then [mkEvent "connection_spike" _ _ _] else _] =>
      set (b2 := b)
  end.
  match goal with
  | |- context [if ?b then [mkEvent "suspicious_port" _ _ _] else _] =>
      set (b3 := b)
  end.
  split; [|split].
  - destruct b1, b2, b3; cbn; lia.
  - exists b1, b2, b3. destruct b1, b2, b3; reflexivity.
  - destruct b1, b2, b3; reflexivity.
Qed.

(** X3. Comparing a snapshot with itself never reports a new listening
    port or a connection spike: every event of the result is a
    [suspicious_port] event. *)
Theorem detectAnomalies_same_snapshot (clock : nat -> string) (S : Snapshot) :
  forall e, In e (detectAnomalies clock S (Some S)) ->
            type e = "suspicious_port".
Proof.
  intros e Hin.
  destruct (event_type_cases clock S S e Hin) as [Hty|[Hty|Hty]];
    [exfalso|exfalso|exact Hty].
  - assert (Hf : fires "new_listening_port" (detectAnomalies clock S (Some S)))
      by (exists e; auto).
    apply new_port_fires_iff in Hf. destruct Hf as (q & Hq & Hnew).
    apply Hnew. now apply in_map.
  - assert (Hf : fires "connection_spike" (detectAnomalies clock S (Some S)))
      by (exists e; auto).
    apply spike_fires_iff in Hf. lia.
Qed.

(** X4. A current connection whose peer is any text followed by a colon
    and one of the six listed port numbers in decimal is listed by the
    [suspicious_port] event, whatever precedes the last colon (an IPv4
    address, a bracketed IPv6 address, a host name). *)
Theorem suspicious_port_lists_listed_port
    (clock : nat -> string) (cur prev : Snapshot) (conn : Connection)
    (host d : string) :
  In d ["4444"; "5555"; "6666"; "8888"; "31337"; "12345"] ->
  peer conn = Some (host ++ ":" ++ d)%string ->
  In conn (connections cur) ->
  exists e, In e (detectAnomalies clock cur (Some prev))
            /\ type e = "suspicious_port"
            /\ In conn (listed_conns e).
Proof.
  intros Hd Hpeer Hin.
  assert (Hport : includes suspiciousPorts (peerPort conn) = true).
  { unfold peerPort. rewrite Hpeer.
    assert (Hseg : last_segment (host ++ ":" ++ d) = d).
    { rewrite last_segment_app.
      cbn in Hd. repeat destruct Hd as [<-|Hd]; try reflexivity. destruct Hd. }
    destruct (host ++ ":" ++ d)%string eqn:E.
    - destruct host; discriminate E.
    - rewrite Hseg.
      cbn in Hd. repeat destruct Hd as [<-|Hd]; try reflexivity. destruct Hd. }
  assert (Hm : In conn (List.filter
                          (fun c => includes suspiciousPorts (peerPort c))
                          (connections cur)))
    by (apply filter_In; auto).
  assert (Hf : fires "suspicious_port" (detectAnomalies clock cur (Some prev))).
  { apply fires_events_of_type. rewrite suspicious_events.
    destruct (List.filter _ (connections cur)) as [|c0 l];
      [destruct Hm | discriminate]. }
  destruct Hf as (e & He & Hty). exists e. split; [exact He|].
  split; [exact Hty|].
  destruct (suspicious_event_inv clock cur prev e He Hty) as [_ Hdet].
  unfold listed_conns. rewrite Hdet. exact Hm.
Qed.

Lemma suspicious_port_lists_listed_port_witness :
  exists e, In e (detectAnomalies clock0
                    (snapshot_of [conn_to (Some "[2001:db8::1]:31337")] [])
                    (Some (quiet 0)))
            /\ type e = "suspicious_port"
            /\ In (conn_to (Some "[2001:db8::1]:31337")) (listed_conns e).
Proof.
  apply (suspicious_port_lists_listed_port clock0
           (snapshot_of [conn_to (Some "[2001:db8::1]:31337")] [])
           (quiet 0) (conn_to (Some "[2001:db8::1]:31337"))
           "[2001:db8::1]" "31337").
  - cbn. tauto.
  - reflexivity.
  - cbn. tauto.
Defined.

Lemma detectAnomalies_same_snapshot_witness :
  exists e, In e (detectAnomalies clock0 (snapshot_of [conn_4444] [tcp_22])
                    (Some (snapshot_of [conn_4444] [tcp_22])))
            /\ type e = "suspicious_port".
Proof.
  eexists. split; [vm_compute; left; reflexivity|].
  apply (detectAnomalies_same_snapshot clock0
           (snapshot_of [conn_4444] [tcp_22])).
  vm_compute. left. reflexivity.
Defined.

End DetectorMore.

(** ** Further properties of the collector *)

Section CollectorMore.
Import JS Node NetworkMonitor Props ExtraProps.

Lemma has_char_app c a b :
  has_char c (a ++ b) = has_char c a || has_char c b.
Proof.
  induction a as [|x a IH]; [reflexivity|].
  rewrite append_cons. simpl. rewrite IH. now rewrite orb_assoc.
Qed.

(** No segment of a split holds the separator. *)
Lemma split_go_no_sep sep s cur x :
  has_char sep cur = false ->
  In x (split_go sep s cur) -> has_char sep x = false.
Proof.
  revert cur. induction s as [|c s IH]; intros cur Hcur; simpl.
  - intros [<-|[]]. exact Hcur.
  - destruct (Ascii.eqb c sep) eqn:E.
    + intros [<-|H]; [exact Hcur|]. now apply (IH "").
    + apply IH. rewrite has_char_app, Hcur. simpl. now rewrite E.
Qed.

(** A text without separator, followed by the separator, is a segment of
    its own. *)
Lemma split_go_segment sep a b cur :
  has_char sep a = false ->
  split_go sep (a ++ String sep b) cur = (cur ++ a)%string :: split_go sep b "".
Proof.
  revert cur. induction a as [|c a IH]; intros cur Ha.
  - rewrite append_nil_l, append_nil_r. simpl. now rewrite Ascii.eqb_refl.
  - simpl in Ha. apply orb_false_iff in Ha. destruct Ha as [Hc Ha].
    rewrite append_cons. simpl. rewrite Hc, (IH _ Ha), append_assoc.
    reflexivity.
Qed.



Lemma In_removelast {A} (l : list A) x : In x (List.removelast l) -> In x l.
Proof.
  induction l as [|a l IH]; simpl; [tauto|].
  destruct l; [intros []|]. intros [<-|H]; [now left | right; now apply IH].
Qed.

Lemma lines_of_no_newline text l :
  In l (lines_of text) -> has_char (ascii_of_nat 10) l = false.
Proof.
  unfold lines_of, split. intros H.
  apply (split_go_no_sep (ascii_of_nat 10) text "" l eq_refl).
  destruct (List.last _ _); [now apply In_removelast | exact H].
Qed.

(** Printing lines and splitting the output on newlines gives the lines
    back, followed by the empty text after the last newline. *)
Lemma split_printed_lines ls :
  (forall l, In l ls -> has_char (ascii_of_nat 10) l = false) ->
  split (ascii_of_nat 10)
    (String.concat "" (List.map (fun l : string => (l ++ newline)%string) ls))
  = ls ++ [""].
Proof.
  unfold split, newline. induction ls as [|l ls IH]; intros H; [reflexivity|].
  assert (Hl : has_char (ascii_of_nat 10) l = false) by (apply H; now left).
  assert (IH' := IH (fun x Hx => H x (or_intror Hx))).
  cbn [List.map app].
  destruct ls as [|l' ls].
  - cbn [List.map String.concat].
    rewrite (split_go_segment _ l "" "" Hl). reflexivity.
  - change (String.concat "" ((l ++ String (ascii_of_nat 10) "")%string
                              :: List.map _ (l' :: ls)))
      with ((l ++ String (ascii_of_nat 10) "")
            ++ String.concat "" (List.map
                 (fun l : string => (l ++ String (ascii_of_nat 10) "")%string)
                 (l' :: ls)))%string.
    rewrite append_assoc, append_cons, append_nil_l.
    rewrite (split_go_segment _ l _ "" Hl), IH'. reflexivity.
Qed.

Lemma contains_LISTEN_has_L l :
  contains "LISTEN" l = true -> has_char "L" l = true.
Proof.
  induction l as [|c l IH]; [discriminate|].
  cbn [contains has_char]. rewrite prefix_cons.
  intros H. apply orb_true_iff in H. destruct H as [H|H].
  - destruct (Ascii.eqb "L" c) eqn:E; [|discriminate H].
    rewrite Ascii.eqb_sym, E. reflexivity.
  - rewrite (IH H). apply orb_true_r.
Qed.

Lemma blank_run_no_L ws : blank_run ws -> has_char "L" ws = false.
Proof.
  induction 1 as [|b s Hb Hs IH]; [reflexivity|].
  rewrite has_char_app, IH, orb_false_r.
  vm_compute in Hb.
  repeat (destruct Hb as [Hb|Hb]; [subst; reflexivity|]). destruct Hb.
Qed.

(** A line that mentions [LISTEN] is not made of blanks. *)
Lemma contains_LISTEN_not_blank l :
  contains "LISTEN" l = true -> trim_truthy l = true.
Proof.
  intros H. apply contains_LISTEN_has_L in H. unfold trim_truthy.
  destruct (skip_ws_spec l) as (ws & Hws & Hl & _).
  destruct (skip_ws l); [|reflexivity].
  rewrite append_nil_r in Hl. subst l.
  now rewrite (blank_run_no_L ws Hws) in H.
Qed.

(** *** Segments of a split on blanks *)

Lemma append_snoc_split (cur u v : string) c :
  (cur ++ String c "")%string = (u ++ v)%string -> v <> "" ->
  exists v', v = (v' ++ String c "")%string /\ cur = (u ++ v')%string.
Proof.
  revert u. induction cur as [|x cur IH]; intros u H Hv.
  - rewrite append_nil_l in H. destruct u as [|y u].
    + rewrite append_nil_l in H. subst v. now exists "".
    + rewrite append_cons in H. injection H as _ H.
      destruct u; [destruct v; [congruence | discriminate H] | discriminate H].
  - rewrite append_cons in H. destruct u as [|y u].
    + rewrite append_nil_l in H. subst v.
      exists (String x cur). now rewrite append_nil_l.
    + rewrite append_cons in H. injection H as <- H.
      destruct (IH u H Hv) as (v' & -> & ->). now exists v'.
Qed.

Lemma clean_nil s : clean "" s.
Proof.
  intros u v H Hv. destruct u; [|discriminate H].
  rewrite append_nil_l in H. congruence.
Qed.

Lemma clean_snoc cur c s :
  clean cur (String c s) -> blank_width (String c s) = 0 ->
  clean (cur ++ String c "") s.
Proof.
  intros Hc H0 u v H Hv.
  destruct (append_snoc_split cur u v c H Hv) as (v' & -> & ->).
  rewrite append_assoc, append_cons, append_nil_l.
  destruct v' as [|y v']; [exact H0|].
  apply (Hc u (String y v') eq_refl). discriminate.
Qed.

Lemma clean_has_ws cur s : clean cur s -> has_ws cur = false.
Proof.
  induction cur as [|c cur IH]; intros Hc; [reflexivity|].
  cbn [has_ws]. rewrite IH.
  - rewrite orb_false_r.
    rewrite (blank_width_0_cut (String c cur) s); [reflexivity|].
    apply (Hc "" (String c cur) eq_refl). discriminate.
  - intros u v -> Hv. apply (Hc (String c u) v); [reflexivity | exact Hv].
Qed.

(** No segment of a split on blanks holds a blank. *)
Lemma split_ws_go_no_ws s cur inws x :
  clean cur s ->
  In x (split_ws_go s cur inws) -> has_ws x = false.
Proof.
  remember (String.length s) as n eqn:En. revert s En cur inws x.
  induction n as [n IH] using lt_wf_ind. intros s En cur inws x Hc.
  destruct s as [|c s1].
  - intros [<-|[]]. exact (clean_has_ws cur "" Hc).
  - destruct (Nat.eq_dec (blank_width (String c s1)) 0) as [H0|Hn].
    + rewrite (split_ws_go_0 c s1 cur inws H0).
      apply (IH (String.length s1)); [subst n; cbn; lia | reflexivity |].
      now apply clean_snoc.
    + destruct (blank_width_split _ Hn) as (b & t & Hb & E). rewrite E.
      rewrite (split_ws_go_blank b t cur inws Hb).
      assert (Hlt : String.length t < n).
      { subst n. rewrite E, length_append.
        pose proof (blank_nonempty b Hb). destruct b; [congruence|cbn; lia]. }
      assert (Ht : forall y, In y (split_ws_go t "" true) -> has_ws y = false)
        by (intros y; apply (IH _ Hlt t eq_refl "" true), clean_nil).
      destruct inws; [apply Ht|].
      intros [<-|H]; [exact (clean_has_ws cur _ Hc) | now apply Ht].
Qed.

(** *** Columns and separators *)

Lemma prefix_app_cases p v s :
  String.prefix p (v ++ s) = true ->
  String.prefix p v = true
  \/ exists w, w <> "" /\ p = (v ++ w)%string /\ String.prefix w s = true.
Proof.
  revert p. induction v as [|c v IH]; intros p H.
  - destruct p as [|x p]; [left; reflexivity|].
    right. exists (String x p). rewrite append_nil_l in *.
    repeat split; [discriminate | exact H].
  - destruct p as [|x p]; [left; reflexivity|].
    rewrite append_cons, prefix_cons in H. rewrite prefix_cons.
    destruct (Ascii.eqb x c) eqn:E; [|discriminate H].
    apply Ascii.eqb_eq in E. subst x.
    destruct (IH p H) as [Hp|(w & Hw & -> & Hs)]; [now left|].
    right. exists w. now rewrite append_cons.
Qed.

(** The bytes that follow the first one in a blank start no blank. *)
Lemma blank_tail_not_head p v w b x w' b' :
  In p blanks -> In b blanks ->
  p = (v ++ w)%string -> v <> "" ->
  w = String x w' -> b = String x b' -> False.
Proof.
  intros Hp Hb -> Hv -> ->.
  vm_compute in Hp.
  repeat (destruct Hp as [Hp|Hp];
          [ destruct v as [|v0 [|v1 [|v2 v3]]];
            [ congruence
            | try discriminate Hp
            | try discriminate Hp
            | try discriminate Hp;
              try (destruct v3; discriminate Hp) ];
            injection Hp as <-; intros; subst;
            vm_compute in Hb;
            repeat (destruct Hb as [Hb|Hb]; [discriminate Hb|]);
            exact Hb
          |]).
  exact Hp.
Qed.

(** A text that starts with no blank starts with none when a blank
    follows it. *)
Lemma blank_width_0_before_blank v b t :
  v <> "" -> blank_width v = 0 -> In b blanks ->
  blank_width (v ++ b ++ t) = 0.
Proof.
  intros Hv H0 Hb. apply blank_width_0. intros p Hp.
  destruct (String.prefix p (v ++ b ++ t)) eqn:E; [|reflexivity]. exfalso.
  destruct (prefix_app_cases p v _ E) as [Hpv|(w & Hw & Hpw & Hws)].
  - rewrite blank_width_0 in H0. rewrite (H0 p Hp) in Hpv. discriminate.
  - destruct w as [|x w']; [congruence|].
    pose proof (blank_nonempty b Hb) as Hbn.
    destruct b as [|y b']; [congruence|].
    rewrite append_cons, prefix_cons in Hws.
    destruct (Ascii.eqb x y) eqn:Exy; [|discriminate Hws].
    apply Ascii.eqb_eq in Exy. subst y.
    exact (blank_tail_not_head p v (String x w') (String x b') x w' b'
             Hp Hb Hpw Hv eq_refl eq_refl).
Qed.

Lemma has_ws_false_suffix c u v :
  has_ws c = false -> c = (u ++ v)%string -> v <> "" -> blank_width v = 0.
Proof.
  revert c. induction u as [|x u IH]; intros c H E Hv.
  - rewrite append_nil_l in E. subst c. destruct v; [congruence|].
    cbn [has_ws] in H. apply orb_false_iff in H. destruct H as [H _].
    apply negb_false_iff, Nat.eqb_eq in H. exact H.
  - subst c. rewrite append_cons in H. cbn [has_ws] in H.
    apply orb_false_iff in H. destruct H as [_ H].
    now apply (IH _ H eq_refl).
Qed.

Lemma column_clean c t : has_ws c = false -> ends_column t -> clean c t.
Proof.
  intros Hc Ht u v E Hv.
  pose proof (has_ws_false_suffix c u v Hc E Hv) as H0.
  destruct Ht as [->|(b & t' & Hb & ->)].
  - now rewrite append_nil_r.
  - now apply blank_width_0_before_blank.
Qed.

(** A text in which no blank starts is read whole into the segment. *)
Lemma split_ws_go_clean c t cur inws :
  c <> "" -> clean c t ->
  split_ws_go (c ++ t) cur inws = split_ws_go t (cur ++ c) false.
Proof.
  revert cur inws. induction c as [|x c IH]; intros cur inws Hne Hc;
    [congruence|].
  rewrite append_cons.
  rewrite split_ws_go_0
    by (rewrite <- append_cons; apply (Hc "" (String x c) eq_refl); discriminate).
  destruct c as [|y c].
  - now rewrite append_nil_l.
  - rewrite (IH (cur ++ String x "")%string false); [|discriminate|].
    + now rewrite append_assoc.
    + intros u v E Hv. apply (Hc (String x u) v); [|exact Hv].
      now rewrite append_cons, E.
Qed.

(** A run of blanks after a column ends the column. *)
Lemma split_ws_go_run b s cur :
  blank_run b -> b <> "" ->
  split_ws_go (b ++ s) cur false = cur :: split_ws_go s "" true.
Proof.
  intros Hb Hne.
  assert (Hin : forall b, blank_run b ->
            split_ws_go (b ++ s) "" true = split_ws_go s "" true).
  { induction 1 as [|x r Hx Hr IHr]; [reflexivity|].
    now rewrite append_assoc, (split_ws_go_blank x _ "" true Hx). }
  destruct Hb as [|x r Hx Hr]; [congruence|].
  rewrite append_assoc, (split_ws_go_blank x _ cur false Hx).
  now rewrite (Hin r Hr).
Qed.

Lemma separator_starts_blank b t :
  is_separator b -> ends_column (b ++ t).
Proof.
  intros [Hb Hne]. right. destruct Hb as [|x r Hx Hr]; [congruence|].
  exists x, (r ++ t)%string. split; [exact Hx | apply append_assoc].
Qed.

(** Splitting a well-formed row on blanks gives its columns. *)
Lemma split_ws_go_line_of c0 rest cur inws :
  well_formed_row c0 rest ->
  split_ws_go (line_of c0 rest) cur inws
  = (cur ++ c0)%string :: List.map snd rest.
Proof.
  unfold well_formed_row.
  revert c0 cur inws. induction rest as [|[b c] rest IH];
    intros c0 cur inws [Hc0 Hrest];
    unfold is_column in Hc0; apply andb_true_iff in Hc0;
    destruct Hc0 as [Hne Hws];
    apply negb_true_iff in Hws;
    assert (Hn0 : c0 <> "") by (destruct c0; [discriminate Hne | discriminate]).
  - cbn [line_of]. rewrite <- (append_nil_r c0) at 1.
    rewrite (split_ws_go_clean c0 "" cur inws Hn0);
      [reflexivity | apply column_clean; [exact Hws | now left]].
  - inversion Hrest as [|? ? [Hb Hc] Hrest']; subst. cbn [fst snd] in *.
    cbn [line_of].
    rewrite (split_ws_go_clean c0 _ cur inws Hn0)
      by (apply column_clean; [exact Hws | now apply separator_starts_blank]).
    destruct Hb as [Hb Hbn].
    rewrite (split_ws_go_run b _ _ Hb Hbn).
    rewrite (IH c "" true); [reflexivity|]. now split.
Qed.

(** X5. When the listing has lines that mention [LISTEN] and what the
    pipeline writes fits in the buffer of [exec], [getListeningPorts] is
    resolved with one port per such line, in the order of the listing,
    and every other line (the header, the UNCONN sockets) is left out;
    the world is not changed. When it does not fit, the promise is
    rejected, whatever the lines are. *)
Theorem getListeningPorts_one_per_LISTEN_line (w : World AnomalyEvent) :
  let selected :=
    List.filter (contains "LISTEN") (lines_of (stdout (proc w "ss -tuln"))) in
  selected <> [] ->
  (fits_maxBuffer (ss_tuln_grep_LISTEN (proc w "ss -tuln")) ->
   getListeningPorts w = (Normal (List.map parsePort selected), w))
  /\ (~ fits_maxBuffer (ss_tuln_grep_LISTEN (proc w "ss -tuln")) ->
      is_normal (fst (getListeningPorts w)) = false).
Proof.
  intros selected Hne. split.
  - intros [Hout Herr].
    assert (Hsel : forall l, In l selected ->
                     has_char (ascii_of_nat 10) l = false
                     /\ trim_truthy l = true).
    { intros l Hl. apply filter_In in Hl. destruct Hl as [Hl Hc]. split.
      - exact (lines_of_no_newline _ l Hl).
      - now apply contains_LISTEN_not_blank. }
    unfold getListeningPorts, getListeningPorts_on, exec_error.
    rewrite Hout, Herr.
    unfold ss_tuln_grep_LISTEN, grep.
    fold selected. cbn [status stdout]. clearbody selected.
    replace (match selected with [] => 1 | _ => 0 end) with 0
      by (destruct selected; [congruence | reflexivity]).
    cbn [Nat.eqb].
    rewrite split_printed_lines by (intros l Hl; apply Hsel, Hl).
    rewrite List.filter_app.
    change (List.filter trim_truthy [""]) with (@nil string).
    rewrite app_nil_r.
    rewrite (forallb_filter_id trim_truthy selected); [reflexivity|].
    apply forallb_forall. intros l Hl. apply Hsel, Hl.
  - intros Hfit. unfold getListeningPorts, getListeningPorts_on, exec_error.
    cbn [fst]. unfold fits_maxBuffer in Hfit.
    destruct (exceeds_maxBuffer (stdout _)); [reflexivity|].
    destruct (exceeds_maxBuffer (stderr _)); [reflexivity|].
    exfalso. apply Hfit. split; reflexivity.
Qed.

Lemma getListeningPorts_one_per_LISTEN_line_witness :
  getListeningPorts (world_printing ss_two_listeners)
  = (Normal [ tcp_22;
              {| protocol := "tcp"; port := "8080"; address := "[::]:8080" |} ],
     world_printing ss_two_listeners).
Proof.
  apply (proj1 (getListeningPorts_one_per_LISTEN_line
                  (world_printing ss_two_listeners)
                  ltac:(vm_compute; discriminate))).
  split; vm_compute; reflexivity.
Defined.



(** X7. A line made of columns, separated by runs of blanks, is parsed
    into those columns: protocol, state, the two queues, local and peer
    address are the first six, the process label is the seventh or
    [unknown] when the line has six columns or fewer, and columns after
    the seventh are not read. A column is a text that is not empty and
    holds no blank, and a blank is any white-space or line-terminator
    character, the no-break space and the other spaces beyond ASCII
    included. *)
Theorem parseConnection_columns (c0 : string) (rest : list (string * string)) :
  well_formed_row c0 rest ->
  let cols := c0 :: List.map snd rest in
  parseConnection (line_of c0 rest)
  = {| c_protocol := c0;
       c_state := List.nth_error cols 1;
       recv_q := List.nth_error cols 2;
       send_q := List.nth_error cols 3;
       local := List.nth_error cols 4;
       peer := List.nth_error cols 5;
       process := match List.nth_error cols 6 with
                  | Some p => p
                  | None => "unknown"
                  end |}.
Proof.
  intros H cols. unfold parseConnection, split_ws.
  rewrite (split_ws_go_line_of c0 rest "" false H), append_nil_l.
  fold cols. unfold at_index. cbn [List.nth]. f_equal.
  destruct (List.nth_error cols 6) as [p|] eqn:E; [|reflexivity].
  destruct p; [|reflexivity]. exfalso.
  apply nth_error_In in E.
  destruct H as [H0 Hr].
  destruct E as [E|E].
  - subst c0. discriminate H0.
  - apply in_map_iff in E. destruct E as ([b c] & Hc & Hin). cbn in Hc. subst c.
    rewrite List.Forall_forall in Hr. destruct (Hr _ Hin) as [_ Hr'].
    discriminate Hr'.
Qed.

Lemma parseConnection_columns_witness :
  parseConnection
    (line_of "tcp" [ ("   ", "ESTAB"); (" ", "0"); (bytes [194; 160; 9], "0");
                     ("  ", "192.168.1.10:51514"); ("   ", "10.0.0.5:4444") ])
  = {| c_protocol := "tcp"; c_state := Some "ESTAB"; recv_q := Some "0";
       send_q := Some "0"; local := Some "192.168.1.10:51514";
       peer := Some "10.0.0.5:4444"; process := "unknown" |}.
Proof.
  apply (parseConnection_columns "tcp"
           [ ("   ", "ESTAB"); (" ", "0"); (bytes [194; 160; 9], "0");
             ("  ", "192.168.1.10:51514"); ("   ", "10.0.0.5:4444") ]).
  split; [reflexivity|].
  assert (Hsp : In " " blanks) by (vm_compute; tauto).
  assert (Hnb : In (bytes [194; 160]) blanks) by (vm_compute; tauto).
  assert (Htab : In (bytes [9]) blanks) by (vm_compute; tauto).
  repeat constructor; try discriminate;
    first
      [ exact (blank_run_cons " " _ Hsp
                 (blank_run_cons " " _ Hsp
                    (blank_run_cons " " _ Hsp blank_run_nil)))
      | exact (blank_run_cons " " _ Hsp blank_run_nil)
      | exact (blank_run_cons (bytes [194; 160]) _ Hnb
                 (blank_run_cons (bytes [9]) _ Htab blank_run_nil))
      | exact (blank_run_cons " " _ Hsp
                 (blank_run_cons " " _ Hsp blank_run_nil)) ].
Defined.

(** X8. [getNetworkConnections] is resolved exactly when [ss] exits with
    status 0 and what it wrote to each of its streams fits in the buffer
    of [exec], an empty table included; a listing above the bound is
    rejected although the command succeeded. The world is left as it
    was. What comes before the first newline of the output is dropped,
    whatever it holds, and the connections are those parsed from the
    lines after it that are not blank, in order. No field of a
    connection holds a blank, and the process label is never empty. *)
Theorem getNetworkConnections_result (w : World AnomalyEvent) :
  let r := proc w "ss -tunapl" in
  (is_normal (fst (getNetworkConnections w)) = true
   <-> status r = 0 /\ fits_maxBuffer r)
  /\ snd (getNetworkConnections w) = w
  /\ (forall header body,
        status r = 0 -> fits_maxBuffer r ->
        has_char (ascii_of_nat 10) header = false ->
        stdout r = (header ++ newline ++ body)%string ->
        fst (getNetworkConnections w)
        = Normal (List.map parseConnection
                    (List.filter trim_truthy (split (ascii_of_nat 10) body))))
  /\ (forall conns, fst (getNetworkConnections w) = Normal conns ->
        forall c, In c conns ->
          process c <> ""
          /\ has_ws (c_protocol c) = false
          /\ (forall p, peer c = Some p -> has_ws p = false)
          /\ (forall p, local c = Some p -> has_ws p = false)).
Proof.
  intros r. subst r. unfold getNetworkConnections, exec_error, fits_maxBuffer.
  set (r := proc w "ss -tunapl").
  destruct (exceeds_maxBuffer (stdout r)) eqn:Eo; cbn [fst snd is_normal].
  { split; [split; [discriminate | intros (_ & H & _); discriminate H]|].
    split; [reflexivity|].
    split; [intros ? ? _ [H _]; discriminate H | intros ? H; discriminate H]. }
  destruct (exceeds_maxBuffer (stderr r)) eqn:Ee; cbn [fst snd is_normal].
  { split; [split; [discriminate | intros (_ & _ & H); discriminate H]|].
    split; [reflexivity|].
    split; [intros ? ? _ [_ H]; discriminate H | intros ? H; discriminate H]. }
  destruct (status r =? 0) eqn:E; cbn [fst snd is_normal].
  - apply Nat.eqb_eq in E. split; [tauto|]. split; [reflexivity|]. split.
    + intros header body _ _ Hh Hs. rewrite Hs. unfold split, newline.
      rewrite append_cons, append_nil_l.
      now rewrite (split_go_segment _ header body "" Hh).
    + intros conns [= <-] c Hc.
      apply in_map_iff in Hc. destruct Hc as (line & <- & _).
      unfold parseConnection. cbn [process c_protocol peer local].
      assert (Hseg : forall x, In x (split_ws line) -> has_ws x = false)
        by (intros x; apply (split_ws_go_no_ws line "" false x), clean_nil).
      split; [|split; [|split]].
      * destruct (at_index (split_ws line) 6) as [[|? ?]|]; discriminate.
      * destruct (split_ws line) as [|x l] eqn:El; [reflexivity|].
        apply Hseg. now left.
      * intros p Hp. apply Hseg. now apply nth_error_In in Hp.
      * intros p Hp. apply Hseg. now apply nth_error_In in Hp.
  - apply Nat.eqb_neq in E.
    split; [split; [discriminate | intros [H _]; congruence]|].
    split; [reflexivity|].
    split; [intros ? ? H; congruence | intros conns H; discriminate H].
Qed.

Lemma getNetworkConnections_result_witness :
  fst (getNetworkConnections (world_printing ss_busy))
  = Normal [ parseConnection
               "tcp   LISTEN 0      128    0.0.0.0:22   0.0.0.0:*";
             conn_4444 ].
Proof.
  apply (proj1 (proj2 (proj2
           (getNetworkConnections_result (world_printing ss_busy))))
           "Netid State  Recv-Q Send-Q Local Address:Port  Peer Address:Port Process"
           ("tcp   LISTEN 0      128    0.0.0.0:22   0.0.0.0:*" ++ newline
            ++ "tcp   ESTAB  0      0      192.168.1.10:51514   10.0.0.5:4444"
            ++ newline)%string).
  - reflexivity.
  - split; vm_compute; reflexivity.
  - reflexivity.
  - reflexivity.
Defined.

End CollectorMore.

(** ** Further properties of the alerts, the state store and the loop *)

Section MonitorMore.
Import JS Node NetworkMonitor Props ExtraProps.

Variable rt : Runtime.
Variable CONFIG : Config.

Lemma console_write_eq s msg a (w : World AnomalyEvent) :
  console_write s msg a w = (Normal tt, with_log w (mkLog s msg a)).
Proof. reflexivity. Qed.

(** What [loadState] does to the world, by cases on the state file. *)
Lemma loadState_missing (w : World AnomalyEvent) :
  files (fs w) !! stateFile CONFIG = None ->
  stateFile CONFIG ∉ dirs (fs w) ->
  loadState rt CONFIG w = (Normal None, w).
Proof.
  intros Hf Hd. unfold loadState, try_catch, bind, existsSync, ret.
  rewrite bool_decide_eq_false_2 by (rewrite Hf; apply is_Some_None).
  now rewrite (bool_decide_eq_false_2 _ Hd).
Qed.

Lemma loadState_readable (w : World AnomalyEvent) text :
  files (fs w) !! stateFile CONFIG = Some text ->
  fault w (OpRead (stateFile CONFIG)) = None ->
  loadState rt CONFIG w
  = match JSON_parse_state rt text with
    | Normal r => (Normal r, w)
    | Throw e => (Normal None,
                  with_log w (mkLog Stderr "Error loading state:"
                                (Some (ArgError e))))
    end.
Proof.
  intros Hf Hr. unfold loadState, try_catch, bind, existsSync, readFileSync,
    lift, ret.
  rewrite bool_decide_eq_true_2 by (rewrite Hf; eauto). cbn [orb].
  rewrite Hr, Hf. destruct (JSON_parse_state rt text); reflexivity.
Qed.

Lemma loadState_unreadable (w : World AnomalyEvent) e :
  is_Some (files (fs w) !! stateFile CONFIG) \/ stateFile CONFIG ∈ dirs (fs w) ->
  fault w (OpRead (stateFile CONFIG)) = Some e ->
  loadState rt CONFIG w
  = (Normal None,
     with_log w (mkLog Stderr "Error loading state:" (Some (ArgError e)))).
Proof.
  intros Hex Hr. unfold loadState, try_catch, bind, existsSync, readFileSync,
    lift, ret.
  replace (bool_decide (is_Some (files (fs w) !! stateFile CONFIG))
           || bool_decide (stateFile CONFIG ∈ dirs (fs w))) with true.
  - now rewrite Hr.
  - symmetry. apply orb_true_iff.
    destruct Hex as [H|H]; [left | right]; now apply bool_decide_eq_true_2.
Qed.

(** [loadState] leaves files, faults, commands and requests as they
    were. *)
Lemma loadState_frame (w : World AnomalyEvent) :
  let w' := snd (loadState rt CONFIG w) in
  fs w' = fs w /\ fault w' = fault w /\ proc w' = proc w
  /\ outbox w' = outbox w.
Proof.
  unfold loadState, try_catch, bind, existsSync, readFileSync, lift, ret.
  destruct (_ || _); cbn; [|tauto].
  destruct (fault w _); cbn; [tauto|].
  destruct (files (fs w) !! _); cbn; [|tauto].
  destruct (JSON_parse_state rt s); cbn; tauto.
Qed.


(** X10. The outcome of a request only reaches the log: status 204
    changes nothing, any other status and an error event each add one
    line to the error log; neither callback raises, and neither puts a
    request in the queue, so a failed alert is not sent again. *)
Theorem sendAlert_callbacks_only_log (statusCode : nat) (err : Error)
    (w : World AnomalyEvent) :
  sendAlert_onResponse 204 w = (Normal tt, w)
  /\ (statusCode <> 204 ->
      sendAlert_onResponse statusCode w
      = (Normal tt,
         with_log w (mkLog Stderr "Failed to send alert:"
                       (Some (ArgStatus statusCode)))))
  /\ sendAlert_onError err w
     = (Normal tt,
        with_log w (mkLog Stderr "Error sending alert:" (Some (ArgError err)))).
Proof.
  split; [reflexivity|]. split; [|reflexivity].
  intros Hne. unfold sendAlert_onResponse.
  apply Nat.eqb_neq in Hne. rewrite Hne. reflexivity.
Qed.

(** X11. With [DISCORD_WEBHOOK_URL] unset or set to the empty text,
    [sendAlert] writes the alert to the standard log, sends nothing and
    returns. *)
Theorem sendAlert_without_webhook (dirname : string) (alert : AnomalyEvent)
    (w : World AnomalyEvent) :
  let logged :=
    with_log w (mkLog Stdout "Alert (no webhook configured):"
                  (Some (ArgObject alert))) in
  sendAlert rt (CONFIG_of dirname None) alert w = (Normal tt, logged)
  /\ sendAlert rt (CONFIG_of dirname (Some "")) alert w = (Normal tt, logged).
Proof. split; reflexivity. Qed.

(** X12. When neither the directory creation nor the write is made to
    fail, [saveState] leaves the serialized snapshot in the state file,
    whatever the file held before, and logs nothing; a [loadState] that
    follows returns what the parser makes of that text, so the snapshot
    itself when parsing inverts serialization. *)
Theorem saveState_then_loadState (state : Snapshot) (w : World AnomalyEvent) :
  fault w (OpMkdir (path_dirname (stateFile CONFIG))) = None ->
  fault w (OpWrite (stateFile CONFIG)) = None ->
  fault w (OpRead (stateFile CONFIG)) = None ->
  files (fs w) !! path_dirname (stateFile CONFIG) = None
  \/ path_dirname (stateFile CONFIG) ∈ dirs (fs w) ->
  let w' := snd (saveState rt CONFIG state w) in
  fst (saveState rt CONFIG state w) = Normal tt
  /\ files (fs w') !! stateFile CONFIG = Some (JSON_stringify_state rt state)
  /\ console w' = console w
  /\ (forall r,
        JSON_parse_state rt (JSON_stringify_state rt state) = Normal r ->
        loadState rt CONFIG w' = (Normal r, w')).
Proof.
  intros Hm Hw Hr Hd w'. subst w'.
  destruct (saveState_ok rt CONFIG state w Hm Hw Hd) as (ds & ->). cbn [fst snd].
  split; [reflexivity|]. split; [apply lookup_insert_eq|].
  split; [reflexivity|]. intros r Hparse.
  rewrite (loadState_readable _ (JSON_stringify_state rt state)).
  - now rewrite Hparse.
  - apply lookup_insert_eq.
  - exact Hr.
Qed.

(** X13. Whether it succeeds or fails, [saveState] changes no file but
    the state file and sends nothing. *)
Theorem saveState_frame (state : Snapshot) (w : World AnomalyEvent) :
  let w' := snd (saveState rt CONFIG state w) in
  (forall path, path <> stateFile CONFIG ->
                files (fs w') !! path = files (fs w) !! path)
  /\ outbox w' = outbox w.
Proof.
  cbn zeta. rewrite saveState_steps. cbn zeta.
  assert (Hw : forall w1 : World AnomalyEvent,
             let r := writeFileSync (stateFile CONFIG)
                        (JSON_stringify_state rt state) w1 in
             (forall path, path <> stateFile CONFIG ->
                           files (fs (snd r)) !! path = files (fs w1) !! path)
             /\ outbox (snd r) = outbox w1).
  { intros w1. unfold writeFileSync.
    destruct (bool_decide _); destruct (fault w1 _); try destruct (torn w1 _);
      cbn; (split; [|reflexivity]); intros path Hne;
      first [reflexivity | now apply lookup_insert_ne]. }
  destruct (bool_decide _ || bool_decide _).
  - specialize (Hw w). cbn zeta in Hw.
    destruct (writeFileSync _ _ w) as [[[]|e] w2]; cbn in *; exact Hw.
  - unfold mkdirSync.
    destruct (fault w (OpMkdir _)) as [e|]; [cbn; tauto|].
    match goal with
    | |- context [writeFileSync _ _ ?w1] =>
        specialize (Hw w1); cbn zeta in Hw;
        destruct (writeFileSync (stateFile CONFIG)
                    (JSON_stringify_state rt state) w1) as [[[]|e] w2]
    end; cbn in *; exact Hw.
Qed.

(** X14. [loadState] reports a failure on the error log and nowhere
    else: with no state file it changes nothing; with a readable file
    that parses it returns the parsed value and changes nothing; when the
    text fails to parse, or the read fails, it returns [null] and adds
    one line carrying that error. *)
Theorem loadState_effect (w : World AnomalyEvent) :
  (files (fs w) !! stateFile CONFIG = None ->
   stateFile CONFIG ∉ dirs (fs w) ->
   loadState rt CONFIG w = (Normal None, w))
  /\ (forall text r,
        files (fs w) !! stateFile CONFIG = Some text ->
        fault w (OpRead (stateFile CONFIG)) = None ->
        JSON_parse_state rt text = Normal r ->
        loadState rt CONFIG w = (Normal r, w))
  /\ (forall text e,
        files (fs w) !! stateFile CONFIG = Some text ->
        fault w (OpRead (stateFile CONFIG)) = None ->
        JSON_parse_state rt text = Throw e ->
        loadState rt CONFIG w
        = (Normal None,
           with_log w (mkLog Stderr "Error loading state:" (Some (ArgError e)))))
  /\ (forall text e,
        files (fs w) !! stateFile CONFIG = Some text ->
        fault w (OpRead (stateFile CONFIG)) = Some e ->
        loadState rt CONFIG w
        = (Normal None,
           with_log w (mkLog Stderr "Error loading state:" (Some (ArgError e))))).
Proof.
  split; [apply loadState_missing|]. split; [|split].
  - intros text r Hf Hr Hp. now rewrite (loadState_readable w text Hf Hr), Hp.
  - intros text e Hf Hr Hp. now rewrite (loadState_readable w text Hf Hr), Hp.
  - intros text e Hf Hr. apply loadState_unreadable; [left; eauto | exact Hr].
Qed.

(** X15. A turn of the monitoring loop never raises: whatever the
    commands print, the file system does and the webhook is, it returns
    normally. *)
Theorem monitor_turn_never_raises (timestamp : string) (clock : nat -> string)
    (w : World AnomalyEvent) :
  fst (monitor_turn rt CONFIG timestamp clock w) = Normal tt.
Proof.
  unfold monitor_turn, try_catch.
  match goal with
  | |- fst (match ?b with _ => _ end) = _ => destruct b as [[[]|e] w']
  end; reflexivity.
Qed.

Lemma collectors_after_log (w : World AnomalyEvent) l :
  getNetworkConnections (with_log w l)
  = (fst (getNetworkConnections w), with_log w l)
  /\ getListeningPorts (with_log w l)
     = (fst (getListeningPorts w), with_log w l).
Proof.
  unfold getNetworkConnections, getListeningPorts. cbn [proc with_log].
  split; [|reflexivity].
  destruct (exec_error "ss -tunapl" (proc w "ss -tunapl")); reflexivity.
Qed.

Lemma loadState_after_log (w : World AnomalyEvent) l :
  fst (loadState rt CONFIG (with_log w l)) = fst (loadState rt CONFIG w).
Proof. rewrite !loadState_result. reflexivity. Qed.


(** X17. The first turn after a start, with no state file: when both
    commands succeed and the store can be written, no alert is sent, the
    turn reports that no anomaly was detected, and the snapshot it
    collected is left in the state file as the next baseline. *)
Theorem monitor_turn_first_turn (timestamp : string) (clock : nat -> string)
    (w : World AnomalyEvent) (cur : Snapshot) :
  current_snapshot timestamp w = Some cur ->
  files (fs w) !! stateFile CONFIG = None ->
  stateFile CONFIG ∉ dirs (fs w) ->
  fault w (OpMkdir (path_dirname (stateFile CONFIG))) = None ->
  fault w (OpWrite (stateFile CONFIG)) = None ->
  files (fs w) !! path_dirname (stateFile CONFIG) = None
  \/ path_dirname (stateFile CONFIG) ∈ dirs (fs w) ->
  let w' := snd (monitor_turn rt CONFIG timestamp clock w) in
  outbox w' = outbox w
  /\ files (fs w') !! stateFile CONFIG = Some (JSON_stringify_state rt cur)
  /\ exists l1 l2 l3,
       console w'
       = console w ++ [ l1; l2; l3; mkLog Stdout "No anomalies detected" None ].
Proof.
  intros Hcur Hf Hd Hm Hw Hdir w'. subst w'.
  unfold monitor_turn, try_catch, bind, console_log.
  rewrite console_write_eq.
  destruct (collectors_after_log w
              (mkLog Stdout ("[" ++ timestamp ++ "] Running network scan...") None))
    as [-> Hports].
  unfold current_snapshot in Hcur.
  destruct (fst (getNetworkConnections w)) as [conns|e]; [|discriminate Hcur].
  rewrite Hports.
  destruct (fst (getListeningPorts w)) as [ps|e]; [|discriminate Hcur].
  injection Hcur as <-.
  rewrite !console_write_eq.
  rewrite loadState_missing by (cbn [fs with_log]; assumption).
  cbn [detectAnomalies length Nat.ltb Nat.leb].
  rewrite console_write_eq.
  match goal with
  | |- context [saveState rt CONFIG ?st ?w4] =>
      destruct (saveState_ok rt CONFIG st w4 Hm Hw Hdir) as (ds & ->)
  end.
  cbn. split; [reflexivity|]. split; [apply lookup_insert_eq|].
  do 3 eexists. rewrite <- !app_assoc. reflexivity.
Qed.

(** X18. When an anomaly is detected and the webhook is not a URL, the
    exception of [sendAlert] ends the turn: it is written to the error
    log, the alerts that follow are not dispatched, and [saveState] is
    not reached, so the files are left as they were and the next turn
    compares against the same baseline. *)
Theorem monitor_turn_bad_webhook_skips_save (timestamp : string)
    (clock : nat -> string) (w : World AnomalyEvent) (cur : Snapshot)
    (prev : option Snapshot) (webhook : string) :
  current_snapshot timestamp w = Some cur ->
  fst (loadState rt CONFIG w) = Normal prev ->
  detectAnomalies clock cur prev <> [] ->
  alertWebhook CONFIG = Some webhook ->
  after_scheme webhook = None ->
  let w' := snd (monitor_turn rt CONFIG timestamp clock w) in
  fs w' = fs w
  /\ outbox w' = outbox w
  /\ exists before,
       console w'
       = before ++ [ mkLog Stderr "Error in monitoring loop:"
                       (Some (ArgError invalid_URL)) ].
Proof.
  intros Hcur Hload Hdet Hhook Hscheme w'. subst w'.
  unfold monitor_turn, try_catch, bind, console_log.
  rewrite console_write_eq.
  destruct (collectors_after_log w
              (mkLog Stdout ("[" ++ timestamp ++ "] Running network scan...") None))
    as [-> Hports].
  unfold current_snapshot in Hcur.
  destruct (fst (getNetworkConnections w)) as [conns|e]; [|discriminate Hcur].
  rewrite Hports.
  destruct (fst (getListeningPorts w)) as [ps|e]; [|discriminate Hcur].
  injection Hcur as <-.
  rewrite !console_write_eq.
  match goal with
  | |- context [loadState rt CONFIG ?w3] =>
      pose proof (loadState_frame w3) as Hfr;
      assert (Hres : fst (loadState rt CONFIG w3) = Normal prev)
        by (now rewrite !loadState_after_log);
      destruct (loadState rt CONFIG w3) as [c w4]
  end.
  cbn [fst snd] in Hfr, Hres. subst c.
  destruct Hfr as (Hfs & _ & _ & Hout). cbn [fs outbox with_log] in Hfs, Hout.
  destruct (detectAnomalies clock _ prev) as [|a l]; [congruence|].
  cbn [length Nat.ltb Nat.leb forEach].
  unfold bind. rewrite !console_write_eq.
  unfold sendAlert. rewrite Hhook. unfold bind, new_URL. rewrite Hscheme.
  cbn. split; [exact Hfs|]. split; [exact Hout|].
  eexists. reflexivity.
Qed.

End MonitorMore.

Section MonitorMoreWitnesses.
Import JS Node NetworkMonitor Props ExtraProps.


Lemma sendAlert_callbacks_only_log_witness :
  sendAlert_onResponse 500 (world_of no_fault None)
  = (Normal tt,
     with_log (world_of no_fault None)
       (mkLog Stderr "Failed to send alert:" (Some (ArgStatus 500)))).
Proof.
  apply (proj1 (proj2 (sendAlert_callbacks_only_log 500 ENOSPC
                         (world_of no_fault None)))).
  discriminate.
Defined.

Lemma saveState_then_loadState_witness :
  fst (loadState rt1 cfg0
         (snd (saveState rt1 cfg0 (quiet 0) (world_of no_fault (Some "old")))))
  = Normal (Some (quiet 0)).
Proof.
  rewrite (proj2 (proj2 (proj2
             (saveState_then_loadState rt1 cfg0 (quiet 0)
                (world_of no_fault (Some "old"))
                eq_refl eq_refl eq_refl
                (or_intror (proj2 (elem_of_singleton _ _) eq_refl)))))
             (Some (quiet 0)) eq_refl).
  reflexivity.
Defined.

Lemma saveState_frame_witness :
  files (fs (snd (saveState rt1 cfg0 (quiet 0) (world_of no_fault (Some "old")))))
    !! threatsFile cfg0
  = files (fs (world_of no_fault (Some "old"))) !! threatsFile cfg0.
Proof.
  apply (proj1 (saveState_frame rt1 cfg0 (quiet 0)
                  (world_of no_fault (Some "old")))).
  vm_compute. discriminate.
Defined.

Lemma loadState_effect_witness :
  loadState rt0 cfg0 (world_of no_fault (Some "{ports: ["))
  = (Normal None,
     with_log (world_of no_fault (Some "{ports: ["))
       (mkLog Stderr "Error loading state:" (Some (ArgError SyntaxError)))).
Proof.
  apply (proj1 (proj2 (proj2
           (loadState_effect rt0 cfg0 (world_of no_fault (Some "{ports: [")))))
           "{ports: [" SyntaxError).
  - apply lookup_singleton_eq.
  - reflexivity.
  - reflexivity.
Defined.


Lemma monitor_turn_first_turn_witness :
  outbox (snd (monitor_turn rt1 cfg0 "2024-01-01T00:00:00.000Z" clock0
                 (world_busy None)))
  = [].
Proof.
  eapply (monitor_turn_first_turn rt1 cfg0 "2024-01-01T00:00:00.000Z" clock0
            (world_busy None)).
  - vm_compute. reflexivity.
  - reflexivity.
  - vm_compute. set_solver.
  - reflexivity.
  - reflexivity.
  - right. vm_compute. reflexivity.
Defined.

Lemma monitor_turn_bad_webhook_skips_save_witness :
  fs (snd (monitor_turn rt1 cfg_bad "2024-01-01T00:05:00.000Z" clock0
             (world_busy (Some "2024-01-01T00:00:00.000Z"))))
  = fs (world_busy (Some "2024-01-01T00:00:00.000Z")).
Proof.
  eapply (monitor_turn_bad_webhook_skips_save rt1 cfg_bad
            "2024-01-01T00:05:00.000Z" clock0
            (world_busy (Some "2024-01-01T00:00:00.000Z"))).
  - vm_compute. reflexivity.
  - vm_compute. reflexivity.
  - vm_compute. discriminate.
  - reflexivity.
  - reflexivity.
Defined.

End MonitorMoreWitnesses.

(** ** Further properties of the aggregator *)

Section AggregatorMore.
Import JS Node ThreatAggregator AggProps AggExtraProps.

Variable rt : Runtime.

Lemma map_items_Forall (P : ThreatItem -> Prop) f l its :
  (forall v i, f v = Normal i -> P i) ->
  map_items f l = Normal its -> Forall P its.
Proof.
  intros Hf. revert its. induction l as [|v l IH]; intros its; cbn.
  - intros [= <-]. constructor.
  - destruct (f v) as [i|e] eqn:E; [|discriminate].
    destruct (map_items f l) as [is'|e]; [|discriminate].
    intros [= <-]. constructor; [now apply (Hf v) | now apply IH].
Qed.

Lemma slice10_map_Forall (P : ThreatItem -> Prop) what arr f its :
  (forall v i, f v = Normal i -> P i) ->
  slice10_map what arr f = Normal its -> Forall P its.
Proof.
  intros Hf. destruct arr; cbn; try discriminate.
  now apply map_items_Forall.
Qed.

(** The items of a result all come out of the fetcher's callback. *)
Lemma ransomware_items (P : ThreatItem -> Prop) now its :
  (forall v i, victim_item v = Normal i -> P i) ->
  items (fetchRansomwareVictims rt now) = Some its -> Forall P its.
Proof.
  intros Hf. unfold fetchRansomwareVictims.
  destruct (httpRequest rt _ _) as [resp|e]; cbn;
    [|intros [= <-]; constructor].
  destruct (nullish (json resp)); cbn; [intros [= <-]; constructor|].
  destruct (slice10_map "victims" (json resp) victim_item) as [l|e] eqn:E; cbn;
    [|intros [= <-]; constructor].
  intros [= <-]. exact (slice10_map_Forall P _ _ _ _ Hf E).
Qed.

Lemma urlhaus_items (P : ThreatItem -> Prop) now its :
  (forall v i, url_item v = Normal i -> P i) ->
  items (fetchMaliciousURLs rt now) = Some its -> Forall P its.
Proof.
  intros Hf. unfold fetchMaliciousURLs.
  destruct (httpRequest rt _ _) as [resp|e]; cbn;
    [|intros [= <-]; constructor].
  destruct (nullish (json resp)); cbn; [intros [= <-]; constructor|].
  destruct (slice10_map "urls" _ url_item) as [l|e] eqn:E; cbn;
    [|intros [= <-]; constructor].
  intros [= <-]. exact (slice10_map_Forall P _ _ _ _ Hf E).
Qed.

Lemma threatfox_items (P : ThreatItem -> Prop) now its :
  (forall v i, ioc_item rt v = Normal i -> P i) ->
  items (fetchIOCs rt now) = Some its -> Forall P its.
Proof.
  intros Hf. unfold fetchIOCs.
  destruct (httpRequest rt _ _) as [resp|e]; cbn;
    [|intros [= <-]; constructor].
  destruct (nullish (json resp)); cbn; [intros [= <-]; constructor|].
  destruct (slice10_map "iocs" _ (ioc_item rt)) as [l|e] eqn:E; cbn;
    [|intros [= <-]; constructor].
  intros [= <-]. exact (slice10_map_Forall P _ _ _ _ Hf E).
Qed.

(** A result with an error holds no item and no count. *)
Lemma fetch_failure_shape r now :
  In r [ fetchRansomwareVictims rt now; fetchMaliciousURLs rt now;
         fetchIOCs rt now ] ->
  error r <> None ->
  items r = Some [] /\ count r = None /\ timestamp r = None.
Proof.
  intros [<-|[<-|[<-|[]]]] Herr; revert Herr;
    unfold fetchRansomwareVictims, fetchMaliciousURLs, fetchIOCs;
    (destruct (httpRequest rt _ _) as [resp|e]; cbn; [|tauto]);
    (destruct (nullish (json resp)); cbn; [tauto|]);
    (destruct (slice10_map _ _ _) as [l|e]; cbn; [congruence | tauto]).
Qed.

Lemma fetch_sources now :
  source (fetchRansomwareVictims rt now) = Some "Ransomware.live"
  /\ source (fetchMaliciousURLs rt now) = Some "URLhaus"
  /\ source (fetchIOCs rt now) = Some "ThreatFox".
Proof.
  unfold fetchRansomwareVictims, fetchMaliciousURLs, fetchIOCs.
  repeat split;
    (destruct (httpRequest rt _ _) as [resp|e]; cbn; [|reflexivity]);
    (destruct (nullish (json resp)); cbn; [reflexivity|]);
    (destruct (slice10_map _ _ _) as [l|e]; reflexivity).
Qed.

Lemma map_victims_normal l :
  is_normal (map_items victim_item l)
  = forallb (fun v => negb (nullish v)) l.
Proof.
  induction l as [|v l IH]; [reflexivity|]. cbn [map_items forallb].
  unfold victim_item at 1. destruct (nullish v); cbn; [reflexivity|].
  rewrite <- IH. destruct (map_items victim_item l); reflexivity.
Qed.

(** X19. Every item of a result has the type and the severity of its
    source: victims are of type [victim] and severity [high] and have a
    name that is never empty or missing ([Unknown] by default), URLs are
    of type [url] and severity [medium], indicators are of type [ioc] and
    severity [high] or [medium]. *)
Theorem items_type_and_severity (now : string) :
  (forall its, items (fetchRansomwareVictims rt now) = Some its ->
     forall i, In i its ->
       type i = "victim" /\ severity i = "high"
       /\ exists n, assoc "name" (fields i) = Some n /\ truthy n = true)
  /\ (forall its, items (fetchMaliciousURLs rt now) = Some its ->
        forall i, In i its -> type i = "url" /\ severity i = "medium")
  /\ (forall its, items (fetchIOCs rt now) = Some its ->
        forall i, In i its ->
          type i = "ioc" /\ (severity i = "high" \/ severity i = "medium")).
Proof.
  split; [|split]; intros its Hits; apply List.Forall_forall.
  - apply (ransomware_items _ now its); [|exact Hits].
    intros v it. unfold victim_item. destruct (nullish v); [discriminate|].
    intros [= <-]. cbn. repeat split. eexists. split; [reflexivity|].
    unfold or_else. destruct (truthy (prop v "post_title")) eqn:E;
      [exact E | reflexivity].
  - apply (urlhaus_items _ now its); [|exact Hits].
    intros v it. unfold url_item. destruct (nullish v); [discriminate|].
    intros [= <-]. cbn. tauto.
  - apply (threatfox_items _ now its); [|exact Hits].
    intros v it. unfold ioc_item. destruct (nullish v); [discriminate|].
    intros [= <-]. cbn. split; [reflexivity|].
    destruct (ge _ _); tauto.
Qed.

Lemma ge_75_on_percentages :
  forallb (fun n => Bool.eqb (ge (of_nat n) (of_Z 75)) (75 <=? n))
          (List.seq 0 101) = true.
Proof. vm_compute. reflexivity. Qed.

(** X20. The severity of an indicator follows its confidence level: for
    a whole number between 0 and 100 it is [high] from 75 on and [medium]
    below, and it is [medium] when the level is missing or [null]. *)
Theorem ioc_severity_threshold (i : JSValue) (item : ThreatItem) :
  ioc_item rt i = Normal item ->
  (forall n, n <= 100 ->
     prop i "confidence_level" = JNum (of_nat n) ->
     severity item = if 75 <=? n then "high" else "medium")
  /\ (prop i "confidence_level" = JUndefined
      \/ prop i "confidence_level" = JNull ->
      severity item = "medium").
Proof.
  unfold ioc_item. destruct (nullish i); [discriminate|]. intros [= <-].
  cbn [severity]. split.
  - intros n Hn ->.
    pose proof ge_75_on_percentages as H.
    rewrite forallb_forall in H.
    specialize (H n ltac:(apply in_seq; lia)).
    apply Bool.eqb_prop in H.
    change (of_Z 75) with (binary_round prec emax false 75 0) in H.
    change (ToNumber rt (JNum (of_nat n))) with (of_nat n).
    now rewrite H.
  - intros [-> | ->]; reflexivity.
Qed.

(** X21. A list of victims with a [null] among its first ten entries
    fails the whole source: the result carries an error and no item, not
    the entries that could be read. Entries after the tenth are never
    looked at. *)
Theorem fetchRansomwareVictims_null_entry (now : string) (resp : Response)
    (l : list JSValue) :
  httpRequest rt (s_url SOURCES_ransomware) no_options = Normal resp ->
  json resp = JArr l ->
  (error (fetchRansomwareVictims rt now) = None
   <-> forallb (fun v => negb (nullish v)) (List.firstn 10 l) = true)
  /\ (error (fetchRansomwareVictims rt now) <> None ->
      items (fetchRansomwareVictims rt now) = Some []).
Proof.
  intros Hreq Hjson. unfold fetchRansomwareVictims. fold no_options.
  rewrite Hreq. cbn [and_then]. rewrite Hjson. cbn [nullish slice10_map].
  rewrite <- map_victims_normal.
  destruct (map_items victim_item (List.firstn 10 l)); cbn.
  - split; [tauto | congruence].
  - split; [split; discriminate | reflexivity].
Qed.

Lemma contribution_le_10 r now :
  In r [ fetchRansomwareVictims rt now; fetchMaliciousURLs rt now;
         fetchIOCs rt now ] ->
  contribution r <= 10.
Proof.
  intros Hr. destruct (error r) as [msg|] eqn:E.
  - destruct (fetch_failure_shape r now Hr) as (Hi & _); [congruence|].
    unfold contribution. rewrite Hi. cbn. lia.
  - assert (H : exists l, truncated l r).
    { destruct Hr as [<-|[<-|[<-|[]]]].
      + destruct (fetchRansomwareVictims_success rt now E) as (? & l & _ & _ & H).
        now exists l.
      + destruct (fetchMaliciousURLs_success rt now E) as (? & l & _ & _ & H).
        now exists l.
      + destruct (fetchIOCs_success rt now E) as (? & l & _ & _ & H).
        now exists l. }
    destruct H as (l & _ & its & Hi & Hlen).
    unfold contribution. rewrite Hi. lia.
Qed.

Lemma high_items_le r : high_items r <= contribution r.
Proof.
  unfold high_items, contribution. destruct (items r); [|lia].
  apply List.filter_length_le.
Qed.

Lemma urlhaus_no_high now : high_items (fetchMaliciousURLs rt now) = 0.
Proof.
  unfold high_items. destruct (items (fetchMaliciousURLs rt now)) as [its|] eqn:E;
    [|reflexivity].
  assert (H : Forall (fun i => severity i = "medium") its).
  { apply (urlhaus_items _ now its); [|exact E].
    intros v it. unfold url_item. destruct (nullish v); [discriminate|].
    now intros [= <-]. }
  clear E. induction H as [|i its Hi _ IH]; [reflexivity|].
  cbn [List.filter]. rewrite Hi. exact IH.
Qed.

(** X22. Whatever the feeds return, the summary of a cycle names the
    three sources in the same order, counts at most 30 threats (10 per
    source) and at most 20 of high severity (URLhaus items never are),
    and never more of high severity than threats. *)
Theorem aggregate_bounds (clock : nat -> string) :
  let s := summary (aggregate_output rt clock) in
  List.map name (sources s)
  = [ Some "Ransomware.live"; Some "URLhaus"; Some "ThreatFox" ]
  /\ totalThreats s <= 30
  /\ highSeverity s <= 20
  /\ highSeverity s <= totalThreats s.
Proof.
  intros s. subst s. unfold aggregate_output. cbn [summary List.map threat_of].
  destruct (summarize_totals (clock 3)
              [ fetchRansomwareVictims rt (clock 0);
                fetchMaliciousURLs rt (clock 1);
                fetchIOCs rt (clock 2) ]) as [-> ->].
  cbn [sources summarize List.map name list_sum foldr].
  destruct (fetch_sources (clock 0)) as (-> & _ & _).
  destruct (fetch_sources (clock 1)) as (_ & -> & _).
  destruct (fetch_sources (clock 2)) as (_ & _ & ->).
  pose proof (contribution_le_10 (fetchRansomwareVictims rt (clock 0)) (clock 0)
                ltac:(cbn; tauto)) as H1.
  pose proof (contribution_le_10 (fetchMaliciousURLs rt (clock 1)) (clock 1)
                ltac:(cbn; tauto)) as H2.
  pose proof (contribution_le_10 (fetchIOCs rt (clock 2)) (clock 2)
                ltac:(cbn; tauto)) as H3.
  pose proof (high_items_le (fetchRansomwareVictims rt (clock 0))) as G1.
  pose proof (high_items_le (fetchIOCs rt (clock 2))) as G3.
  pose proof (urlhaus_no_high (clock 1)) as G2.
  repeat split; lia.
Qed.

(** X23. Each entry of a cycle either succeeded, and then has a
    timestamp, a count and items and no error, or failed, and then has an
    error, no timestamp, no count and an empty list of items. *)
Theorem source_result_shape (clock : nat -> string) (r : SourceResult) :
  In r (threats (aggregate_output rt clock)) ->
  (error r = None /\ timestamp r <> None /\ count r <> None /\ items r <> None)
  \/ (error r <> None /\ timestamp r = None /\ count r = None
      /\ items r = Some []).
Proof.
  unfold aggregate_output. cbn [threats List.map threat_of].
  intros [<-|[<-|[<-|[]]]];
    unfold fetchRansomwareVictims, fetchMaliciousURLs, fetchIOCs;
    (destruct (httpRequest rt _ _) as [resp|e]; cbn;
       [|right; repeat split; congruence]);
    (destruct (nullish (json resp)); cbn; [right; repeat split; congruence|]);
    (destruct (slice10_map _ _ _) as [l|e]; cbn;
       [left | right]; repeat split; congruence).
Qed.

(** X24. What a failed fetch reports, for each of the three fetchers: an
    error event on the request gives the message of that error; an empty
    response body is read as [null] and gives the TypeError of the first
    property read on it; a body that is not JSON gives the message of the
    parse error after [Failed to parse JSON: ]. *)
Theorem fetch_error_messages (now : string)
    (fetch : string -> SourceResult) (call : HttpCall) (key : string) :
  In (fetch, call, key)
     [ (fetchRansomwareVictims rt, call_ransomware, "length");
       (fetchMaliciousURLs rt, call_urlhaus, "urls");
       (fetchIOCs rt, call_threatfox, "data") ] ->
  (forall e, net rt call = NetError e -> error (fetch now) = Some (message e))
  /\ (forall st, net rt call = NetResponse st "" ->
        error (fetch now)
        = Some ("Cannot read properties of null (reading '" ++ key ++ "')")%string)
  /\ (forall st c data err,
        net rt call = NetResponse st (String c data) ->
        JSON_parse rt (String c data) = Throw err ->
        error (fetch now)
        = Some ("Failed to parse JSON: " ++ message err)%string).
Proof.
  intros [[= <- <- <-]|[[= <- <- <-]|[[= <- <- <-]|[]]]];
    unfold fetchRansomwareVictims, fetchMaliciousURLs, fetchIOCs, httpRequest;
    (split; [|split]);
    [ intros e H | intros st H | intros st c data err H Hp
    | intros e H | intros st H | intros st c data err H Hp
    | intros e H | intros st H | intros st c data err H Hp ];
    match goal with
    | |- context [net rt ?c] =>
        first [ change c with call_ransomware
              | change c with call_urlhaus
              | change c with call_threatfox ]
    end;
    rewrite H; try rewrite Hp; reflexivity.
Qed.

Lemma fetchers_ignore_status (g : nat -> nat) now :
  fetchRansomwareVictims (restatus g rt) now = fetchRansomwareVictims rt now
  /\ fetchMaliciousURLs (restatus g rt) now = fetchMaliciousURLs rt now
  /\ fetchIOCs (restatus g rt) now = fetchIOCs rt now.
Proof.
  unfold fetchRansomwareVictims, fetchMaliciousURLs, fetchIOCs, httpRequest.
  cbn [net restatus JSON_parse].
  repeat split;
    (destruct (net rt _) as [e|st data]; [reflexivity|]);
    (destruct data; [reflexivity|]);
    (destruct (JSON_parse rt _); reflexivity).
Qed.

(** X25. The status code of a response plays no part: a cycle gives the
    same results and the same summary when every status is replaced by
    another one, so an error response whose body is JSON is read as
    data. *)
Theorem aggregate_ignores_status (g : nat -> nat) (clock : nat -> string) :
  aggregate_output (restatus g rt) clock = aggregate_output rt clock.
Proof.
  unfold aggregate_output.
  destruct (fetchers_ignore_status g (clock 0)) as (-> & _ & _).
  destruct (fetchers_ignore_status g (clock 1)) as (_ & -> & _).
  destruct (fetchers_ignore_status g (clock 2)) as (_ & _ & ->).
  reflexivity.
Qed.

Lemma split_go_app_sep sep a b cur :
  split_go sep (a ++ String sep b) cur
  = split_go sep a cur ++ split_go sep b "".
Proof.
  revert cur. induction a as [|c a IH]; intros cur.
  - rewrite append_nil_l. simpl. now rewrite Ascii.eqb_refl.
  - rewrite append_cons. simpl. destruct (Ascii.eqb c sep).
    + now rewrite IH.
    + apply IH.
Qed.

Lemma concat_cons_nonempty sep x y l :
  String.concat sep (x :: y :: l)
  = (x ++ sep ++ String.concat sep (y :: l))%string.
Proof. reflexivity. Qed.

(** Joining the segments of a split with the separator gives the text
    back. *)
Lemma concat_split_go sep s cur :
  String.concat (String sep "") (split_go sep s cur) = (cur ++ s)%string.
Proof.
  revert cur. induction s as [|c s IH]; intros cur; simpl.
  - now rewrite append_nil_r.
  - destruct (Ascii.eqb c sep) eqn:E.
    + apply Ascii.eqb_eq in E. subst c.
      destruct (split_go sep s "") as [|y l] eqn:Es;
        [now apply split_go_nonempty in Es|].
      rewrite concat_cons_nonempty, <- Es, IH, append_nil_l.
      now rewrite append_cons, append_nil_l.
    + rewrite IH, append_assoc. reflexivity.
Qed.

(** The directory of the cache file is the data directory. *)
Lemma dirname_CACHE_FILE DATA_DIR :
  path_dirname (CACHE_FILE DATA_DIR) = DATA_DIR.
Proof.
  unfold path_dirname, CACHE_FILE, split.
  change (DATA_DIR ++ "/threat-cache.json")%string
    with (DATA_DIR ++ String "/" "threat-cache.json")%string.
  rewrite split_go_app_sep.
  change (split_go "/" "threat-cache.json" "") with ["threat-cache.json"].
  rewrite removelast_last. apply (concat_split_go "/" DATA_DIR "").
Qed.

(** X26. [aggregateThreats] creates the data directory when it is
    missing and leaves the serialized output of the cycle in the cache
    file, then returns that output. A write that fails is not caught:
    the call is rejected with that error and returns no output. No other
    file changes; the cache file is as it was when it could not be
    opened, and otherwise it is torn: it holds the bytes that were
    written before the failure. *)
Theorem aggregateThreats_cache (DATA_DIR : string) (clock : nat -> string)
    (w : World unit) :
  fault w (OpMkdir DATA_DIR) = None ->
  files (fs w) !! DATA_DIR = None \/ DATA_DIR ∈ dirs (fs w) ->
  let output := aggregate_output rt clock in
  let text := JSON_stringify_output rt output in
  let r := aggregateThreats rt DATA_DIR clock w in
  (fault w (OpWrite (CACHE_FILE DATA_DIR)) = None ->
   fst r = Normal output
   /\ files (fs (snd r)) !! CACHE_FILE DATA_DIR = Some text
   /\ DATA_DIR ∈ dirs (fs (snd r)))
  /\ (forall e, fault w (OpWrite (CACHE_FILE DATA_DIR)) = Some e ->
        fst r = Throw e
        /\ (forall path, path <> CACHE_FILE DATA_DIR ->
                         files (fs (snd r)) !! path = files (fs w) !! path)
        /\ match torn w (CACHE_FILE DATA_DIR) with
           | None => files (fs (snd r)) = files (fs w)
           | Some n =>
               files (fs (snd r)) !! CACHE_FILE DATA_DIR
               = Some (String.substring 0 n text)
           end).
Proof.
  intros Hm Hd output text r. subst output text r.
  unfold aggregateThreats, bind, existsSync, mkdirSync, writeFileSync, ret,
    set_fs.
  rewrite dirname_CACHE_FILE.
  destruct (decide (DATA_DIR ∈ dirs (fs w))) as [Hin|Hnin].
  - rewrite (bool_decide_eq_true_2 _ Hin), orb_true_r. cbn.
    rewrite (bool_decide_eq_true_2 _ Hin). split.
    + intros ->. cbn. split; [reflexivity|].
      split; [apply lookup_insert_eq | exact Hin].
    + intros e ->.
      destruct (torn w (CACHE_FILE DATA_DIR)) as [n|]; cbn.
      * split; [reflexivity|].
        split; [intros path Hne; now apply lookup_insert_ne
               | apply lookup_insert_eq].
      * repeat split.
  - destruct Hd as [Hd|Hd]; [|contradiction].
    rewrite (bool_decide_eq_false_2 _ Hnin), orb_false_r.
    rewrite bool_decide_eq_false_2 by (rewrite Hd; apply is_Some_None).
    rewrite Hm. cbn [fs fault dirs files torn].
    rewrite bool_decide_eq_true_2 by set_solver. split.
    + intros ->. cbn.
      split; [reflexivity|]. split; [apply lookup_insert_eq | set_solver].
    + intros e ->.
      destruct (torn w (CACHE_FILE DATA_DIR)) as [n|]; cbn.
      * split; [reflexivity|].
        split; [intros path Hne; now apply lookup_insert_ne
               | apply lookup_insert_eq].
      * repeat split.
Qed.

End AggregatorMore.

Section AggregatorMoreWitnesses.
Import JS Node ThreatAggregator AggProps AggExtraProps.

Lemma ioc_severity_threshold_witness :
  severity {| type := "ioc";
              fields := [ ("ioc_type", JStr "domain");
                          ("value", JStr "bad.example");
                          ("threat", JUndefined); ("malware", JUndefined);
                          ("confidence", JNum (of_nat 75));
                          ("date", JUndefined) ];
              severity := "high" |}
  = "high".
Proof.
  apply (proj1 (ioc_severity_threshold rt_two_down
                  (ioc_with (JNum (of_nat 75))) _ eq_refl) 75).
  - lia.
  - reflexivity.
Defined.

Lemma fetchRansomwareVictims_null_entry_witness :
  items (fetchRansomwareVictims rt_null_victim "2024-01-01T00:00:00.000Z")
  = Some [].
Proof.
  apply (proj2 (fetchRansomwareVictims_null_entry rt_null_victim
                  "2024-01-01T00:00:00.000Z"
                  (mkResponse 200 "[...]" (JArr [victim_sample; JNull; victim_sample]))
                  [victim_sample; JNull; victim_sample] eq_refl eq_refl)).
  vm_compute. discriminate.
Defined.

Lemma items_type_and_severity_witness :
  type (mkItem "victim"
          [ ("name", JStr "ACME Corp"); ("group", JStr "lockbit3");
            ("date", JStr "2024-01-01 00:00:00.000000");
            ("country", JStr "US"); ("url", JStr "http://x.onion/acme") ]
          "high") = "victim".
Proof.
  apply (proj1 (items_type_and_severity rt_eleven "2024-01-01T00:00:00.000Z")
           (List.repeat
              (mkItem "victim"
                 [ ("name", JStr "ACME Corp"); ("group", JStr "lockbit3");
                   ("date", JStr "2024-01-01 00:00:00.000000");
                   ("country", JStr "US"); ("url", JStr "http://x.onion/acme") ]
                 "high") 10)).
  - reflexivity.
  - cbn. tauto.
Defined.

Lemma source_result_shape_witness :
  (error (failed "URLhaus" connect_failed) = None
   /\ timestamp (failed "URLhaus" connect_failed) <> None
   /\ count (failed "URLhaus" connect_failed) <> None
   /\ items (failed "URLhaus" connect_failed) <> None)
  \/ (error (failed "URLhaus" connect_failed) <> None
      /\ timestamp (failed "URLhaus" connect_failed) = None
      /\ count (failed "URLhaus" connect_failed) = None
      /\ items (failed "URLhaus" connect_failed) = Some []).
Proof.
  apply (source_result_shape rt_two_down Props.clock0).
  vm_compute. tauto.
Defined.

Lemma fetch_error_messages_witness :
  error (fetchMaliciousURLs rt_empty_body "2024-01-01T00:00:00.000Z")
  = Some "Cannot read properties of null (reading 'urls')".
Proof.
  apply (proj1 (proj2 (fetch_error_messages rt_empty_body
                         "2024-01-01T00:00:00.000Z"
                         (fetchMaliciousURLs rt_empty_body) call_urlhaus "urls"
                         ltac:(cbn; tauto))) 502).
  reflexivity.
Defined.

Lemma aggregateThreats_cache_witness :
  fst (aggregateThreats rt_two_down data_dir Props.clock0
         (agg_world Props.disk_full ∅))
  = Throw Props.ENOSPC
  /\ files (fs (snd (aggregateThreats rt_two_down data_dir Props.clock0
                       (agg_world Props.disk_full ∅))))
     !! CACHE_FILE data_dir
     = Some "".
Proof.
  pose proof (proj2 (aggregateThreats_cache rt_two_down data_dir Props.clock0
                       (agg_world Props.disk_full ∅)
                       eq_refl (or_introl eq_refl)) Props.ENOSPC eq_refl)
    as (Hr & _ & Ht).
  split; [exact Hr | exact Ht].
Defined.

End AggregatorMoreWitnesses.

Section ReputationMore.
Import JS Node NetworkMonitor Props ExtraProps.

(** After [172.] and one character, a dot cannot be the second digit the
    pattern asks for. *)
Lemma re_172_one_digit (d : ascii) (rest : string) :
  re_172 (String "1" (String "7" (String "2" (String "."
            (String d (String "." rest)))))) = false.
Proof.
  unfold re_172.
  destruct rest as [|[[] [] [] [] [] [] [] []] rest];
    cbn; rewrite ?andb_false_r; reflexivity.
Qed.

Lemma isPrivate_172_one_digit (now : string) (b : nat) (rest : string) :
  b < 10 ->
  isPrivate (checkIPReputation now (dotted 172 b rest)) = false.
Proof.
  intros Hb. unfold checkIPReputation. cbn [isPrivate].
  do 10 (destruct b as [|b];
    [ unfold privateRanges; cbn [existsb];
      match goal with
      | |- context [dotted 172 ?k rest] =>
          let s := eval vm_compute in (dotted 172 k rest) in
          change (dotted 172 k rest) with s
      end;
      rewrite re_172_one_digit; vm_compute; reflexivity |]).
  lia.
Qed.

Lemma isPrivate_192_168 (now rest : string) :
  isPrivate (checkIPReputation now (dotted 192 168 rest)) = true.
Proof. destruct rest; vm_compute; reflexivity. Qed.

Lemma isPrivate_table (now rest : string) :
  forallb (fun a =>
    forallb (fun b =>
      if (a =? 172) && (b <? 10) || (a =? 192) && (b =? 168) then true
      else Bool.eqb (isPrivate (checkIPReputation now (dotted a b rest)))
                    (private_block a b))
      (seq 0 256))
    (seq 0 256) = true.
Proof. vm_compute. reflexivity. Qed.

(** X27. On an address written as decimal numbers below 256 separated by
    dots, [checkIPReputation] answers private, and reputation [internal],
    exactly for the blocks 10/8, 127/8, 172.16/12 and 192.168/16, and
    [unknown] otherwise; what follows the second dot is not looked at. *)
Theorem checkIPReputation_dotted_quad (now : string) (a b : nat)
    (rest : string) :
  a < 256 -> b < 256 ->
  let r := checkIPReputation now (dotted a b rest) in
  isPrivate r = private_block a b
  /\ reputation r = (if private_block a b then "internal" else "unknown")
  /\ ip r = dotted a b rest.
Proof.
  intros Ha Hb r.
  assert (H : isPrivate r = private_block a b).
  { subst r.
    destruct ((a =? 172) && (b <? 10) || (a =? 192) && (b =? 168)) eqn:E.
    - apply orb_true_iff in E as [E|E];
        apply andb_true_iff in E as [Ea Eb];
        apply Nat.eqb_eq in Ea; subst a.
      + apply Nat.ltb_lt in Eb.
        rewrite isPrivate_172_one_digit by exact Eb.
        unfold private_block. cbn [Nat.eqb orb andb].
        destruct (16 <=? b) eqn:E16; [apply Nat.leb_le in E16; lia|].
        reflexivity.
      + apply Nat.eqb_eq in Eb. subst b.
        rewrite isPrivate_192_168. reflexivity.
    - pose proof (isPrivate_table now rest) as T.
      rewrite forallb_forall in T.
      specialize (T a (proj2 (in_seq 256 0 a) (conj (Nat.le_0_l a) Ha))).
      rewrite forallb_forall in T.
      specialize (T b (proj2 (in_seq 256 0 b) (conj (Nat.le_0_l b) Hb))).
      cbv beta in T. rewrite E in T.
      apply Bool.eqb_prop in T. exact T. }
  split; [exact H|]. split; [|reflexivity].
  subst r. unfold checkIPReputation in *. cbn [isPrivate reputation] in *.
  rewrite H. reflexivity.
Qed.

Lemma checkIPReputation_dotted_quad_witness :
  reputation (checkIPReputation "2024-01-01T00:00:00.000Z"
                (dotted 172 31 "255.254"))
  = "internal".
Proof.
  apply (proj1 (proj2 (checkIPReputation_dotted_quad
                         "2024-01-01T00:00:00.000Z" 172 31 "255.254"
                         ltac:(lia) ltac:(lia)))).
Defined.

End ReputationMore.
